(** * Timeline synchronisation and playback engine: a shallow embedding

    The development follows the backend modules of the web display:

    - [data_processor.py]  : the sample store and the nearest-timestamp lookup,
    - [video_timestamp_mapper.py] : the interpolating timeline mapper,
    - [app.py] : the playback control handlers, the playback loop and the
      HTTP routes,
    - [verify_setup.py] : the deployment check.

    Conventions.  Python integers are [Z] (indices that can never be negative
    are [nat]); Python floats are written as rationals [Q] for times and
    speeds and as reals [R] where a square root is taken (quaternion
    normalisation).  A Python call that may raise returns a [result].

    Floating-point rounding.  The embedding computes with exact numbers, so
    the theorems are kept to what does not depend on rounding: comparisons,
    values that are stored or returned as they are, clamps, and a single
    operation on given operands.  Where the code's answer depends on how a
    library rounds, the rounding is a parameter of the definition: the
    conversion of seconds to nanoseconds in [find_index_for_timestamp]
    ([to_timedelta]) and the difference of two floats in [get_frame]
    ([fsub]).  Nothing is stated about the number the mapper interpolates
    between two anchors, nor about the value of a normalised quaternion
    beyond the formula that builds it. *)

From Stdlib Require Import String.
From Stdlib Require Import ZArith QArith Qminmax Lia List Bool Arith PeanoNat.
From Stdlib Require Import Sorting.Sorted Sorting.Permutation.
From Stdlib Require Import Qabs Qround.
From Stdlib Require Import Reals Lra Lqa.
Import ListNotations.

Close Scope R_scope.
Close Scope Q_scope.
Open Scope nat_scope.

(* ================================================================== *)
(** * Python primitives shared by the modules *)
(* ================================================================== *)

Module Py.

(** The exceptions the modelled code can meet. *)
Inductive exn : Type :=
| TypeError
| KeyError
| IndexError
| ValueError
| ZeroDivisionError
| OSError
| JSONDecodeError
| OverflowError.

Inductive result (A : Type) : Type :=
| Ok (a : A)
| Raise (e : exn).
Arguments Ok {A} a.
Arguments Raise {A} e.

Definition bind {A B : Type} (m : result A) (k : A -> result B) : result B :=
  match m with
  | Ok a => k a
  | Raise e => Raise e
  end.

Declare Scope py_scope.
Delimit Scope py_scope with py.
Notation "x <- m ;; k" := (bind m (fun x => k))
  (at level 61, m at next level, right associativity) : py_scope.

Local Open Scope py_scope.

Section Bisect.
Context {A : Type}.
(** [lt a b] is the Python expression [a < b]; it may raise. *)
Variable lt : A -> A -> result bool.

(** The loop of [bisect.bisect_left]:
<<
      while lo < hi:
          mid = (lo + hi) // 2
          if a[mid] < x: lo = mid + 1
          else: hi = mid
      return lo
>>
    [fuel] bounds the number of iterations; [bisect_left] supplies
    [len(a)], which is never exhausted (lemma [bisect_loop_fuel]). *)
Fixpoint bisect_loop (fuel : nat) (a : list A) (x : A) (lo hi : nat)
  : result nat :=
  if lo <? hi then
    match fuel with
    | O => Ok lo
    | S fuel' =>
        let mid := (lo + hi) / 2 in
        match nth_error a mid with
        | None => Raise IndexError
        | Some am =>
            b <- lt am x ;;
            if (b : bool) then bisect_loop fuel' a x (mid + 1) hi
            else bisect_loop fuel' a x lo mid
        end
    end
  else Ok lo.

Definition bisect_left (a : list A) (x : A) : result nat :=
  bisect_loop (length a) a x 0 (length a).
End Bisect.

(** The insertion point of a list whose elements satisfying [p] all stand
    before those that do not. *)
Section PartitionPoint.
Context {A : Type}.
Variable p : A -> bool.

(** Once [p] fails it keeps failing further right. *)
Definition down_closed (a : list A) : Prop :=
  forall i j y z, i <= j ->
    nth_error a i = Some y -> nth_error a j = Some z ->
    p z = true -> p y = true.

Definition partition_point (a : list A) : nat := length (filter p a).
End PartitionPoint.

(** Python's two-argument [min] and [max] return the first argument unless
    the second is strictly smaller (resp. larger). *)
Definition min2 (a b : Q) : Q := if Qlt_le_dec b a then b else a.
Definition max2 (a b : Q) : Q := if Qlt_le_dec a b then b else a.

(** Float division: a zero divisor raises. *)
Definition div (a b : Q) : result Q :=
  if Qeq_bool b 0%Q then Raise ZeroDivisionError else Ok (a / b)%Q.

End Py.

Import Py.
Local Open Scope py_scope.

(* ================================================================== *)
(** * Rotations as scipy represents them *)
(* ================================================================== *)

Module Rotation.
Local Open Scope R_scope.

(** A quaternion in scipy's scalar-last layout [[x, y, z, w]]. *)
Record quat : Type := Quat { qx : R; qy : R; qz : R; qw : R }.

Definition sq_norm (q : quat) : R :=
  qx q * qx q + qy q * qy q + qz q * qz q + qw q * qw q.

Definition norm (q : quat) : R := sqrt (sq_norm q).

Definition scale (k : R) (q : quat) : quat :=
  Quat (qx q / k) (qy q / k) (qz q / k) (qw q / k).

(** [Rotation.from_quat]: the input is normalised; a zero quaternion is
    rejected with [ValueError]. *)
Definition from_quat (q : quat) : result quat :=
  if Req_EM_T (norm q) 0 then Raise ValueError else Ok (scale (norm q) q).

(** The Hamilton product [p (x) q] in scalar-last layout. *)
Definition compose_quat (p q : quat) : quat :=
  Quat (qw p * qx q + qw q * qx p + (qy p * qz q - qz p * qy q))
       (qw p * qy q + qw q * qy p + (qz p * qx q - qx p * qz q))
       (qw p * qz q + qw q * qz p + (qx p * qy q - qy p * qx q))
       (qw p * qw q - qx p * qx q - qy p * qy q - qz p * qz q).

(** [p * q] on rotations: the product of the stored quaternions, wrapped
    again as a rotation (hence normalised again). *)
Definition mul (p q : quat) : result quat := from_quat (compose_quat p q).

(** [as_quat] hands back the stored components. *)
Definition as_quat (q : quat) : quat := q.

(** A vector of the three-dimensional space. *)
Record vec : Type := Vec { vx : R; vy : R; vz : R }.

Definition conj (q : quat) : quat := Quat (- qx q) (- qy q) (- qz q) (qw q).

(** A vector as a quaternion without scalar part, and back. *)
Definition pure (v : vec) : quat := Quat (vx v) (vy v) (vz v) 0.

Definition vec_part (q : quat) : vec := Vec (qx q) (qy q) (qz q).

(** The rotation a unit quaternion stands for, [v |-> q (x) v (x) q*]
    ([Rotation.apply]).  With [q = B_from_A] it carries the coordinates of a
    vector in frame [A] to its coordinates in frame [B]. *)
Definition apply (q : quat) (v : vec) : vec :=
  vec_part (compose_quat (compose_quat q (pure v)) (conj q)).

Definition identity : quat := Quat 0 0 0 1.

End Rotation.

(* ================================================================== *)
(** * data_processor.py : the sample store and the timestamp index *)
(* ================================================================== *)

Module DataProcessor.

(** One row of [merged_data.csv] after loading (the columns the backend
    reads).  [mode] is absent when the file has no such column. *)
Record row : Type := Row {
  x_helmet : R; y_helmet : R; z_helmet : R; w_helmet : R;
  x_vehicle : R; y_vehicle : R; z_vehicle : R; w_vehicle : R;
  lat : R; lon : R; alt : R;
  north : R; east : R; down : R;
  mode : option Z
}.

(** [data_list]: pairs of the row's timestamp (a [Timedelta], kept as its
    nanosecond [value]) and the row. *)
Definition data_list : Type := list (Z * row).

Definition timestamp_ns_list_of (dl : data_list) : list Z := map fst dl.

Definition get_data_count (dl : data_list) : Z := Z.of_nat (length dl).

(** The dictionary [get_data_at_index] returns. *)
Record frame : Type := Frame {
  index : Z;
  timestamp_seconds : Q;
  timestamp_ns : Z;
  VQ : Rotation.quat;
  HQ : Rotation.quat;
  VLAT : R; VLON : R; VALT : R;
  VVN : R; VVE : R; VVD : R;
  VINS : Z;
  GSPEED : R
}.

(** The two quaternions read from a row, as the lists handed to
    [Rotation.from_quat]. *)
Definition helmet_quat (r : row) : Rotation.quat :=
  Rotation.Quat (x_helmet r) (y_helmet r) (z_helmet r) (w_helmet r).

Definition vehicle_quat (r : row) : Rotation.quat :=
  Rotation.Quat (x_vehicle r) (y_vehicle r) (z_vehicle r) (w_vehicle r).

(** [Timedelta.total_seconds()]. *)
Definition total_seconds (ns : Z) : Q := (inject_Z ns / 1000000000)%Q.

Definition get_data_at_index (dl : data_list) (index : Z)
  : result (option frame) :=
  if ((index <? 0) || (get_data_count dl <=? index))%Z then Ok None
  else
    match nth_error dl (Z.to_nat index) with
    | None => Raise IndexError
    | Some (idx, r) =>
        helmet_corrected <- Rotation.from_quat (helmet_quat r) ;;
        vehicle_world <- Rotation.from_quat (vehicle_quat r) ;;
        helmet_world <- Rotation.mul vehicle_world helmet_corrected ;;
        let vvn := north r in
        let vve := east r in
        let vvd := down r in
        let gspeed := sqrt (vvn ^ 2 + vve ^ 2 + vvd ^ 2)%R in
        Ok (Some {|
          index := index;
          timestamp_seconds := total_seconds idx;
          timestamp_ns := idx;
          VQ := Rotation.as_quat vehicle_world;
          HQ := Rotation.as_quat helmet_world;
          VLAT := lat r; VLON := lon r; VALT := alt r;
          VVN := vvn; VVE := vve; VVD := vvd;
          VINS := match mode r with Some m => m | None => 0%Z end;
          GSPEED := gspeed
        |})
    end.

(** [timestamp_ns_list] holds Python integers (nanoseconds); comparing two
    of them never raises. *)
Definition int_lt (a b : Z) : result bool := Ok (a <? b)%Z.

(** Absolute difference of two nanosecond values, [abs(a - b)]. *)
Definition abs_diff (a b : Z) : Z := Z.abs (a - b).

(** Lines 138 to 155 of [find_index_for_timestamp]: the search, once the
    target is a number of nanoseconds.  [timestamp_ns_list] is
    [[idx.value for idx, _ in self.data_list]], as [_load_data] (or the
    fallback in the method itself) computes it. *)
Definition find_index_from_ns (dl : data_list) (target_ns : Z)
  : result (option nat) :=
  match dl with
  | [] => Ok None
  | _ :: _ =>
      let timestamp_ns_list := timestamp_ns_list_of dl in
      idx <- bisect_left int_lt timestamp_ns_list target_ns ;;
      if (idx =? 0)%nat then Ok (Some 0%nat)
      else if (length timestamp_ns_list <=? idx)%nat
           then Ok (Some (length timestamp_ns_list - 1)%nat)
      else
        match nth_error timestamp_ns_list (idx - 1),
              nth_error timestamp_ns_list idx with
        | Some p, Some n =>
            let prev_diff := abs_diff p target_ns in
            let next_diff := abs_diff n target_ns in
            if (prev_diff <? next_diff)%Z then Ok (Some (idx - 1)%nat)
            else Ok (Some idx)
        | _, _ => Raise IndexError
        end
  end.

Section Lookup.
(** [pd.to_timedelta(timestamp_seconds, unit='s').value] belongs to pandas:
    the conversion of a float of seconds to a whole number of nanoseconds,
    which rounds and which refuses what does not fit 64 bits, is a
    parameter. *)
Variable to_timedelta : Q -> result Z.

(** [find_index_for_timestamp]: the empty store is answered before the
    target is converted. *)
Definition find_index_for_timestamp (dl : data_list) (timestamp_seconds : Q)
  : result (option nat) :=
  match dl with
  | [] => Ok None
  | _ :: _ =>
      target_ns <- to_timedelta timestamp_seconds ;;
      find_index_from_ns dl target_ns
  end.
End Lookup.

(** A row with both raw quaternions equal to the identity, at rest at the
    origin; used to build small stores. *)
Definition level_row : row :=
  Row 0 0 0 1 0 0 0 1 0 0 0 0 0 0 None.

(** The store of level samples with the given timestamps (nanoseconds). *)
Definition store_of (stamps : list Z) : data_list :=
  map (fun ns => (ns, level_row)) stamps.

(** Four level samples, 20 ms apart. *)
Definition level_store : data_list :=
  store_of [0; 20000000; 40000000; 60000000]%Z.

(** A sample whose raw quaternions are not unit and do not commute: the
    vehicle turned a third of a turn about the diagonal, [(1, 1, 1, 1)], the
    headset half a turn about the first axis, [(2, 0, 0, 0)]. *)
Definition turned_row : row :=
  Row 2 0 0 0 1 1 1 1 0 0 0 0 0 0 None.

Definition turned_store : data_list := [(0%Z, turned_row)].

(** ** The remaining accessors *)

(** A row whose two raw quaternions [Rotation.from_quat] accepts. *)
Definition valid_row (r : row) : Prop :=
  Rotation.norm (vehicle_quat r) <> 0%R /\
  Rotation.norm (helmet_quat r) <> 0%R.

Definition valid_store (dl : data_list) : Prop :=
  forall ns r, In (ns, r) dl -> valid_row r.

(** The dictionary of three lists [get_all_path_data] returns. *)
Record path_columns : Type := PathColumns {
  lats : list R;
  lons : list R;
  alts : list R
}.

Definition get_all_path_data (dl : data_list) : path_columns :=
  {| lats := map (fun ir => lat (snd ir)) dl;
     lons := map (fun ir => lon (snd ir)) dl;
     alts := map (fun ir => alt (snd ir)) dl |}.

(** The dictionary of three lists [get_all_attitude_data] returns. *)
Record attitudes : Type := Attitudes {
  yaws : list R;
  pitches : list R;
  rolls : list R
}.

(** [math.degrees]. *)
Definition degrees (x : R) : R := (x * (180 / PI))%R.

Section Attitude.
(** [Rotation.as_euler('xyz', degrees=False)] belongs to scipy: the three
    angles of a rotation are a parameter. *)
Variable as_euler : Rotation.quat -> R * R * R.

(** The [for] loop of [get_all_attitude_data], with the three lists it
    appends to. *)
Fixpoint attitude_loop (rows : data_list) (yaws pitches rolls : list R)
  : result attitudes :=
  match rows with
  | [] => Ok (Attitudes yaws pitches rolls)
  | (_, row) :: rest =>
      vehicle_world <- Rotation.from_quat (vehicle_quat row) ;;
      let euler := as_euler vehicle_world in
      let roll := degrees (fst (fst euler)) in
      let pitch := degrees (snd (fst euler)) in
      let yaw := degrees (snd euler) in
      attitude_loop rest (yaws ++ [yaw]) (pitches ++ [pitch]) (rolls ++ [roll])
  end.

Definition get_all_attitude_data (dl : data_list) : result attitudes :=
  attitude_loop dl [] [] [].
End Attitude.

End DataProcessor.

(* ================================================================== *)
(** * video_timestamp_mapper.py : the timeline mapper *)
(* ================================================================== *)

Module Mapper.

(** ** Values read from the mapping file

    A field of a mapping entry after [json.load]: a number, a string or
    [None] (JSON [null]). *)
Inductive value : Type :=
| VNum (q : Q)
| VStr (s : string)
| VNone.

(** [a == b]: never raises; values of different kinds are different. *)
Definition v_eq (a b : value) : bool :=
  match a, b with
  | VNum x, VNum y => Qeq_bool x y
  | VStr x, VStr y => String.eqb x y
  | VNone, VNone => true
  | _, _ => false
  end.

Definition Qltb (x y : Q) : bool :=
  match Qcompare x y with Lt => true | _ => false end.

(** [a < b]: numbers with numbers, strings with strings; anything else is
    a [TypeError]. *)
Definition v_lt (a b : value) : result bool :=
  match a, b with
  | VNum x, VNum y => Ok (Qltb x y)
  | VStr x, VStr y => Ok (String.ltb x y)
  | _, _ => Raise TypeError
  end.

(** [a - b], [a * b] (with a float on the left), [a / b], [a + b].  On
    numbers Python rounds each result to a float; here they are computed
    exactly.  They are used by the interpolation between two anchors only, so
    the theorems say which kind of value such a query returns and whether it
    raises, never which number it is. *)
Definition v_sub (a b : value) : result value :=
  match a, b with
  | VNum x, VNum y => Ok (VNum (x - y)%Q)
  | _, _ => Raise TypeError
  end.

Definition v_mul (a b : value) : result value :=
  match a, b with
  | VNum x, VNum y => Ok (VNum (x * y)%Q)
  | _, _ => Raise TypeError
  end.

Definition v_div (a b : value) : result value :=
  match a, b with
  | VNum x, VNum y => q <- div x y ;; Ok (VNum q)
  | _, _ => Raise TypeError
  end.

Definition v_add (a b : value) : result value :=
  match a, b with
  | VNum x, VNum y => Ok (VNum (x + y)%Q)
  | VStr x, VStr y => Ok (VStr (x ++ y))
  | _, _ => Raise TypeError
  end.

(** [(a1, b1) < (a2, b2)] on pairs: the first components that differ
    decide; equal pairs are not below each other. *)
Definition pair_lt (p q : value * value) : result bool :=
  if negb (v_eq (fst p) (fst q)) then v_lt (fst p) (fst q)
  else if negb (v_eq (snd p) (snd q)) then v_lt (snd p) (snd q)
  else Ok false.

(** ** [sorted]

    [sorted] is stable and compares with [<] only.  It is modelled as the
    stable insertion sort: on a list whose comparisons do not raise every
    stable sort returns the same list. *)
Section Sorted.
Context {A : Type}.
Variable lt : A -> A -> result bool.

Fixpoint insert (x : A) (l : list A) : result (list A) :=
  match l with
  | [] => Ok [x]
  | y :: l' =>
      b <- lt x y ;;
      if (b : bool) then Ok (x :: y :: l')
      else (r <- insert x l' ;; Ok (y :: r))
  end.

Definition sorted (l : list A) : result (list A) :=
  fold_left (fun acc x => a <- acc ;; insert x a) l (Ok []).

(** [x] may stand before [y]: [y < x] is false. *)
Definition not_after (x y : A) : Prop := lt y x = Ok false.
End Sorted.

(** ** The mapping source *)

(** One element of the JSON array: the two keys the loader reads
    ([None] when the key is missing). *)
Record entry : Type := Entry {
  data_timestamp : option value;
  video_time : option value
}.

(** What [open] and [json.load] make of the file. *)
Inductive source : Type :=
| NoFile                          (* no path given, or the path does not exist *)
| Unreadable                      (* [open] raises *)
| NotJson                         (* [json.load] raises *)
| Json (mapping : list entry).    (* an array of objects *)

(** ** The mapper object *)

(** The three attributes that exist only after the second sort. *)
Record by_video : Type := ByVideo {
  timestamps_by_video : list (value * value);
  video_times_sorted : list value;
  data_timestamps_by_video : list value
}.

Record mapper : Type := MapperState {
  timestamps : list (value * value);
  data_timestamps : list value;
  video_times : list value;
  reverse : option by_video
}.

(** [entry['data_timestamp'], entry['video_time']] for each entry. *)
Fixpoint read_entries (mapping : list entry)
  : result (list (value * value)) :=
  match mapping with
  | [] => Ok []
  | e :: rest =>
      match data_timestamp e, video_time e with
      | Some d, Some v => r <- read_entries rest ;; Ok ((d, v) :: r)
      | _, _ => Raise KeyError
      end
  end.

(** [load_mapping]: the attribute writes happen in program order, and an
    exception anywhere in the [try] block ends the load with [False],
    leaving in place what was written before. *)
Definition load_mapping (src : source) (self : mapper) : mapper * bool :=
  match src with
  | NoFile | Unreadable | NotJson => (self, false)
  | Json mapping =>
      match (pairs <- read_entries mapping ;; sorted pair_lt pairs) with
      | Raise _ => (self, false)
      | Ok ts =>
          let self1 :=
            MapperState ts (map fst ts) (map snd ts) (reverse self) in
          match sorted (fun x y => v_lt (snd x) (snd y)) ts with
          | Raise _ => (self1, false)
          | Ok tsv =>
              (MapperState ts (map fst ts) (map snd ts)
                 (Some (ByVideo tsv (map snd tsv) (map fst tsv))),
               true)
          end
      end
  end.

(** [VideoTimestampMapper(timestamp_map_file)]. *)
Definition new (src : source) : mapper :=
  let self := MapperState [] [] [] None in
  match src with
  | NoFile => self
  | _ => fst (load_mapping src self)
  end.

Definition is_available (self : mapper) : bool :=
  (0 <? length (timestamps self))%nat.

(** [xs[-1]] on a non-empty list. *)
Definition last_item (xs : list value) : result value :=
  match xs with
  | [] => Raise IndexError
  | x :: _ => Ok (last xs x)
  end.

Definition item {A : Type} (xs : list A) (i : nat) : result A :=
  match nth_error xs i with
  | Some x => Ok x
  | None => Raise IndexError
  end.

(** [data_to_video_time]; the query is a float. *)
Definition data_to_video_time (self : mapper) (data_timestamp : Q)
  : result (option value) :=
  match timestamps self with
  | [] => Ok None
  | _ :: _ =>
      let x := VNum data_timestamp in
      idx <- bisect_left v_lt (data_timestamps self) x ;;
      if (idx =? 0)%nat then
        v <- item (video_times self) 0 ;; Ok (Some v)
      else if (length (timestamps self) <=? idx)%nat then
        v <- last_item (video_times self) ;; Ok (Some v)
      else
        prev <- item (timestamps self) (idx - 1) ;;
        next <- item (timestamps self) idx ;;
        let (prev_data_ts, prev_video_ts) := (prev : value * value) in
        let (next_data_ts, next_video_ts) := (next : value * value) in
        if v_eq prev_data_ts x then Ok (Some prev_video_ts)
        else if v_eq next_data_ts x then Ok (Some next_video_ts)
        else if v_eq next_data_ts prev_data_ts then Ok (Some prev_video_ts)
        else
          num <- v_sub x prev_data_ts ;;
          den <- v_sub next_data_ts prev_data_ts ;;
          ratio <- v_div num den ;;
          span <- v_sub next_video_ts prev_video_ts ;;
          part <- v_mul ratio span ;;
          video_time <- v_add prev_video_ts part ;;
          Ok (Some video_time)
  end.

(** [video_to_data_time]; the query is a float. *)
Definition video_to_data_time (self : mapper) (video_time : Q)
  : result (option value) :=
  match timestamps self, reverse self with
  | [], _ | _, None => Ok None
  | _ :: _, Some rv =>
      let x := VNum video_time in
      idx <- bisect_left v_lt (video_times_sorted rv) x ;;
      if (idx =? 0)%nat then
        v <- item (data_timestamps_by_video rv) 0 ;; Ok (Some v)
      else if (length (timestamps_by_video rv) <=? idx)%nat then
        v <- last_item (data_timestamps_by_video rv) ;; Ok (Some v)
      else
        prev <- item (timestamps_by_video rv) (idx - 1) ;;
        next <- item (timestamps_by_video rv) idx ;;
        let (prev_data_ts, prev_video_ts) := (prev : value * value) in
        let (next_data_ts, next_video_ts) := (next : value * value) in
        if v_eq prev_video_ts x then Ok (Some prev_data_ts)
        else if v_eq next_video_ts x then Ok (Some next_data_ts)
        else if v_eq next_video_ts prev_video_ts then Ok (Some prev_data_ts)
        else
          num <- v_sub x prev_video_ts ;;
          den <- v_sub next_video_ts prev_video_ts ;;
          ratio <- v_div num den ;;
          span <- v_sub next_data_ts prev_data_ts ;;
          part <- v_mul ratio span ;;
          data_timestamp <- v_add prev_data_ts part ;;
          Ok (Some data_timestamp)
  end.

(** ** Sources used below *)

(** A correspondence table of numbers, as a mapping file. *)
Definition emb (ab : Q * Q) : value * value := (VNum (fst ab), VNum (snd ab)).

Definition entry_of (ab : Q * Q) : entry :=
  Entry (Some (VNum (fst ab))) (Some (VNum (snd ab))).

Definition numeric_source (anchors : list (Q * Q)) : source :=
  Json (map entry_of anchors).

(** A pair of numbers, as stored. *)
Definition numeric (p : value * value) : Prop := exists ab, p = emb ab.

(** The two orders of the projections. *)
Definition by_data (x y : Q * Q) : Prop := (fst x <= fst y)%Q.
Definition by_video_time (x y : Q * Q) : Prop := (snd x <= snd y)%Q.

(** The state of a mapper whose two projections are the tables of numbers
    [ts] and [tsv]. *)
Definition loaded (ts tsv : list (Q * Q)) : mapper :=
  MapperState (map emb ts) (map fst (map emb ts)) (map snd (map emb ts))
    (Some (ByVideo (map emb tsv) (map snd (map emb tsv))
                   (map fst (map emb tsv)))).

(** A mapping file whose second entry is fine and whose first entry has a
    string where the video time should be:
    [[{"data_timestamp": 1, "video_time": "a"},
      {"data_timestamp": 2, "video_time": 3}]]. *)
Definition mixed_source : source :=
  Json [ Entry (Some (VNum 1)) (Some (VStr "a"));
         Entry (Some (VNum 2)) (Some (VNum 3)) ].

(** [r] lies between two of the values [vals]. *)
Definition within (vals : list Q) (r : Q) : Prop :=
  exists lo hi, In lo vals /\ In hi vals /\ (lo <= r <= hi)%Q.

(** ** Reading the answers of the queries

    The value interpolated between two anchors [(key, value)]. *)
Definition interpolate (p0 p1 : Q * Q) (t : Q) : Q :=
  (snd p0 + ((t - fst p0) / (fst p1 - fst p0)) * (snd p1 - snd p0))%Q.

(** A table read the other way round: video time first. *)
Definition swapQ (p : Q * Q) : Q * Q := (snd p, fst p).

Local Open Scope Q_scope.

(** What a query at [t] answers on a table of [(key, value)] anchors:
    before the keys the value of a first anchor, after the keys the value
    of a last anchor, otherwise the value of the anchor hit or the
    interpolation of the two neighbouring anchors [p0] and [p1] (no key
    lies strictly between theirs). *)
Definition query_answer (table : list (Q * Q)) (t r : Q) : Prop :=
  ((forall p, In p table -> t <= fst p) ->
   exists p, In p table /\ r = snd p /\
             forall q, In q table -> fst p <= fst q) /\
  ((forall p, In p table -> fst p < t) ->
   exists p, In p table /\ r = snd p /\
             forall q, In q table -> fst q <= fst p) /\
  ((exists p, In p table /\ fst p < t) ->
   (exists p, In p table /\ t <= fst p) ->
   exists p0 p1,
     In p0 table /\ In p1 table /\ fst p0 < t /\ t <= fst p1 /\
     (forall q, In q table -> fst q <= fst p0 \/ fst p1 <= fst q) /\
     ((fst p1 == t /\ r = snd p1) \/
      (t < fst p1 /\ r = interpolate p0 p1 t /\
       Qmin (snd p0) (snd p1) <= r <= Qmax (snd p0) (snd p1) /\
       (~ snd p0 == snd p1 ->
        Qmin (snd p0) (snd p1) < r < Qmax (snd p0) (snd p1))))).

(** What a query at [t] answers wherever no arithmetic is involved: at or
    before the keys the value of an anchor with the smallest key, after the
    keys the value of an anchor with the largest key, and on the key of an
    anchor the stored value of an anchor with this key. *)
Definition anchored_answer (table : list (Q * Q)) (t r : Q) : Prop :=
  ((forall p, In p table -> t <= fst p) ->
   exists p, In p table /\ r = snd p /\
             forall q, In q table -> fst p <= fst q) /\
  ((forall p, In p table -> fst p < t) ->
   exists p, In p table /\ r = snd p /\
             forall q, In q table -> fst q <= fst p) /\
  ((exists p, In p table /\ fst p == t) ->
   exists p, In p table /\ fst p == t /\ r = snd p).

End Mapper.

(* ================================================================== *)
(** * app.py : playback state, control handlers and the playback loop *)
(* ================================================================== *)

Module App.
Import DataProcessor.
Local Open Scope Q_scope.

(** The socket handlers and the loop run in different threads and meet in
    three module-level variables.  The model lets a handler run between two
    iterations of the loop. *)
Record globals : Type := Globals {
  playback_active : bool;
  playback_index : Z;
  playback_speed : Q
}.

(** Initial values: [playback_active = False], [playback_index = 0],
    [playback_speed = 2.0]. *)
Definition initial_globals : globals := Globals false 0%Z 2.

(** Variables local to one run of [playback_loop]. *)
Record locals : Type := Locals {
  frame_count : Z;
  last_timestamp : option Q
}.

Definition initial_locals : locals := Locals 0%Z None.

(** ** Control handlers *)

(** The payload of [start_playback]: both fields are optional. *)
Record start_request : Type := StartRequest {
  start_index : option Z;
  start_speed : option Q
}.

(** [data.get("speed", 2.0)] of [start_playback] and
    [float(data.get("speed", 1.0))] of [set_speed]. *)
Definition requested_by_start (data : start_request) : Q :=
  match start_speed data with Some s => s | None => 2 end.

Definition requested_by_set_speed (speed : option Q) : Q :=
  match speed with Some s => s | None => 1 end.

(** [handle_start_playback], on the shared variables.  [processor_ready]
    is [processor is not None]; starting the loop thread is left to the
    caller of this model. *)
Definition handle_start_playback (processor_ready : bool)
           (data : start_request) (g : globals) : globals :=
  if negb processor_ready then g
  else
    let playback_index' :=
      match start_index data with
      | Some i => i
      | None => playback_index g
      end in
    let requested_speed := requested_by_start data in
    Globals true playback_index' (min2 requested_speed 2).

Definition handle_pause_playback (g : globals) : globals :=
  Globals false (playback_index g) (playback_speed g).

(** [handle_set_speed]; [speed] is [data.get("speed", 1.0)]. *)
Definition handle_set_speed (speed : option Q) (g : globals) : globals :=
  let requested_speed := requested_by_set_speed speed in
  Globals (playback_active g) (playback_index g) (min2 requested_speed 2).

(** [handle_seek]; [index] is [data.get("index", 0)].  Only
    [playback_index] is written: [last_timestamp] belongs to the loop. *)
Definition handle_seek (index : option Z) (g : globals) : globals :=
  let i := match index with Some i => i | None => 0%Z end in
  Globals (playback_active g) i (playback_speed g).

(** ** The playback loop *)

(** The pacing block of the loop body: from the previous timestamp, the
    current one and the speed to the sleep time and the value
    [last_timestamp] has when the block is left. *)
Definition pacing (last_timestamp : option Q) (current_timestamp : Q)
           (playback_speed : Q) : result (Q * option Q) :=
  sleep_and_last <-
    match last_timestamp with
    | Some last =>
        let timestamp_diff := current_timestamp - last in
        if Qlt_le_dec timestamp_diff 0 then
          sleep_time <- div 0.01 playback_speed ;;
          Ok (sleep_time, None)
        else if Qlt_le_dec 10 timestamp_diff then
          sleep_time <- div 0.01 playback_speed ;;
          Ok (sleep_time, None)
        else if Qeq_bool timestamp_diff 0 then
          sleep_time <- div 0.001 playback_speed ;;
          Ok (sleep_time, Some last)
        else
          sleep_time <- div timestamp_diff playback_speed ;;
          Ok (max2 0.001 (min2 0.1 sleep_time), Some last)
    | None =>
        sleep_time <- div 0.01 playback_speed ;;
        Ok (sleep_time, None)
    end ;;
  (* Update last timestamp for next iteration *)
  Ok (fst sleep_and_last, Some current_timestamp).

(** What one iteration sends out. *)
Inductive event : Type :=
| FrameUpdate (data : frame)      (* socketio "frame_update" *)
| UdpGodot (data : frame)         (* datagram to the Godot listener *)
| GodotData (data : frame)        (* socketio "godot_data" *)
| PlaybackFinished.               (* socketio "playback_finished" *)

(** How one iteration of [while True] ends. *)
Inductive outcome : Type :=
| Continue (emitted : list event) (sleep_time : Q) (g : globals) (l : locals)
| Break (emitted : list event) (g : globals) (l : locals).

(** One iteration of the body of [playback_loop].  [processor] is [None]
    before initialisation; [udp_socket] tells whether the datagram socket
    exists. *)
Definition tick (processor : option data_list) (udp_socket : bool)
           (g : globals) (l : locals) : result outcome :=
  if negb (playback_active g) then Ok (Continue [] 0.1 g l)
  else
    match processor with
    | None => Ok (Break [] g l)
    | Some dl =>
        if (get_data_count dl <=? playback_index g)%Z then
          Ok (Break [PlaybackFinished]
                    (Globals false (playback_index g) (playback_speed g)) l)
        else
          data <- get_data_at_index dl (playback_index g) ;;
          match data with
          | Some d =>
              p <- pacing (last_timestamp l) (timestamp_seconds d)
                          (playback_speed g) ;;
              let emitted :=
                [FrameUpdate d]
                ++ (if udp_socket then [UdpGodot d] else [])
                ++ (if playback_active g then [GodotData d] else []) in
              Ok (Continue emitted (fst p)
                    (Globals (playback_active g) (playback_index g + 1)
                             (playback_speed g))
                    (Locals (frame_count l + 1) (snd p)))
          | None =>
              sleep_time <- div 0.01 (playback_speed g) ;;
              Ok (Continue [] sleep_time
                    (Globals (playback_active g) (playback_index g + 1)
                             (playback_speed g))
                    l)
          end
    end.

(** ** The loop as a whole *)

(** [time.sleep]: the length is first turned into a whole number of
    nanoseconds, rounded away from zero, and refused with [OverflowError]
    when that number does not fit 64 bits; a negative length is then a
    [ValueError]. *)
Definition time_sleep (seconds : Q) : result unit :=
  let d := seconds * 1000000000 in
  let ns := if Qlt_le_dec d 0 then Qfloor d else Qceiling d in
  if ((ns <? - 2 ^ 63) || (2 ^ 63 <=? ns))%Z then Raise OverflowError
  else if Qlt_le_dec seconds 0 then Raise ValueError
  else Ok tt.

(** What a run of the loop leaves behind: the events sent, the shared
    variables, the loop's own variables, and whether the loop has ended
    ([break]) or is still turning when the observation stops. *)
Record run : Type := Run {
  sent : list event;
  run_globals : globals;
  run_locals : locals;
  ended : bool
}.

(** [playback_loop] observed for at most [fuel] iterations, with no handler
    running in between. *)
Fixpoint playback_loop (fuel : nat) (processor : option data_list)
         (udp_socket : bool) (g : globals) (l : locals) : result run :=
  match fuel with
  | O => Ok (Run [] g l false)
  | S fuel' =>
      o <- tick processor udp_socket g l ;;
      match o with
      | Break emitted g' l' => Ok (Run emitted g' l' true)
      | Continue emitted sleep_time g' l' =>
          _ <- time_sleep sleep_time ;;
          r <- playback_loop fuel' processor udp_socket g' l' ;;
          Ok (Run (emitted ++ sent r) (run_globals r) (run_locals r) (ended r))
      end
  end.



(** [range(a, b)]. *)
Definition zrange (a b : Z) : list Z :=
  map (fun k => (a + Z.of_nat k)%Z) (seq 0 (Z.to_nat (b - a))).

(** ** HTTP routes on the store *)

(** One point of the list [get_path_data] answers with. *)
Record path_point : Type := PathPoint {
  point_index : Z;
  point_lat : R;
  point_lon : R;
  point_alt : R
}.

(** The point [p] is taken from the frame [f]. *)
Definition point_of (p : path_point) (f : frame) : Prop :=
  index f = point_index p /\ point_lat p = VLAT f /\
  point_lon p = VLON f /\ point_alt p = VALT f.

Inductive path_response : Type :=
| PathNotInitialized                                   (* 400 *)
| PathOk (path : list path_point) (start_index end_index : Z).

(** The [for] loop of [get_path_data]: indices without data are skipped. *)
Fixpoint collect_path (dl : data_list) (indices : list Z)
  : result (list path_point) :=
  match indices with
  | [] => Ok []
  | i :: rest =>
      data <- get_data_at_index dl i ;;
      path_data <- collect_path dl rest ;;
      match data with
      | Some d => Ok (PathPoint i (VLAT d) (VLON d) (VALT d) :: path_data)
      | None => Ok path_data
      end
  end.

Definition get_path_data (processor : option data_list)
           (start_index end_index : Z) : result path_response :=
  match processor with
  | None => Ok PathNotInitialized
  | Some dl =>
      let max_range := 10000%Z in
      let end_index :=
        if (max_range <? end_index - start_index)%Z
        then (start_index + max_range)%Z else end_index in
      path_data <-
        collect_path dl
          (zrange start_index (Z.min (end_index + 1) (get_data_count dl))) ;;
      Ok (PathOk path_data start_index
                 (Z.min end_index (get_data_count dl - 1)))
  end.

(** The timestamp markers, [TIMESTAMPS] (seconds). *)
Definition TIMESTAMPS : list (Z * Q) :=
  [ (0%Z, 2643); (1%Z, 2888); (2%Z, 3190); (3%Z, 3242); (4%Z, 3299);
    (5%Z, 3451); (6%Z, 3466); (7%Z, 3495); (8%Z, 3519); (9%Z, 3539);
    (10%Z, 3605); (11%Z, 3712); (12%Z, 4823.02) ].

(** [d[k]] guarded by [k in d]. *)
Fixpoint dict_get (k : Z) (d : list (Z * Q)) : option Q :=
  match d with
  | [] => None
  | (k', v) :: rest => if (k =? k')%Z then Some v else dict_get k rest
  end.

Inductive jump_response : Type :=
| InvalidTimestampId                                   (* 400 *)
| JumpNotInitialized                                   (* 400 *)
| TimestampNotInData                                   (* 404 *)
| Jumped (index : nat) (timestamp : Q).

Inductive data_response : Type :=
| VideoTimeRequired                                    (* 400 *)
| DataNotInitialized                                   (* 400 *)
| NoDataForTimestamp                                   (* 200, success False *)
| DataNotFound                                         (* 404 *)
| DataOk (data : frame) (index : nat) (video_time data_timestamp : Q)
| InternalError (e : exn).                             (* 500 *)

(** The answer of the two time conversion routes: the mapper's value, or
    the offset arithmetic (marked [using_offset]).  A mapper query that
    returns a stored [null] is a [None] like the one of an absent mapping. *)
Inductive time_response : Type :=
| Mapped (v : Mapper.value)
| ByOffset (q : Q).

Section Routes.
(** [pd.to_timedelta(seconds, unit='s').value]: pandas is not part of the
    repository; the conversion (which may raise) is a parameter. *)
Variable to_timedelta_ns : Q -> result Z.

(** The module-level [video_timestamp_mapper] and [YOUTUBE_START_OFFSET]. *)
Variable video_timestamp_mapper : option Mapper.mapper.
Variable YOUTUBE_START_OFFSET : Q.

(** [processor.find_index_for_timestamp(timestamp_seconds)]. *)
Definition find_index_seconds (dl : data_list) (timestamp_seconds : Q)
  : result (option nat) :=
  find_index_for_timestamp to_timedelta_ns dl timestamp_seconds.

Definition jump_to_timestamp (processor : option data_list)
           (timestamp_id : Z) (g : globals) : result (jump_response * globals) :=
  match dict_get timestamp_id TIMESTAMPS with
  | None => Ok (InvalidTimestampId, g)
  | Some target_time =>
      match processor with
      | None => Ok (JumpNotInitialized, g)
      | Some dl =>
          index <- find_index_seconds dl target_time ;;
          match index with
          | None => Ok (TimestampNotInData, g)
          | Some i =>
              Ok (Jumped i target_time,
                  Globals false (Z.of_nat i) (playback_speed g))
          end
      end
  end.

Definition get_video_time (data_timestamp : Q) : result time_response :=
  let fallback := ByOffset (max2 0 (data_timestamp - YOUTUBE_START_OFFSET)) in
  match video_timestamp_mapper with
  | Some mp =>
      if Mapper.is_available mp then
        video_time <- Mapper.data_to_video_time mp data_timestamp ;;
        match video_time with
        | None | Some Mapper.VNone => Ok fallback
        | Some v => Ok (Mapped v)
        end
      else Ok fallback
  | None => Ok fallback
  end.

Definition get_data_timestamp (video_time : Q) : result time_response :=
  let fallback := ByOffset (video_time + YOUTUBE_START_OFFSET) in
  match video_timestamp_mapper with
  | Some mp =>
      if Mapper.is_available mp then
        data_timestamp <- Mapper.video_to_data_time mp video_time ;;
        match data_timestamp with
        | None | Some Mapper.VNone => Ok fallback
        | Some v => Ok (Mapped v)
        end
      else Ok fallback
  | None => Ok fallback
  end.

(** The body of the [try] block of [get_data_for_video_time];
    [path_video_time] is the path parameter and [query_video_time] the
    query argument, each possibly absent. *)
Definition data_for_video_time_body (processor : option data_list)
           (path_video_time query_video_time : option Q)
  : result data_response :=
  match (match path_video_time with
         | Some v => Some v
         | None => query_video_time
         end) with
  | None => Ok VideoTimeRequired
  | Some video_time =>
      match processor with
      | None => Ok DataNotInitialized
      | Some dl =>
          mapped <-
            match video_timestamp_mapper with
            | Some mp =>
                if Mapper.is_available mp
                then Mapper.video_to_data_time mp video_time
                else Ok None
            | None => Ok None
            end ;;
          data_timestamp <-
            match mapped with
            | None | Some Mapper.VNone =>
                Ok (video_time + YOUTUBE_START_OFFSET)
            | Some (Mapper.VNum q) => Ok q
            (* a string: with a store the conversion refuses it (a unit is
               given), without one the [:.2f] of the answer does *)
            | Some (Mapper.VStr _) => Raise ValueError
            end ;;
          index <- find_index_seconds dl data_timestamp ;;
          match index with
          | None => Ok NoDataForTimestamp
          | Some i =>
              data <- get_data_at_index dl (Z.of_nat i) ;;
              match data with
              | None => Ok DataNotFound
              | Some d => Ok (DataOk d i video_time data_timestamp)
              end
          end
      end
  end.

(** [get_data_for_video_time]: any exception becomes a 500 answer. *)
Definition get_data_for_video_time (processor : option data_list)
           (path_video_time query_video_time : option Q) : data_response :=
  match data_for_video_time_body processor path_video_time query_video_time with
  | Ok r => r
  | Raise e => InternalError e
  end.

End Routes.

(** ** The frame route *)

Inductive frame_response : Type :=
| NoFramesAvailable                                    (* 404 *)
| SendFrame (frame_filename : string)
| FrameNotFound.                                       (* 404 *)

(** Frame timestamps are floats; comparing two of them never raises. *)
Definition float_lt (a b : Q) : result bool := Ok (Mapper.Qltb a b).

Section Frames.
(** [timestamp - before] and [after - timestamp] are float subtractions:
    each difference is rounded before the two are compared.  [fsub] is the
    rounded difference of two floats. *)
Variable fsub : Q -> Q -> Q.

(** The search of [get_frame] for the frame nearest to [timestamp]. *)
Definition nearest_frame (frames_ts_ns : list Q) (timestamp : Q)
  : result nat :=
  pos <- bisect_left float_lt frames_ts_ns timestamp ;;
  if (pos =? 0)%nat then Ok 0%nat
  else if (pos =? length frames_ts_ns)%nat
       then Ok (length frames_ts_ns - 1)%nat
  else
    before <- Mapper.item frames_ts_ns (pos - 1) ;;
    after <- Mapper.item frames_ts_ns pos ;;
    if Qle_bool (fsub timestamp before) (fsub after timestamp)
    then Ok (pos - 1)%nat else Ok pos.

(** [get_frame]; [frames_info] is the module-level list of
    [(timestamp, filename)] pairs and [frame_exists] tells whether the file
    of that name is in the frames directory. *)
Definition get_frame (frames_info : list (Q * string))
           (frame_exists : string -> bool) (timestamp : Q)
  : result frame_response :=
  match frames_info with
  | [] => Ok NoFramesAvailable
  | _ :: _ =>
      let frames_ts_ns := map fst frames_info in
      let frames_fnames := map snd frames_info in
      nearest_idx <- nearest_frame frames_ts_ns timestamp ;;
      frame_filename <- Mapper.item frames_fnames nearest_idx ;;
      if frame_exists frame_filename then Ok (SendFrame frame_filename)
      else Ok FrameNotFound
  end.
End Frames.

(** ** The choice of the mapping file (module level)

    Each argument is what the file at that place holds, [None] when there
    is no such file: the YouTube mapping and the original mapping, each
    looked for in the webdisplay directory first and in the project root
    second. *)
Definition choose_file (webdisplay root : option Mapper.source)
  : option Mapper.source :=
  match webdisplay with
  | Some f => Some f
  | None => root
  end.

(** [video_timestamp_mapper is None or not video_timestamp_mapper.is_available()]. *)
Definition unusable (m : option Mapper.mapper) : bool :=
  match m with
  | None => true
  | Some mp => negb (Mapper.is_available mp)
  end.

Definition select_mapper
           (youtube_webdisplay youtube_root : option Mapper.source)
           (original_webdisplay original_root : option Mapper.source)
  : option Mapper.mapper :=
  let video_timestamp_mapper :=
    match choose_file youtube_webdisplay youtube_root with
    | Some youtube_map_file => Some (Mapper.new youtube_map_file)
    | None => None
    end in
  if unusable video_timestamp_mapper then
    match choose_file original_webdisplay original_root with
    | Some timestamp_map_file => Some (Mapper.new timestamp_map_file)
    | None => video_timestamp_mapper
    end
  else video_timestamp_mapper.

(** ** The initialisation route *)

Record bounds : Type := Bounds {
  min_lat : R;
  max_lat : R;
  min_lon : R;
  max_lon : R
}.

(** The [youtube] entry of the answer. *)
Record youtube_info : Type := YoutubeInfo {
  enabled : bool;
  video_id : string;
  start_offset : Q;
  has_timestamp_map : bool;
  timestamp_map : option (list (Mapper.value * Mapper.value))
}.

(** The answer of [init]; of [summary] the sample count is kept. *)
Record init_answer : Type := InitAnswer {
  summary_data_count : Z;
  init_bounds : option bounds;
  complete_path : list path_point;
  complete_altitudes : list R;
  complete_attitudes : attitudes;
  takeoff_index : nat;
  youtube : option youtube_info
}.

Inductive init_response : Type :=
| InitOk (answer : init_answer)
| InitFailed (e : exn).                                (* 500 *)

(** [min] and [max] of a list of floats. *)
Definition list_min (l : list R) : result R :=
  match l with
  | [] => Raise ValueError
  | x :: rest => Ok (fold_left Rmin rest x)
  end.

Definition list_max (l : list R) : result R :=
  match l with
  | [] => Raise ValueError
  | x :: rest => Ok (fold_left Rmax rest x)
  end.

(** [enumerate(zip(all_lats, all_lons, all_alts))], from index [i] on. *)
Fixpoint enumerate_path (i : Z) (all_lats all_lons all_alts : list R)
  : list path_point :=
  match all_lats, all_lons, all_alts with
  | lat :: la, lon :: lo, alt :: al =>
      PathPoint i lat lon alt :: enumerate_path (i + 1) la lo al
  | _, _, _ => []
  end.

Section Init.
Variable to_timedelta_ns : Q -> result Z.
Variable as_euler : Rotation.quat -> R * R * R.
Variable video_timestamp_mapper : option Mapper.mapper.
Variable YOUTUBE_START_OFFSET : Q.
Variable YOUTUBE_VIDEO_ID : string.

(** The [youtube] entry: [None] when no video is configured. *)
Definition youtube_entry : option youtube_info :=
  if String.eqb YOUTUBE_VIDEO_ID EmptyString then None
  else
    Some {|
      enabled := negb (String.eqb YOUTUBE_VIDEO_ID EmptyString);
      video_id := YOUTUBE_VIDEO_ID;
      start_offset := YOUTUBE_START_OFFSET;
      has_timestamp_map :=
        match video_timestamp_mapper with
        | Some mp => Mapper.is_available mp
        | None => false
        end;
      timestamp_map :=
        match video_timestamp_mapper with
        | Some mp =>
            if Mapper.is_available mp
            then Some (firstn 2000 (Mapper.timestamps mp))
            else None
        | None => None
        end
    |}.

(** The [try] block of [init] once the processor is built. *)
Definition init_body (dl : data_list) : result init_answer :=
  let summary := get_data_count dl in
  if (0 <? get_data_count dl)%Z then
    first_data <- get_data_at_index dl 0 ;;
    last_data <- get_data_at_index dl (get_data_count dl - 1) ;;
    let takeoff_timestamp :=
      match dict_get 0 TIMESTAMPS with Some v => v | None => 2643 end in
    found <- find_index_seconds to_timedelta_ns dl takeoff_timestamp ;;
    let takeoff_index := match found with Some i => i | None => 0%nat end in
    let path_data := get_all_path_data dl in
    let all_lats := lats path_data in
    let all_lons := lons path_data in
    let all_alts := alts path_data in
    attitude_data <- get_all_attitude_data as_euler dl ;;
    match all_lats, all_lons with
    | _ :: _, _ :: _ =>
        lat_lo <- list_min all_lats ;;
        lat_hi <- list_max all_lats ;;
        lon_lo <- list_min all_lons ;;
        lon_hi <- list_max all_lons ;;
        Ok (InitAnswer summary (Some (Bounds lat_lo lat_hi lon_lo lon_hi))
              (enumerate_path 0 all_lats all_lons all_alts) all_alts
              attitude_data takeoff_index youtube_entry)
    | _, _ =>
        Ok (InitAnswer summary None [] [] attitude_data takeoff_index
              youtube_entry)
    end
  else
    Ok (InitAnswer summary None [] [] (Attitudes [] [] []) 0%nat youtube_entry).

(** [init]: [load] is [FlightDataProcessor(DATA_FILE)], which reads the file
    with pandas; the second component is the module-level [processor]
    afterwards. *)
Definition init (load : result data_list) (processor : option data_list)
  : init_response * option data_list :=
  match load with
  | Raise e => (InitFailed e, processor)
  | Ok dl =>
      match init_body dl with
      | Ok answer => (InitOk answer, Some dl)
      | Raise e => (InitFailed e, Some dl)
      end
  end.
End Init.

(** ** The static file route *)

(** What can be raised inside [serve_static_files]: [abort(code)] raises an
    [HTTPException], which is an [Exception]; a [PermissionError] is an
    [OSError]. *)
Inductive static_exn : Type :=
| HTTPException (code : Z)
| PermissionError
| OtherOSError
| PathValueError
| OtherException.

Inductive attempt (A : Type) : Type :=
| Done (a : A)
| Failed (e : static_exn).
Arguments Done {A} a.
Arguments Failed {A} e.

Definition and_then {A B : Type} (m : attempt A) (k : A -> attempt B)
  : attempt B :=
  match m with
  | Done a => k a
  | Failed e => Failed e
  end.

(** The frontend directory as the route sees it. *)
Record frontend : Type := Frontend {
  resolve_file : string -> attempt string;  (* [str((FRONTEND_DIR / path).resolve())] *)
  resolve_frontend : attempt string;        (* [str(FRONTEND_DIR.resolve())] *)
  path_exists : string -> attempt bool;     (* [(FRONTEND_DIR / path).exists()] *)
  path_is_file : string -> attempt bool;    (* [(FRONTEND_DIR / path).is_file()] *)
  send_from_directory : string -> attempt unit;
  case_insensitive : bool;  (* [os.name == "nt" or sys.platform == "darwin"] *)
  lower : string -> string                  (* [str.lower] *)
}.

Inductive static_response : Type :=
| SendFile (path : string)
| Abort (code : Z).

(** [pattern in s]. *)
Fixpoint contains (pattern s : string) : bool :=
  String.prefix pattern s ||
  match s with
  | EmptyString => false
  | String _ rest => contains pattern rest
  end.

(** The inner [try]: the resolved file has to start with the resolved
    frontend directory; a [ValueError] or an [OSError] is passed over. *)
Definition directory_check (fs : frontend) (path : string) : attempt unit :=
  match
    and_then (resolve_file fs path) (fun resolved_file_str =>
    and_then (resolve_frontend fs) (fun resolved_frontend_str =>
      let file_in_dir :=
        if case_insensitive fs
        then String.prefix (lower fs resolved_frontend_str)
                           (lower fs resolved_file_str)
        else String.prefix resolved_frontend_str resolved_file_str in
      if negb file_in_dir then Failed (HTTPException 403) else Done tt))
  with
  | Failed PathValueError | Failed PermissionError | Failed OtherOSError =>
      Done tt
  | r => r
  end.

(** The outer [try] block. *)
Definition static_body (fs : frontend) (path : string)
  : attempt static_response :=
  if contains ".." path then Failed (HTTPException 403)
  else
    and_then (directory_check fs path) (fun _ =>
    and_then (path_exists fs path) (fun e =>
    and_then (if (e : bool) then path_is_file fs path else Done false)
             (fun servable =>
      if (servable : bool) then
        and_then (send_from_directory fs path) (fun _ => Done (SendFile path))
      else Failed (HTTPException 404)))).

(** [serve_static_files]: a [PermissionError] of the block answers 403, any
    other exception of the block, its own [abort]s included, answers 404. *)
Definition serve_static_files (fs : frontend) (path : string)
  : static_response :=
  if String.prefix "api/" path || String.prefix "godot/" path then Abort 404
  else
    match static_body fs path with
    | Done r => r
    | Failed PermissionError => Abort 403
    | Failed _ => Abort 404
    end.

End App.

(* ================================================================== *)
(** * verify_setup.py : the deployment check *)
(* ================================================================== *)

Module VerifySetup.

(** [check_file]: whether the path exists ([file_exists] is the file
    system). *)
Definition check_file (file_exists : string -> bool) (path : string) : bool :=
  file_exists path.

(** The paths checked with [required=True], in order. *)
Definition required_files : list string :=
  [ "merged_data.csv"; "requirements.txt"; "start_server.py";
    "backend/app.py"; "backend/data_processor.py";
    "backend/video_timestamp_mapper.py"; "frontend/index.html";
    "frontend/css/styles.css"; "frontend/godot/Display.html" ]%string.

(** The paths checked with [required=False]. *)
Definition optional_files : list string :=
  [ "youtube_timestamps.json"; "video_timestamps.json"; ".env";
    "Procfile"; "render.yaml"; "runtime.txt"; "env.example" ]%string.

(** Package name and import name. *)
Definition packages : list (string * string) :=
  [ ("flask", "flask"); ("flask-cors", "flask_cors");
    ("flask-socketio", "flask_socketio"); ("pandas", "pandas");
    ("scipy", "scipy"); ("python-socketio", "socketio");
    ("python-dotenv", "dotenv") ]%string.

(** [main]: the exit code.  [importable] tells whether [__import__] of a
    name succeeds (rather than raising [ImportError]). *)
Definition main (file_exists : string -> bool) (importable : string -> bool)
  : Z :=
  let all_good := true in
  let all_good :=
    fold_left (fun acc path => andb acc (check_file file_exists path))
              required_files all_good in
  let _ := map (check_file file_exists) optional_files in
  let all_good :=
    fold_left (fun acc pkg => if importable (snd pkg) then acc else false)
              packages all_good in
  if all_good then 0%Z else 1%Z.

End VerifySetup.

(* ================================================================== *)
(** * Facts about the Python primitives *)
(* ================================================================== *)

Module PyFacts.

Lemma midpoint_bounds (lo hi : nat) :
  lo < hi -> lo <= (lo + hi) / 2 < hi.
Proof.
  intros Hlt.
  pose proof (Nat.div_mod_eq (lo + hi) 2) as Hdm.
  pose proof (Nat.mod_upper_bound (lo + hi) 2) as Hm.
  lia.
Qed.

Section BisectFacts.
Context {A : Type}.
Variable lt : A -> A -> result bool.

(** If position [k] splits [a] into elements below [x] and elements not
    below [x], the loop started on any window around [k] returns [k]. *)
Lemma bisect_loop_partition (a : list A) (x : A) (k : nat) :
  (forall i am, i < k -> nth_error a i = Some am -> lt am x = Ok true) ->
  (forall i am, k <= i -> nth_error a i = Some am -> lt am x = Ok false) ->
  forall fuel lo hi,
    hi - lo <= fuel -> lo <= k <= hi -> hi <= length a ->
    bisect_loop lt fuel a x lo hi = Ok k.
Proof.
  intros Hbelow Habove.
  induction fuel as [|fuel IH]; intros lo hi Hfuel Hk Hlen; cbn [bisect_loop].
  - destruct (Nat.ltb_spec lo hi); [lia | f_equal; lia].
  - destruct (Nat.ltb_spec lo hi) as [Hlt|Hge]; [| f_equal; lia].
    pose proof (midpoint_bounds lo hi Hlt) as Hmid.
    destruct (nth_error a ((lo + hi) / 2)) as [am|] eqn:Hnth.
    + destruct (Nat.lt_ge_cases ((lo + hi) / 2) k) as [Hmk|Hmk].
      * rewrite (Hbelow _ _ Hmk Hnth); cbn [bind]. apply IH; lia.
      * rewrite (Habove _ _ Hmk Hnth); cbn [bind]. apply IH; lia.
    + apply nth_error_None in Hnth. lia.
Qed.

(** Without any order on [a], the loop still ends inside its window as
    long as the comparisons themselves do not raise. *)
Lemma bisect_loop_range (a : list A) (x : A) :
  (forall am, In am a -> exists b, lt am x = Ok b) ->
  forall fuel lo hi,
    lo <= hi -> hi <= length a ->
    exists r, bisect_loop lt fuel a x lo hi = Ok r /\ lo <= r <= hi.
Proof.
  intros Htot.
  induction fuel as [|fuel IH]; intros lo hi Hle Hlen; cbn [bisect_loop].
  - destruct (lo <? hi); exists lo; split; auto; lia.
  - destruct (Nat.ltb_spec lo hi) as [Hlt|Hge]; [| exists lo; split; auto; lia].
    pose proof (midpoint_bounds lo hi Hlt) as Hmid.
    destruct (nth_error a ((lo + hi) / 2)) as [am|] eqn:Hnth.
    + destruct (Htot am (nth_error_In _ _ Hnth)) as [b Hb].
      rewrite Hb; cbn [bind]. destruct b.
      * destruct (IH ((lo + hi) / 2 + 1) hi) as (r & Hr & Hb'); try lia.
        exists r; split; auto; lia.
      * destruct (IH lo ((lo + hi) / 2)) as (r & Hr & Hb'); try lia.
        exists r; split; auto; lia.
    + apply nth_error_None in Hnth. lia.
Qed.

(** The fuel [bisect_left] supplies is enough: with [hi - lo] iterations
    available the loop never reaches its fuel guard, so more fuel does
    not change the outcome. *)
Lemma bisect_loop_fuel (a : list A) (x : A) :
  forall fuel fuel' lo hi,
    hi - lo <= fuel -> hi - lo <= fuel' -> hi <= length a ->
    bisect_loop lt fuel a x lo hi = bisect_loop lt fuel' a x lo hi.
Proof.
  induction fuel as [|fuel IH]; intros fuel' lo hi H1 H2 Hlen.
  - destruct fuel'; cbn [bisect_loop]; destruct (Nat.ltb_spec lo hi); auto; lia.
  - destruct fuel' as [|fuel']; cbn [bisect_loop].
    + destruct (Nat.ltb_spec lo hi); auto; lia.
    + destruct (Nat.ltb_spec lo hi) as [Hlt|Hge]; auto.
      pose proof (midpoint_bounds lo hi Hlt) as Hmid.
      destruct (nth_error a ((lo + hi) / 2)); auto.
      destruct (lt a0 x) as [[|]|]; cbn [bind]; auto; apply IH; lia.
Qed.
End BisectFacts.

(** ** Partition point of a list along a downward-closed predicate *)
Section PartitionPoint.
Context {A : Type}.
Variable p : A -> bool.

Lemma down_closed_tail (y : A) (a : list A) :
  down_closed p (y :: a) -> down_closed p a.
Proof.
  intros H i j u v Hij Hi Hj Hv.
  apply (H (S i) (S j) u v); auto; lia.
Qed.

Lemma partition_point_le (a : list A) : partition_point p a <= length a.
Proof. apply filter_length_le. Qed.

Lemma partition_point_below (a : list A) :
  down_closed p a ->
  forall i y, i < partition_point p a -> nth_error a i = Some y -> p y = true.
Proof.
  unfold partition_point.
  induction a as [|h a IH]; intros Hdc i y Hi Hy; simpl in *; [lia|].
  destruct (p h) eqn:Hh; simpl in *.
  - destruct i as [|i]; simpl in Hy.
    + congruence.
    + apply (IH (down_closed_tail _ _ Hdc) i); auto; lia.
  - destruct (filter p a) as [|z l] eqn:Hf; simpl in Hi; [lia|].
    assert (Hz : In z (filter p a)) by (rewrite Hf; left; reflexivity).
    apply filter_In in Hz. destruct Hz as [Hin Hpz].
    destruct (In_nth_error _ _ Hin) as [n Hn].
    assert (p h = true) by (apply (Hdc 0 (S n) h z); auto; lia).
    congruence.
Qed.

Lemma partition_point_above (a : list A) :
  down_closed p a ->
  forall i y, partition_point p a <= i -> nth_error a i = Some y -> p y = false.
Proof.
  unfold partition_point.
  induction a as [|h a IH]; intros Hdc i y Hi Hy; simpl in *.
  - destruct i; discriminate.
  - destruct (p h) eqn:Hh; simpl in *.
    + destruct i as [|i]; [lia|]. simpl in Hy.
      apply (IH (down_closed_tail _ _ Hdc) i); auto; lia.
    + destruct i as [|i]; simpl in Hy; [congruence|].
      destruct (p y) eqn:Hpy; auto.
      assert (p h = true) by (apply (Hdc 0 (S i) h y); auto; lia).
      congruence.
Qed.
End PartitionPoint.

End PyFacts.

(* ================================================================== *)
(** * Rotations: normalisation and composition *)
(* ================================================================== *)

Module RotationFacts.
Import Rotation.
Local Open Scope R_scope.

Lemma sq_norm_nonneg (q : quat) : 0 <= sq_norm q.
Proof. unfold sq_norm. Lra.nra. Qed.

Lemma norm_sqrt (q : quat) : norm q = sqrt (sq_norm q).
Proof. reflexivity. Qed.

Lemma norm_square (q : quat) : norm q * norm q = sq_norm q.
Proof. rewrite norm_sqrt. apply sqrt_sqrt, sq_norm_nonneg. Qed.

Lemma quat_ext (p q : quat) :
  qx p = qx q -> qy p = qy q -> qz p = qz q -> qw p = qw q -> p = q.
Proof. destruct p, q; simpl; intros; subst; reflexivity. Qed.

Lemma scale_one (q : quat) : scale 1 q = q.
Proof. apply quat_ext; simpl; field. Qed.

(** Euler's four-square identity: the squared norm is multiplicative. *)
Lemma sq_norm_compose (p q : quat) :
  sq_norm (compose_quat p q) = sq_norm p * sq_norm q.
Proof. unfold sq_norm, compose_quat; simpl. ring. Qed.

Lemma norm_compose (p q : quat) :
  norm (compose_quat p q) = norm p * norm q.
Proof.
  rewrite !norm_sqrt, sq_norm_compose.
  apply sqrt_mult; apply sq_norm_nonneg.
Qed.

Lemma sq_norm_scale (k : R) (q : quat) :
  k <> 0 -> sq_norm (scale k q) = sq_norm q / (k * k).
Proof. intros Hk. unfold sq_norm, scale; simpl. field. exact Hk. Qed.

(** What [from_quat] accepts it turns into a unit quaternion. *)
Lemma from_quat_ok (q : quat) :
  norm q <> 0 -> from_quat q = Ok (scale (norm q) q).
Proof.
  intros Hq. unfold from_quat.
  destruct (Req_EM_T (norm q) 0); [contradiction | reflexivity].
Qed.

Lemma norm_scale_norm (q : quat) : norm q <> 0 -> norm (scale (norm q) q) = 1.
Proof.
  intros Hq. rewrite norm_sqrt, sq_norm_scale by assumption.
  rewrite norm_square.
  replace (sq_norm q / sq_norm q) with 1.
  - apply sqrt_1.
  - field. rewrite <- norm_square. intros H.
    apply Rmult_integral in H. tauto.
Qed.

Lemma from_quat_unit (q : quat) : norm q = 1 -> from_quat q = Ok q.
Proof.
  intros Hq. rewrite from_quat_ok  by Lra.lra.
  rewrite Hq, scale_one. reflexivity.
Qed.

(** On unit quaternions the product of rotations is the Hamilton product:
    the second normalisation changes nothing. *)
Lemma mul_unit (p q : quat) :
  norm p = 1 -> norm q = 1 -> mul p q = Ok (compose_quat p q).
Proof.
  intros Hp Hq. unfold mul. apply from_quat_unit.
  rewrite norm_compose, Hp, Hq. ring.
Qed.

Lemma norm_identity : norm identity = 1.
Proof.
  rewrite norm_sqrt. unfold sq_norm, identity; simpl.
  replace (0 * 0 + 0 * 0 + 0 * 0 + 1 * 1) with 1 by ring.
  apply sqrt_1.
Qed.

Lemma from_quat_identity : from_quat identity = Ok identity.
Proof. apply from_quat_unit, norm_identity. Qed.

Lemma compose_identity_r (q : quat) : compose_quat q identity = q.
Proof. apply quat_ext; simpl; ring. Qed.

Lemma vec_ext (u v : vec) :
  vx u = vx v -> vy u = vy v -> vz u = vz v -> u = v.
Proof. destruct u, v; simpl; intros; subst; reflexivity. Qed.

(** Composition of rotations: carrying a vector through [q] and then
    through [p] is carrying it through [p (x) q]. *)
Lemma compose_assoc (a b c : quat) :
  compose_quat (compose_quat a b) c = compose_quat a (compose_quat b c).
Proof. apply quat_ext; simpl; ring. Qed.

Lemma conj_compose (p q : quat) :
  conj (compose_quat p q) = compose_quat (conj q) (conj p).
Proof. apply quat_ext; simpl; ring. Qed.

(** Conjugating a pure quaternion gives a pure quaternion. *)
Lemma sandwich_pure (q : quat) (v : vec) :
  compose_quat (compose_quat q (pure v)) (conj q) = pure (apply q v).
Proof. apply quat_ext; simpl; try reflexivity; ring. Qed.

Lemma pure_inj (u v : vec) : pure u = pure v -> u = v.
Proof. intros H. apply vec_ext; injection H; auto. Qed.

Lemma apply_compose (p q : quat) (v : vec) :
  apply (compose_quat p q) v = apply p (apply q v).
Proof.
  apply pure_inj.
  rewrite <- !sandwich_pure, conj_compose, !compose_assoc.
  reflexivity.
Qed.

End RotationFacts.

(* ================================================================== *)
(** * The timestamp index: nearest-sample lookup *)
(* ================================================================== *)

Module DataProcessorFacts.
Import DataProcessor PyFacts.

Lemma sorted_nth_le (ts : list Z) :
  Sorted Z.le ts ->
  forall i j y z, i <= j ->
    nth_error ts i = Some y -> nth_error ts j = Some z -> (y <= z)%Z.
Proof.
  intros Hs. apply Sorted_StronglySorted in Hs; [| exact Z.le_trans].
  induction Hs as [|h ts Hs IH Hall]; intros i j y z Hij Hi Hj.
  - destruct i; discriminate.
  - destruct i as [|i], j as [|j]; simpl in *; try lia.
    + injection Hi as <-; injection Hj as <-; lia.
    + injection Hi as <-. rewrite Forall_forall in Hall.
      apply Hall. eapply nth_error_In; eauto.
    + apply (IH i j); auto; lia.
Qed.

Lemma sorted_down_closed (ts : list Z) (t : Z) :
  Sorted Z.le ts -> down_closed (fun y => (y <? t)%Z) ts.
Proof.
  intros Hs i j y z Hij Hi Hj Hz.
  pose proof (sorted_nth_le ts Hs i j y z Hij Hi Hj).
  apply Z.ltb_lt in Hz. apply Z.ltb_lt. lia.
Qed.

(** On an ascending list [bisect_left] returns the number of entries
    strictly below the target. *)
Lemma bisect_left_sorted (ts : list Z) (t : Z) :
  Sorted Z.le ts ->
  bisect_left int_lt ts t = Ok (partition_point (fun y => (y <? t)%Z) ts).
Proof.
  intros Hs. unfold bisect_left.
  pose proof (partition_point_le (fun y => (y <? t)%Z) ts).
  apply bisect_loop_partition; try lia.
  - intros i am Hi Hnth. unfold int_lt. f_equal.
    exact (partition_point_below (fun y => (y <? t)%Z) ts (sorted_down_closed ts t Hs) i am Hi Hnth).
  - intros i am Hi Hnth. unfold int_lt. f_equal.
    exact (partition_point_above (fun y => (y <? t)%Z) ts (sorted_down_closed ts t Hs) i am Hi Hnth).
Qed.

(** The first position of [ts] holding a value that is not below [t]. *)
Lemma insertion_point_exists (ts : list Z) (t : Z) :
  Sorted Z.le ts ->
  exists k, k <= length ts /\
    (forall i y, i < k -> nth_error ts i = Some y -> (y < t)%Z) /\
    (forall i y, k <= i -> nth_error ts i = Some y -> (t <= y)%Z) /\
    bisect_left int_lt ts t = Ok k.
Proof.
  intros Hs. exists (partition_point (fun y => (y <? t)%Z) ts).
  pose proof (sorted_down_closed ts t Hs) as Hdc.
  repeat split.
  - apply partition_point_le.
  - intros i y Hi Hy. apply Z.ltb_lt.
    exact (partition_point_below (fun y => (y <? t)%Z) ts Hdc i y Hi Hy).
  - intros i y Hi Hy. apply Z.ltb_ge.
    exact (partition_point_above (fun y => (y <? t)%Z) ts Hdc i y Hi Hy).
  - apply bisect_left_sorted; assumption.
Qed.

(** The outcome of the lookup once the insertion point is known. *)
Lemma find_index_from_insertion_point (dl : data_list) (t : Z) (k : nat) :
  dl <> [] ->
  bisect_left int_lt (timestamp_ns_list_of dl) t = Ok k ->
  find_index_from_ns dl t =
    let ts := timestamp_ns_list_of dl in
    if (k =? 0)%nat then Ok (Some 0)
    else if (length ts <=? k)%nat then Ok (Some (length ts - 1))
    else match nth_error ts (k - 1), nth_error ts k with
         | Some p, Some n =>
             if (abs_diff p t <? abs_diff n t)%Z then Ok (Some (k - 1))
             else Ok (Some k)
         | _, _ => Raise IndexError
         end.
Proof.
  intros Hne Hb. unfold find_index_from_ns.
  destruct dl as [|h dl']; [congruence|].
  cbv zeta. rewrite Hb. reflexivity.
Qed.

Lemma stamps_nonempty (dl : data_list) (i : nat) (t : Z) :
  nth_error (timestamp_ns_list_of dl) i = Some t -> dl <> [].
Proof. intros H ->. destruct i; discriminate. Qed.

(** The method on a store with samples: the target is converted, then
    searched. *)
Lemma find_index_converted (to_timedelta : Q -> result Z) (dl : data_list)
      (seconds : Q) (t : Z) :
  dl <> [] -> to_timedelta seconds = Ok t ->
  find_index_for_timestamp to_timedelta dl seconds = find_index_from_ns dl t.
Proof.
  intros Hne Ht. unfold find_index_for_timestamp.
  destruct dl; [congruence|]. rewrite Ht. reflexivity.
Qed.

Lemma find_index_refused (to_timedelta : Q -> result Z) (dl : data_list)
      (seconds : Q) (e : exn) :
  dl <> [] -> to_timedelta seconds = Raise e ->
  find_index_for_timestamp to_timedelta dl seconds = Raise e.
Proof.
  intros Hne Ht. unfold find_index_for_timestamp.
  destruct dl; [congruence|]. rewrite Ht. reflexivity.
Qed.

(** The search for a nanosecond value that a sample holds, on an ascending
    store. *)
Lemma exact_hit_from_ns (dl : data_list) (i : nat) (t : Z) :
  Sorted Z.le (timestamp_ns_list_of dl) ->
  nth_error (timestamp_ns_list_of dl) i = Some t ->
  exists j,
    find_index_from_ns dl t = Ok (Some j) /\
    j <= i /\ nth_error (timestamp_ns_list_of dl) j = Some t /\
    (forall k y, k < j ->
       nth_error (timestamp_ns_list_of dl) k = Some y -> (y < t)%Z) /\
    ((forall k, k < i -> nth_error (timestamp_ns_list_of dl) k <> Some t) ->
     j = i).
Proof.
  intros Hs Hi.
  pose proof (stamps_nonempty dl i t Hi) as Hne.
  set (ts := timestamp_ns_list_of dl) in *.
  destruct (insertion_point_exists ts t Hs) as (k & Hk & Hlo & Hhi & Hb).
  assert (Hilen : i < length ts) by (apply nth_error_Some; congruence).
  assert (Hki : k <= i).
  { destruct (Nat.le_gt_cases k i) as [|Hgt]; auto.
    specialize (Hlo i t Hgt Hi). lia. }
  destruct (nth_error ts k) as [n|] eqn:Hn;
    [| apply nth_error_None in Hn; lia].
  assert (Hnt : n = t).
  { pose proof (Hhi k n (Nat.le_refl k) Hn).
    pose proof (sorted_nth_le ts Hs k i n t Hki Hn Hi). lia. }
  subst n.
  exists k. rewrite (find_index_from_insertion_point dl t k Hne Hb).
  cbv zeta. fold ts.
  repeat split; auto.
  - destruct (Nat.eqb_spec k 0) as [->|Hk0]; [reflexivity|].
    destruct (Nat.leb_spec (length ts) k); [lia|].
    destruct (nth_error ts (k - 1)) as [p|] eqn:Hp;
      [| apply nth_error_None in Hp; lia].
    rewrite Hn.
    assert (p < t)%Z by (apply (Hlo (k - 1) p); auto; lia).
    unfold abs_diff.
    destruct (Z.ltb_spec (Z.abs (p - t)) (Z.abs (t - t))); [lia | reflexivity].
  - intros Hfirst.
    destruct (Nat.eq_dec k i) as [|Hneq]; auto.
    exfalso. apply (Hfirst k); [lia | assumption].
Qed.

(** The search for a nanosecond value half way between two consecutive
    samples. *)
Lemma tie_later_from_ns (dl : data_list) (i : nat) (a b t : Z) :
  Sorted Z.le (timestamp_ns_list_of dl) ->
  nth_error (timestamp_ns_list_of dl) i = Some a ->
  nth_error (timestamp_ns_list_of dl) (S i) = Some b ->
  (a < b)%Z ->
  (t - a = b - t)%Z ->
  find_index_from_ns dl t = Ok (Some (S i)).
Proof.
  intros Hs Ha Hb Hab Heq.
  pose proof (stamps_nonempty dl i a Ha) as Hne.
  set (ts := timestamp_ns_list_of dl) in *.
  destruct (insertion_point_exists ts t Hs) as (k & Hk & Hlo & Hhi & Hbis).
  assert (HSi : S i < length ts) by (apply nth_error_Some; congruence).
  assert (k = S i) as ->.
  { destruct (Nat.lt_trichotomy k (S i)) as [Hlt|[Heq'|Hgt]]; auto.
    - assert (k <= i) as Hle by lia.
      specialize (Hhi i a Hle Ha). lia.
    - specialize (Hlo (S i) b Hgt Hb). lia. }
  rewrite (find_index_from_insertion_point dl t (S i) Hne Hbis).
  cbv zeta. fold ts. cbn [Nat.eqb].
  destruct (Nat.leb_spec (length ts) (S i)); [lia|].
  replace (S i - 1) with i by lia.
  rewrite Ha, Hb. unfold abs_diff.
  destruct (Z.ltb_spec (Z.abs (a - t)) (Z.abs (b - t))); [lia | reflexivity].
Qed.

(** The search never raises and stays inside the store. *)
Lemma from_ns_total (dl : data_list) (t : Z) :
  exists r,
    find_index_from_ns dl t = Ok r /\
    (r = None <-> dl = []) /\
    (forall i, r = Some i -> i < length dl).
Proof.
  destruct dl as [|h dl'] eqn:Hdl.
  - exists None. repeat split; auto. discriminate.
  - rewrite <- Hdl.
    assert (Hne : dl <> []) by (subst; discriminate).
    set (ts := timestamp_ns_list_of dl).
    assert (Hlts : length ts = length dl) by apply length_map.
    assert (Hlen : 0 < length ts) by (rewrite Hlts; subst; simpl; lia).
    destruct (bisect_loop_range int_lt ts t
                (fun am _ => ex_intro _ (am <? t)%Z eq_refl)
                (length ts) 0 (length ts)) as (k & Hk & Hrange); try lia.
    fold (bisect_left int_lt ts t) in Hk.
    rewrite (find_index_from_insertion_point dl t k Hne Hk).
    cbv zeta. fold ts.
    assert (Hres : forall i, i < length ts ->
              exists r, Ok (Some i) = Ok r /\ (r = None <-> dl = []) /\
                        (forall i0, r = Some i0 -> i0 < length dl)).
    { intros i Hi. exists (Some i).
      split; [reflexivity|]. split; [split; congruence|].
      intros i0 [= <-]. lia. }
    destruct (Nat.eqb_spec k 0); [apply Hres; lia|].
    destruct (Nat.leb_spec (length ts) k); [apply Hres; lia|].
    destruct (nth_error ts (k - 1)) as [p|] eqn:Hp;
      [| apply nth_error_None in Hp; lia].
    destruct (nth_error ts k) as [n'|] eqn:Hn;
      [| apply nth_error_None in Hn; lia].
    destruct (abs_diff p t <? abs_diff n' t)%Z; apply Hres; lia.
Qed.

(** C5 (as amended).  On an ascending store, a target that the conversion
    turns into exactly the nanosecond timestamp of sample [i] is answered
    with the first index [j <= i] that holds this same timestamp: every
    earlier sample is strictly older.  It is [i] itself whenever no earlier
    sample shares the timestamp. *)
Theorem find_index_exact_hit (to_timedelta : Q -> result Z)
        (dl : data_list) (i : nat) (seconds : Q) (t : Z) :
  Sorted Z.le (timestamp_ns_list_of dl) ->
  nth_error (timestamp_ns_list_of dl) i = Some t ->
  to_timedelta seconds = Ok t ->
  exists j,
    find_index_for_timestamp to_timedelta dl seconds = Ok (Some j) /\
    j <= i /\ nth_error (timestamp_ns_list_of dl) j = Some t /\
    (forall k y, k < j ->
       nth_error (timestamp_ns_list_of dl) k = Some y -> (y < t)%Z) /\
    ((forall k, k < i -> nth_error (timestamp_ns_list_of dl) k <> Some t) ->
     j = i).
Proof.
  intros Hs Hi Ht.
  rewrite (find_index_converted to_timedelta dl seconds t
             (stamps_nonempty dl i t Hi) Ht).
  exact (exact_hit_from_ns dl i t Hs Hi).
Qed.

Lemma find_index_exact_hit_witness :
  exists j,
    find_index_for_timestamp
      (fun s => Ok (Qfloor (s * 1000000000)%Q))
      (store_of [1000000000; 2000000000; 2000000000; 3000000000]%Z) 2%Q
      = Ok (Some j) /\ j <= 2.
Proof.
  destruct (find_index_exact_hit
              (fun s => Ok (Qfloor (s * 1000000000)%Q))
              (store_of [1000000000; 2000000000; 2000000000; 3000000000]%Z)
              2 2%Q 2000000000%Z)
    as (j & Hj & Hle & _).
  - cbn [store_of timestamp_ns_list_of map fst]. repeat constructor; lia.
  - reflexivity.
  - reflexivity.
  - exists j. split; [exact Hj | exact Hle].
Defined.

(** C5 fails as stated: with a repeated timestamp the lookup of the second
    copy (index 1, at 5 s) lands on the first copy (index 0). *)
Lemma find_index_exact_hit_duplicate :
  timestamp_ns_list_of (store_of [5000000000; 5000000000]%Z)
    = [5000000000; 5000000000]%Z /\
  Sorted Z.le [5000000000; 5000000000]%Z /\
  nth_error [5000000000; 5000000000]%Z 1 = Some 5000000000%Z /\
  find_index_for_timestamp
    (fun s => Ok (Qfloor (s * 1000000000)%Q))
    (store_of [5000000000; 5000000000]%Z) 5%Q = Ok (Some 0) /\
  find_index_for_timestamp
    (fun s => Ok (Qfloor (s * 1000000000)%Q))
    (store_of [5000000000; 5000000000]%Z) 5%Q <> Ok (Some 1).
Proof.
  repeat split.
  - repeat constructor; lia.
  - discriminate.
Qed.

(** C1 (as amended).  When the nanosecond value of the target, as the
    conversion gives it, lies exactly half way between two consecutive
    samples with different timestamps, the lookup returns the later one,
    [i + 1]: [prev_diff < next_diff] is false on a tie. *)
Theorem find_index_tie_later (to_timedelta : Q -> result Z)
        (dl : data_list) (i : nat) (a b : Z) (seconds : Q) (t : Z) :
  Sorted Z.le (timestamp_ns_list_of dl) ->
  nth_error (timestamp_ns_list_of dl) i = Some a ->
  nth_error (timestamp_ns_list_of dl) (S i) = Some b ->
  (a < b)%Z ->
  to_timedelta seconds = Ok t ->
  (t - a = b - t)%Z ->
  find_index_for_timestamp to_timedelta dl seconds = Ok (Some (S i)).
Proof.
  intros Hs Ha Hb Hab Ht Heq.
  rewrite (find_index_converted to_timedelta dl seconds t
             (stamps_nonempty dl i a Ha) Ht).
  exact (tie_later_from_ns dl i a b t Hs Ha Hb Hab Heq).
Qed.

Lemma find_index_tie_later_witness :
  find_index_for_timestamp
    (fun s => Ok (Qfloor (s * 1000000000)%Q))
    (store_of [0; 2000000000; 6000000000]%Z) 1%Q = Ok (Some 1).
Proof.
  apply (find_index_tie_later
           (fun s => Ok (Qfloor (s * 1000000000)%Q))
           (store_of [0; 2000000000; 6000000000]%Z) 0 0%Z 2000000000%Z
           1%Q 1000000000%Z).
  - cbn [store_of timestamp_ns_list_of map fst]. repeat constructor; lia.
  - reflexivity.
  - reflexivity.
  - lia.
  - reflexivity.
  - reflexivity.
Defined.

(** C1 fails as stated: 1 s is equidistant between the samples at 0 s and
    2 s of an ascending store, and the lookup answers index 1, not 0. *)
Lemma find_index_tie_not_earlier :
  timestamp_ns_list_of (store_of [0; 2000000000]%Z) = [0; 2000000000]%Z /\
  Sorted Z.le [0; 2000000000]%Z /\
  nth_error [0; 2000000000]%Z 0 = Some 0%Z /\
  nth_error [0; 2000000000]%Z 1 = Some 2000000000%Z /\
  (1000000000 - 0 = 2000000000 - 1000000000)%Z /\
  find_index_for_timestamp
    (fun s => Ok (Qfloor (s * 1000000000)%Q))
    (store_of [0; 2000000000]%Z) 1%Q = Ok (Some 1) /\
  find_index_for_timestamp
    (fun s => Ok (Qfloor (s * 1000000000)%Q))
    (store_of [0; 2000000000]%Z) 1%Q <> Ok (Some 0).
Proof.
  repeat split.
  - repeat constructor; lia.
  - discriminate.
Qed.

(** C9 (as amended).  The lookup answers [None] exactly on the empty store;
    an index it answers is below the number of samples; on a store with
    samples, ascending or not, it answers an index for every target the
    conversion accepts; and it raises exactly what the conversion raises,
    on a store with samples. *)
Theorem find_index_total_in_range (to_timedelta : Q -> result Z)
        (dl : data_list) (seconds : Q) :
  (find_index_for_timestamp to_timedelta dl seconds = Ok None <-> dl = []) /\
  (forall i, find_index_for_timestamp to_timedelta dl seconds = Ok (Some i) ->
             i < length dl) /\
  (forall t, dl <> [] -> to_timedelta seconds = Ok t ->
     exists i, find_index_for_timestamp to_timedelta dl seconds = Ok (Some i) /\
               i < length dl) /\
  (forall e, find_index_for_timestamp to_timedelta dl seconds = Raise e <->
             dl <> [] /\ to_timedelta seconds = Raise e).
Proof.
  destruct dl as [|h dl'] eqn:Hdl.
  - cbn [find_index_for_timestamp].
    split; [tauto|]. split; [discriminate|].
    split; [congruence|]. intros e. split; [discriminate | tauto].
  - rewrite <- Hdl.
    assert (Hne : dl <> []) by (subst; discriminate).
    destruct (to_timedelta seconds) as [t|e0] eqn:Ht.
    + rewrite (find_index_converted to_timedelta dl seconds t Hne Ht).
      destruct (from_ns_total dl t) as (r & Hr & Hnone & Hsome).
      rewrite Hr. destruct r as [i|].
      * split; [split; [discriminate | congruence]|].
        split; [intros i0 [= <-]; apply Hsome; reflexivity|].
        split; [intros t0 _ _; exists i; split;
                [reflexivity | apply Hsome; reflexivity]|].
        intros e. split; [discriminate | intros [_ He]; discriminate].
      * exfalso. apply Hne, Hnone. reflexivity.
    + rewrite (find_index_refused to_timedelta dl seconds e0 Hne Ht).
      split; [split; [discriminate | congruence]|].
      split; [discriminate|]. split; [intros t _ Hok; discriminate|].
      intros e. split; [intros [= <-]; auto | intros [_ [= <-]]; reflexivity].
Qed.

Lemma find_index_total_in_range_witness :
  exists i,
    find_index_for_timestamp
      (fun s => Ok (Qfloor (s * 1000000000)%Q))
      (store_of [3000000000; 1000000000]%Z) 7%Q = Ok (Some i) /\
    i < 2.
Proof.
  destruct (find_index_total_in_range
              (fun s => Ok (Qfloor (s * 1000000000)%Q))
              (store_of [3000000000; 1000000000]%Z) 7%Q) as (_ & _ & H & _).
  apply (H 7000000000%Z); [discriminate | reflexivity].
Defined.

(** C9 fails as stated: on a store with samples a finite target of ten
    thousand million seconds, whose nanoseconds do not fit 64 bits, is
    refused by the conversion, and the lookup raises instead of answering
    an index. *)
Lemma find_index_target_refused :
  find_index_for_timestamp
    (fun s => let ns := Qfloor (s * 1000000000)%Q in
              if (ns <? 2 ^ 63)%Z then Ok ns else Raise OverflowError)
    (store_of [0; 10]%Z) 10000000000%Q = Raise OverflowError /\
  forall r,
    find_index_for_timestamp
      (fun s => let ns := Qfloor (s * 1000000000)%Q in
                if (ns <? 2 ^ 63)%Z then Ok ns else Raise OverflowError)
      (store_of [0; 10]%Z) 10000000000%Q <> Ok r.
Proof.
  split; [reflexivity | discriminate].
Qed.

(** ** Derived orientation fields *)

Lemma get_data_at_index_in_range (dl : data_list) (i : Z) (ns : Z) (r : row) :
  (0 <= i < get_data_count dl)%Z ->
  nth_error dl (Z.to_nat i) = Some (ns, r) ->
  get_data_at_index dl i =
    (helmet_corrected <- Rotation.from_quat (helmet_quat r) ;;
     vehicle_world <- Rotation.from_quat (vehicle_quat r) ;;
     helmet_world <- Rotation.mul vehicle_world helmet_corrected ;;
     Ok (Some {|
       index := i;
       timestamp_seconds := total_seconds ns;
       timestamp_ns := ns;
       VQ := Rotation.as_quat vehicle_world;
       HQ := Rotation.as_quat helmet_world;
       VLAT := lat r; VLON := lon r; VALT := alt r;
       VVN := north r; VVE := east r; VVD := down r;
       VINS := match mode r with Some m => m | None => 0%Z end;
       GSPEED := sqrt (north r ^ 2 + east r ^ 2 + down r ^ 2)%R
     |})).
Proof.
  intros Hi Hnth. unfold get_data_at_index.
  destruct (Z.ltb_spec i 0); [lia|].
  destruct (Z.leb_spec (get_data_count dl) i); [lia|].
  cbn [orb]. rewrite Hnth. reflexivity.
Qed.

(** The components of the product of two quaternions, written out. *)
Lemma compose_quat_components (p q : Rotation.quat) :
  (Rotation.qx (Rotation.compose_quat p q)
   = Rotation.qw p * Rotation.qx q + Rotation.qx p * Rotation.qw q
     + Rotation.qy p * Rotation.qz q - Rotation.qz p * Rotation.qy q /\
   Rotation.qy (Rotation.compose_quat p q)
   = Rotation.qw p * Rotation.qy q - Rotation.qx p * Rotation.qz q
     + Rotation.qy p * Rotation.qw q + Rotation.qz p * Rotation.qx q /\
   Rotation.qz (Rotation.compose_quat p q)
   = Rotation.qw p * Rotation.qz q + Rotation.qx p * Rotation.qy q
     - Rotation.qy p * Rotation.qx q + Rotation.qz p * Rotation.qw q /\
   Rotation.qw (Rotation.compose_quat p q)
   = Rotation.qw p * Rotation.qw q - Rotation.qx p * Rotation.qx q
     - Rotation.qy p * Rotation.qy q - Rotation.qz p * Rotation.qz q)%R.
Proof.
  unfold Rotation.compose_quat.
  cbn [Rotation.qx Rotation.qy Rotation.qz Rotation.qw].
  repeat split; ring.
Qed.

(** C7.  For a sample whose two raw quaternions are not zero, the vehicle
    orientation is the normalised raw vehicle quaternion
    ([world_from_vehicle]) and the headset orientation is the quaternion
    product of it, on the left, with the normalised raw headset quaternion
    ([vehicle_from_headset]), on the right; the four components of the
    product are written out.  A vector given in headset coordinates is
    carried to the vehicle frame and from there to the world frame.  When
    both raw quaternions are the identity the two orientations coincide. *)
Theorem headset_orientation_composition
        (dl : data_list) (i : Z) (ns : Z) (r : row) :
  (0 <= i < get_data_count dl)%Z ->
  nth_error dl (Z.to_nat i) = Some (ns, r) ->
  Rotation.norm (vehicle_quat r) <> 0%R ->
  Rotation.norm (helmet_quat r) <> 0%R ->
  exists f world_from_vehicle vehicle_from_headset,
    get_data_at_index dl i = Ok (Some f) /\
    world_from_vehicle
      = Rotation.scale (Rotation.norm (vehicle_quat r)) (vehicle_quat r) /\
    vehicle_from_headset
      = Rotation.scale (Rotation.norm (helmet_quat r)) (helmet_quat r) /\
    Rotation.from_quat (vehicle_quat r) = Ok world_from_vehicle /\
    Rotation.from_quat (helmet_quat r) = Ok vehicle_from_headset /\
    VQ f = world_from_vehicle /\
    HQ f = Rotation.compose_quat world_from_vehicle vehicle_from_headset /\
    (let (vx, vy, vz, vw) := world_from_vehicle in
     let (hx, hy, hz, hw) := vehicle_from_headset in
     HQ f = Rotation.Quat (vw * hx + vx * hw + vy * hz - vz * hy)
                          (vw * hy - vx * hz + vy * hw + vz * hx)
                          (vw * hz + vx * hy - vy * hx + vz * hw)
                          (vw * hw - vx * hx - vy * hy - vz * hz))%R /\
    (forall v, Rotation.apply (HQ f) v =
               Rotation.apply world_from_vehicle
                 (Rotation.apply vehicle_from_headset v)) /\
    (vehicle_quat r = Rotation.identity ->
     helmet_quat r = Rotation.identity ->
     HQ f = VQ f /\ VQ f = Rotation.identity).
Proof.
  intros Hi Hnth Hv Hh.
  rewrite (get_data_at_index_in_range dl i ns r Hi Hnth).
  rewrite (RotationFacts.from_quat_ok _ Hh), (RotationFacts.from_quat_ok _ Hv).
  cbn [bind].
  set (v := Rotation.scale (Rotation.norm (vehicle_quat r)) (vehicle_quat r)).
  set (h := Rotation.scale (Rotation.norm (helmet_quat r)) (helmet_quat r)).
  assert (Hnv : Rotation.norm v = 1%R)
    by (apply RotationFacts.norm_scale_norm; assumption).
  assert (Hnh : Rotation.norm h = 1%R)
    by (apply RotationFacts.norm_scale_norm; assumption).
  rewrite (RotationFacts.mul_unit v h Hnv Hnh). cbn [bind].
  eexists; exists v, h.
  split; [reflexivity|]. cbn [VQ HQ Rotation.as_quat].
  split; [reflexivity|]. split; [reflexivity|].
  split; [reflexivity|]. split; [reflexivity|].
  split; [reflexivity|]. split; [reflexivity|].
  split; [| split].
  - destruct (compose_quat_components v h) as (Hx & Hy & Hz & Hw).
    destruct v as [vx vy vz vw], h as [hx hy hz hw].
    apply RotationFacts.quat_ext;
      cbn [Rotation.qx Rotation.qy Rotation.qz Rotation.qw] in *; assumption.
  - intros u. apply RotationFacts.apply_compose.
  - intros Hvi Hhi. split.
    + subst v h. rewrite Hvi, Hhi, RotationFacts.norm_identity.
      rewrite RotationFacts.scale_one.
      apply RotationFacts.compose_identity_r.
    + subst v. rewrite Hvi, RotationFacts.norm_identity.
      apply RotationFacts.scale_one.
Qed.

Lemma level_row_norms :
  Rotation.norm (vehicle_quat level_row) <> 0%R /\
  Rotation.norm (helmet_quat level_row) <> 0%R.
Proof.
  change (vehicle_quat level_row) with Rotation.identity.
  change (helmet_quat level_row) with Rotation.identity.
  rewrite RotationFacts.norm_identity. split; Lra.lra.
Qed.

Lemma turned_row_norms :
  Rotation.norm (vehicle_quat turned_row) = 2%R /\
  Rotation.norm (helmet_quat turned_row) = 2%R.
Proof.
  unfold Rotation.norm, Rotation.sq_norm, vehicle_quat, helmet_quat, turned_row.
  cbn [x_vehicle y_vehicle z_vehicle w_vehicle
       x_helmet y_helmet z_helmet w_helmet
       Rotation.qx Rotation.qy Rotation.qz Rotation.qw].
  split.
  - replace (1 * 1 + 1 * 1 + 1 * 1 + 1 * 1)%R with (2 * 2)%R by ring.
    apply sqrt_square. Lra.lra.
  - replace (2 * 2 + 0 * 0 + 0 * 0 + 0 * 0)%R with (2 * 2)%R by ring.
    apply sqrt_square. Lra.lra.
Qed.

(** The vehicle a third of a turn about the diagonal and the headset half a
    turn about the first axis: the headset orientation is the product in
    this order, [(1/2, 1/2, -1/2, -1/2)]; the other order would give
    [(1/2, -1/2, 1/2, -1/2)]. *)
Lemma headset_orientation_composition_witness :
  exists f,
    get_data_at_index turned_store 0 = Ok (Some f) /\
    VQ f = Rotation.Quat (1 / 2) (1 / 2) (1 / 2) (1 / 2) /\
    HQ f = Rotation.Quat (1 / 2) (1 / 2) (- (1 / 2)) (- (1 / 2)) /\
    HQ f <> Rotation.Quat (1 / 2) (- (1 / 2)) (1 / 2) (- (1 / 2)).
Proof.
  destruct turned_row_norms as [Hnv Hnh].
  destruct (headset_orientation_composition turned_store 0 0 turned_row)
    as (f & wv & vh & Hf & Hwv & Hvh & _ & _ & HVQ & _ & HHQ & _).
  - unfold get_data_count; simpl; lia.
  - reflexivity.
  - rewrite Hnv. Lra.lra.
  - rewrite Hnh. Lra.lra.
  - rewrite Hnv in Hwv. rewrite Hnh in Hvh.
    unfold Rotation.scale, vehicle_quat, helmet_quat, turned_row in Hwv, Hvh.
    cbn [x_vehicle y_vehicle z_vehicle w_vehicle
         x_helmet y_helmet z_helmet w_helmet
         Rotation.qx Rotation.qy Rotation.qz Rotation.qw] in Hwv, Hvh.
    subst wv vh. cbv beta iota in HHQ.
    assert (HH : HQ f = Rotation.Quat (1 / 2) (1 / 2) (- (1 / 2)) (- (1 / 2))).
    { rewrite HHQ. apply RotationFacts.quat_ext;
        cbn [Rotation.qx Rotation.qy Rotation.qz Rotation.qw]; field. }
    exists f. split; [exact Hf|]. split.
    + rewrite HVQ. apply RotationFacts.quat_ext;
        cbn [Rotation.qx Rotation.qy Rotation.qz Rotation.qw]; field.
    + split; [exact HH|]. rewrite HH. intros Heq.
      apply (f_equal Rotation.qy) in Heq.
      cbn [Rotation.qy] in Heq. Lra.lra.
Defined.

End DataProcessorFacts.

(* ================================================================== *)
(** * Playback control and pacing *)
(* ================================================================== *)

Module AppFacts.
Import DataProcessor App.
Local Open Scope Q_scope.

Lemma div_ok (a b : Q) : ~ b == 0 -> div a b = Ok (a / b).
Proof.
  intros Hb. unfold div.
  destruct (Qeq_bool b 0) eqn:E; [| reflexivity].
  apply Qeq_bool_iff in E. contradiction.
Qed.

Lemma min2_spec (a b : Q) :
  (b < a /\ min2 a b = b) \/ (a <= b /\ min2 a b = a).
Proof. unfold min2. destruct (Qlt_le_dec b a); auto. Qed.

Lemma max2_spec (a b : Q) :
  (a < b /\ max2 a b = b) \/ (b <= a /\ max2 a b = a).
Proof. unfold max2. destruct (Qlt_le_dec a b); auto. Qed.

Lemma min2_Qmin (a b : Q) : min2 a b == Qmin a b.
Proof.
  destruct (min2_spec a b) as [[H ->]|[H ->]].
  - symmetry. apply Q.min_r. lra.
  - symmetry. apply Q.min_l. lra.
Qed.

Lemma max2_Qmax (a b : Q) : max2 a b == Qmax a b.
Proof.
  destruct (max2_spec a b) as [[H ->]|[H ->]].
  - symmetry. apply Q.max_r. lra.
  - symmetry. apply Q.max_l. lra.
Qed.

Lemma clamp_bounds (x : Q) :
  0.001 <= max2 0.001 (min2 0.1 x) <= 0.1.
Proof.
  destruct (max2_spec 0.001 (min2 0.1 x)) as [[H ->]|[H ->]];
    destruct (min2_spec 0.1 x) as [[H' E]|[H' E]]; rewrite ?E in *; lra.
Qed.

(** The pacing block on a previous timestamp, branch by branch. *)
Lemma pacing_some (last cur speed : Q) :
  ~ speed == 0 ->
  pacing (Some last) cur speed =
    Ok ((if Qlt_le_dec (cur - last) 0 then 0.01 / speed
         else if Qlt_le_dec 10 (cur - last) then 0.01 / speed
         else if Qeq_bool (cur - last) 0 then 0.001 / speed
         else max2 0.001 (min2 0.1 ((cur - last) / speed))),
        Some cur).
Proof.
  intros Hs. unfold pacing.
  destruct (Qlt_le_dec (cur - last) 0); [rewrite div_ok by assumption; reflexivity|].
  destruct (Qlt_le_dec 10 (cur - last)); [rewrite div_ok by assumption; reflexivity|].
  destruct (Qeq_bool (cur - last) 0); rewrite div_ok by assumption; reflexivity.
Qed.

Lemma div_by_one (a speed : Q) : speed == 1 -> a / speed == a.
Proof. intros ->. field. Qed.

Lemma clamp_inside (x : Q) :
  0.001 <= x <= 0.1 -> max2 0.001 (min2 0.1 x) == x.
Proof.
  intros Hx.
  destruct (max2_spec 0.001 (min2 0.1 x)) as [[H ->]|[H ->]];
    destruct (min2_spec 0.1 x) as [[H' E]|[H' E]]; rewrite ?E in *; lra.
Qed.

Lemma clamp_above (x : Q) :
  0.1 <= x -> max2 0.001 (min2 0.1 x) == 0.1.
Proof.
  intros Hx.
  destruct (max2_spec 0.001 (min2 0.1 x)) as [[H ->]|[H ->]];
    destruct (min2_spec 0.1 x) as [[H' E]|[H' E]]; rewrite ?E in *; lra.
Qed.

(** C2.  The pacing block, as a function of the timestamp difference
    [cur - last] and the speed.  Backward steps and steps of more than ten
    seconds give the 10 ms default (divided by the speed), a zero step
    gives 1 ms (divided by the speed), and any other step gives
    [(cur - last) / speed] clamped to [1 ms, 100 ms].  At speed 1.0:
    50 ms gives 50 ms, 500 ms gives 100 ms, 0 gives 1 ms, a negative step
    and a step above 10 s give 10 ms. *)
Theorem pacing_delay (last cur speed : Q) :
  ~ speed == 0 ->
  exists s,
    pacing (Some last) cur speed = Ok (s, Some cur) /\
    (cur - last < 0 -> s == 0.01 / speed) /\
    (10 < cur - last -> s == 0.01 / speed) /\
    (cur - last == 0 -> s == 0.001 / speed) /\
    (0 < cur - last <= 10 ->
       s == Qmax 0.001 (Qmin 0.1 ((cur - last) / speed)) /\
       0.001 <= s <= 0.1) /\
    (speed == 1 ->
       (cur - last == 0.05 -> s == 0.05) /\
       (cur - last == 0.5 -> s == 0.1) /\
       (cur - last == 0 -> s == 0.001) /\
       (cur - last < 0 -> s == 0.01) /\
       (10 < cur - last -> s == 0.01)).
Proof.
  intros Hs. eexists. split; [apply pacing_some; assumption|].
  set (d := cur - last).
  assert (Hzero : d == 0 -> Qeq_bool d 0 = true)
    by (intros H; apply Qeq_bool_iff; exact H).
  assert (Hnz : ~ d == 0 -> Qeq_bool d 0 = false).
  { intros H. destruct (Qeq_bool d 0) eqn:E; auto.
    apply Qeq_bool_iff in E. contradiction. }
  repeat split.
  - intros Hd. destruct (Qlt_le_dec d 0); [reflexivity | lra].
  - intros Hd. destruct (Qlt_le_dec d 0); [lra|].
    destruct (Qlt_le_dec 10 d); [reflexivity | lra].
  - intros Hd. destruct (Qlt_le_dec d 0); [lra|].
    destruct (Qlt_le_dec 10 d); [lra|].
    rewrite Hzero by assumption. reflexivity.
  - destruct H as [Hd1 Hd2].
    destruct (Qlt_le_dec d 0); [lra|].
    destruct (Qlt_le_dec 10 d); [lra|].
    rewrite Hnz by lra.
    rewrite max2_Qmax, min2_Qmin. reflexivity.
  - destruct H as [Hd1 Hd2].
    destruct (Qlt_le_dec d 0); [lra|].
    destruct (Qlt_le_dec 10 d); [lra|].
    rewrite Hnz by lra. apply clamp_bounds.
  - destruct H as [Hd1 Hd2].
    destruct (Qlt_le_dec d 0); [lra|].
    destruct (Qlt_le_dec 10 d); [lra|].
    rewrite Hnz by lra. apply clamp_bounds.
  - intros Hd. destruct (Qlt_le_dec d 0); [lra|].
    destruct (Qlt_le_dec 10 d); [lra|].
    rewrite Hnz by lra.
    rewrite clamp_inside; rewrite (div_by_one d speed H); lra.
  - intros Hd. destruct (Qlt_le_dec d 0); [lra|].
    destruct (Qlt_le_dec 10 d); [lra|].
    rewrite Hnz by lra.
    apply clamp_above. rewrite (div_by_one d speed H). lra.
  - intros Hd. destruct (Qlt_le_dec d 0); [lra|].
    destruct (Qlt_le_dec 10 d); [lra|].
    rewrite Hzero by assumption. apply div_by_one; assumption.
  - intros Hd. destruct (Qlt_le_dec d 0); [| lra].
    apply div_by_one; assumption.
  - intros Hd. destruct (Qlt_le_dec d 0); [lra|].
    destruct (Qlt_le_dec 10 d); [| lra].
    apply div_by_one; assumption.
Qed.

Lemma pacing_delay_witness :
  exists s, pacing (Some 0) 0.05 1 = Ok (s, Some 0.05) /\ s == 0.05.
Proof.
  destruct (pacing_delay 0 0.05 1) as (s & Hp & _ & _ & _ & _ & Hone).
  - intros H. vm_compute in H. discriminate.
  - exists s. split; [exact Hp|].
    apply Hone; reflexivity.
Defined.

(** ** One emitting iteration *)

Lemma pacing_none (cur speed : Q) :
  ~ speed == 0 -> pacing None cur speed = Ok (0.01 / speed, Some cur).
Proof. intros Hs. unfold pacing. rewrite div_ok by assumption. reflexivity. Qed.

(** An iteration that finds a sample: active, cursor inside the store. *)
Lemma tick_emit (dl : data_list) (udp_socket : bool) (g : globals)
      (l : locals) (d : frame) :
  playback_active g = true ->
  (playback_index g < get_data_count dl)%Z ->
  get_data_at_index dl (playback_index g) = Ok (Some d) ->
  tick (Some dl) udp_socket g l =
    (p <- pacing (last_timestamp l) (timestamp_seconds d) (playback_speed g) ;;
     Ok (Continue
           ([FrameUpdate d] ++ (if udp_socket then [UdpGodot d] else [])
                            ++ [GodotData d])
           (fst p)
           (Globals true (playback_index g + 1) (playback_speed g))
           (Locals (frame_count l + 1) (snd p))))%py.
Proof.
  intros Ha Hi Hd. unfold tick. rewrite Ha. cbn [negb].
  destruct (Z.leb_spec (get_data_count dl) (playback_index g)); [lia|].
  rewrite Hd. reflexivity.
Qed.

(** The samples of [level_store]. *)
Lemma level_store_frame (i ns : Z) :
  (0 <= i < 4)%Z ->
  nth_error level_store (Z.to_nat i) = Some (ns, level_row) ->
  exists f,
    get_data_at_index level_store i = Ok (Some f) /\
    timestamp_seconds f = total_seconds ns.
Proof.
  intros Hi Hnth.
  rewrite (DataProcessorFacts.get_data_at_index_in_range level_store i ns level_row)
    by (auto; unfold get_data_count; simpl; lia).
  change (helmet_quat level_row) with Rotation.identity.
  change (vehicle_quat level_row) with Rotation.identity.
  rewrite RotationFacts.from_quat_identity. cbn [bind].
  rewrite (RotationFacts.mul_unit _ _ RotationFacts.norm_identity
                                  RotationFacts.norm_identity).
  cbn [bind]. eexists. split; reflexivity.
Qed.

(** C4, the code at a failing input.  Playback starts at index 0 with
    speed 1.0 on four samples 20 ms apart; the first iteration emits
    sample 0 and remembers its timestamp (0 s).  A seek to index 3 follows.
    The next iteration emits sample 3 (60 ms) and sleeps 60 ms: the
    difference to the timestamp emitted before the seek, not the 10 ms
    default of a discontinuity. *)
Theorem seek_paced_against_pre_seek_timestamp :
  let g0 := handle_start_playback true (StartRequest (Some 0%Z) (Some 1))
                                  initial_globals in
  exists ev1 s1 g1 l1 ev2 s2 g2 l2,
    tick (Some level_store) false g0 initial_locals
      = Ok (Continue ev1 s1 g1 l1) /\
    last_timestamp l1 = Some (total_seconds 0) /\
    tick (Some level_store) false (handle_seek (Some 3%Z) g1) l1
      = Ok (Continue ev2 s2 g2 l2) /\
    playback_index g2 = 4%Z /\
    s2 == 0.06 /\
    ~ s2 == 0.01 / playback_speed g1.
Proof.
  intros g0.
  destruct (level_store_frame 0 0) as (f0 & Hf0 & Ht0); [lia | reflexivity |].
  destruct (level_store_frame 3 60000000) as (f3 & Hf3 & Ht3);
    [lia | reflexivity |].
  assert (Hone : ~ min2 1 2 == 0) by (intros H; vm_compute in H; discriminate).
  do 8 eexists.
  split; [| split; [| split]].
  - rewrite (tick_emit level_store false g0 initial_locals f0);
      [| reflexivity | unfold get_data_count; simpl; lia | exact Hf0].
    cbn [last_timestamp initial_locals].
    rewrite (pacing_none _ (playback_speed g0) Hone). cbn [bind fst snd].
    reflexivity.
  - cbn [last_timestamp]. rewrite Ht0. reflexivity.
  - rewrite (tick_emit level_store false _ _ f3);
      [| reflexivity | unfold get_data_count; simpl; lia | exact Hf3].
    cbn [last_timestamp]. rewrite Ht0, Ht3.
    rewrite pacing_some by exact Hone.
    cbn [bind fst snd]. reflexivity.
  - split; [reflexivity|]. split.
    + vm_compute. reflexivity.
    + intros H. vm_compute in H. discriminate.
Qed.

(** ** The stored speed *)

Lemma cap_at_two (r : Q) :
  min2 r 2 <= 2 /\
  (2 < r -> min2 r 2 = 2) /\
  (r <= 2 -> min2 r 2 = r) /\
  (0 < min2 r 2 <-> 0 < r).
Proof.
  destruct (min2_spec r 2) as [[H E]|[H E]]; rewrite E;
    repeat split; intros; try lra; reflexivity.
Qed.

(** C3 (as amended).  After [set_speed], and after [start_playback] on an
    initialised processor, the stored speed is at most 2.0, it is exactly
    2.0 for a request above 2.0, and it is positive exactly when the request
    is.  A [start_playback] before the processor is initialised changes
    nothing; so a stored speed of at most 2.0 stays at most 2.0 under every
    start. *)
Theorem stored_speed_capped (processor_ready : bool) (data : start_request)
        (speed : option Q) (g : globals) :
  let started := playback_speed (handle_start_playback processor_ready data g) in
  let set := playback_speed (handle_set_speed speed g) in
  (set <= 2 /\
   (2 < requested_by_set_speed speed -> set = 2) /\
   (0 < set <-> 0 < requested_by_set_speed speed)) /\
  (processor_ready = true ->
   started <= 2 /\
   (2 < requested_by_start data -> started = 2) /\
   (0 < started <-> 0 < requested_by_start data)) /\
  (processor_ready = false ->
   handle_start_playback processor_ready data g = g) /\
  (playback_speed g <= 2 -> started <= 2).
Proof.
  cbv zeta.
  destruct (cap_at_two (requested_by_start data)) as (Hs1 & Hs2 & _ & Hs4).
  destruct (cap_at_two (requested_by_set_speed speed)) as (Ht1 & Ht2 & _ & Ht4).
  split; [auto|]. split; [| split].
  - intros ->. cbn [handle_start_playback negb playback_speed]. auto.
  - intros ->. reflexivity.
  - intros Hg. destruct processor_ready;
      cbn [handle_start_playback negb playback_speed]; auto.
Qed.

Lemma stored_speed_capped_witness :
  playback_speed (handle_set_speed (Some 3.5) initial_globals) = 2 /\
  playback_speed
    (handle_start_playback true (StartRequest None (Some 3.5)) initial_globals)
    = 2 /\
  handle_start_playback false (StartRequest None (Some 1)) initial_globals
    = initial_globals.
Proof.
  destruct (stored_speed_capped true (StartRequest None (Some 3.5))
              (Some 3.5) initial_globals) as ((_ & Hset & _) & Hstart & _).
  destruct (stored_speed_capped false (StartRequest None (Some 1))
              None initial_globals) as (_ & _ & Hrefused & _).
  split; [apply Hset; reflexivity|].
  split; [apply (Hstart eq_refl); reflexivity|].
  apply Hrefused. reflexivity.
Defined.

(** C3 fails as stated: a request for speed 0 (or for a negative speed) is
    stored as it is, so the stored speed is not always positive. *)
Lemma stored_speed_not_positive :
  playback_speed (handle_set_speed (Some 0) initial_globals) = 0 /\
  ~ 0 < playback_speed (handle_set_speed (Some 0) initial_globals) /\
  playback_speed
    (handle_start_playback true (StartRequest None (Some (-1))) initial_globals)
    = -1 /\
  ~ 0 < playback_speed
        (handle_start_playback true (StartRequest None (Some (-1)))
                               initial_globals).
Proof.
  repeat split; try reflexivity; intros H; vm_compute in H; discriminate.
Qed.

End AppFacts.

(* ================================================================== *)
(** * The timeline mapper *)
(* ================================================================== *)

Module MapperFacts.
Import Mapper PyFacts.

(** ** Loading a source that cannot be ordered by video time *)

(** C8, the code at a failing input.  On [mixed_source] the first sort
    succeeds (the data timestamps differ, so the video times are never
    compared) and the second one raises.  [load_mapping] reports [False],
    yet the table written before the exception stays: the mapper counts as
    available, answers a query before the first anchor with the string,
    raises on a query between the anchors, and answers [None] only in the
    reverse direction. *)
Theorem failed_load_leaves_partial_table :
  let m := new mixed_source in
  snd (load_mapping mixed_source (MapperState [] [] [] None)) = false /\
  timestamps m = [(VNum 1, VStr "a"); (VNum 2, VNum 3)] /\
  is_available m = true /\
  data_to_video_time m 0 = Ok (Some (VStr "a")) /\
  data_to_video_time m 1.5 = Raise TypeError /\
  video_to_data_time m 3 = Ok None.
Proof. vm_compute. repeat split. Qed.

(** For comparison: sources that fail before the first assignment. *)
Lemma unloaded_mapper_answers_none (src : source) (t : Q) :
  src = NoFile \/ src = Unreadable \/ src = NotJson \/ src = Json [] ->
  is_available (new src) = false /\
  data_to_video_time (new src) t = Ok None /\
  video_to_data_time (new src) t = Ok None.
Proof. intros [->|[->|[->| ->]]]; repeat split. Qed.

(** ** The stable insertion sort on comparisons that do not raise *)
Section SortFacts.
Context {A : Type}.
Variable lt : A -> A -> result bool.
Variable P : A -> Prop.
Hypothesis lt_total : forall x y, P x -> P y -> exists b, lt x y = Ok b.
Hypothesis lt_asym :
  forall x y, P x -> P y -> lt x y = Ok true -> lt y x = Ok false.

Lemma insert_ok (x : A) (l : list A) :
  P x -> Forall P l -> Sorted (not_after lt) l ->
  exists l',
    insert lt x l = Ok l' /\ Permutation (x :: l) l' /\
    Sorted (not_after lt) l' /\ Forall P l' /\
    (forall z, (not_after lt) z x -> HdRel (not_after lt) z l -> HdRel (not_after lt) z l').
Proof.
  intros Px. induction l as [|y l IH]; intros HP Hs.
  - exists [x]. cbn. repeat split; auto.
  - inversion HP as [|? ? Py HPl]; subst.
    inversion Hs as [|? ? Hsl Hhd]; subst.
    destruct (lt_total x y Px Py) as [b Hb].
    cbn [insert]. rewrite Hb. cbn [bind]. destruct b.
    + exists (x :: y :: l). repeat split; auto.
      constructor; auto. constructor. apply lt_asym; auto.
    + destruct (IH HPl Hsl) as (r & Hr & Hperm & Hsr & HPr & Hhdr).
      rewrite Hr. cbn [bind]. exists (y :: r). repeat split.
      * rewrite perm_swap. constructor. exact Hperm.
      * constructor; auto.
      * constructor; auto.
      * intros z Hz Hzl. inversion Hzl; subst. constructor; assumption.
Qed.

Lemma sorted_from (l acc : list A) :
  Forall P l -> Forall P acc -> Sorted (not_after lt) acc ->
  exists l',
    fold_left (fun a x => a' <- a ;; insert lt x a') l (Ok acc) = Ok l' /\
    Permutation (acc ++ l) l' /\ Sorted (not_after lt) l' /\ Forall P l'.
Proof.
  revert acc. induction l as [|x l IH]; intros acc HPl HPa Hs.
  - exists acc. rewrite app_nil_r. repeat split; auto.
  - inversion HPl as [|? ? Px HPl']; subst.
    destruct (insert_ok x acc Px HPa Hs) as (a1 & Ha1 & Hp1 & Hs1 & HP1 & _).
    destruct (IH a1 HPl' HP1 Hs1) as (l' & Hl' & Hp & Hsl & HPl'').
    exists l'. cbn [fold_left bind]. rewrite Ha1.
    repeat split; auto.
    rewrite <- Hp. rewrite <- Hp1.
    rewrite <- Permutation_middle. reflexivity.
Qed.

Lemma sorted_ok (l : list A) :
  Forall P l ->
  exists l',
    sorted lt l = Ok l' /\ Permutation l l' /\
    Sorted (not_after lt) l' /\ Forall P l'.
Proof.
  intros HP. destruct (sorted_from l [] HP) as (l' & H1 & H2 & H3 & H4); auto.
  exists l'. repeat split; auto.
Qed.
End SortFacts.

(** ** Numeric tables *)

Local Open Scope Q_scope.

Lemma Qltb_lt (x y : Q) : Qltb x y = true <-> x < y.
Proof.
  unfold Qltb. rewrite Qlt_alt.
  destruct (x ?= y); split; congruence.
Qed.

Lemma Qltb_ge (x y : Q) : Qltb x y = false <-> y <= x.
Proof.
  split; intros H.
  - apply Qnot_lt_le. intros Hlt. apply Qltb_lt in Hlt. congruence.
  - destruct (Qltb x y) eqn:E; auto. apply Qltb_lt in E. lra.
Qed.

Lemma Qeq_bool_false (x y : Q) : ~ x == y -> Qeq_bool x y = false.
Proof.
  intros H. destruct (Qeq_bool x y) eqn:E; auto.
  apply Qeq_bool_iff in E. contradiction.
Qed.

Lemma numeric_emb (l : list (Q * Q)) : Forall numeric (map emb l).
Proof.
  apply Forall_forall. intros p Hp. apply in_map_iff in Hp.
  destruct Hp as (ab & <- & _). exists ab. reflexivity.
Qed.

Lemma pair_lt_emb (x y : Q * Q) :
  pair_lt (emb x) (emb y) =
    Ok (if negb (Qeq_bool (fst x) (fst y)) then Qltb (fst x) (fst y)
        else if negb (Qeq_bool (snd x) (snd y)) then Qltb (snd x) (snd y)
        else false).
Proof.
  unfold pair_lt, emb; cbn [fst snd v_eq v_lt].
  destruct (Qeq_bool (fst x) (fst y)), (Qeq_bool (snd x) (snd y)); reflexivity.
Qed.

Lemma pair_lt_total (x y : value * value) :
  numeric x -> numeric y -> exists b, pair_lt x y = Ok b.
Proof. intros [a ->] [b ->]. rewrite pair_lt_emb. eauto. Qed.

Lemma pair_lt_asym (x y : value * value) :
  numeric x -> numeric y -> pair_lt x y = Ok true -> pair_lt y x = Ok false.
Proof.
  intros [a ->] [b ->]. rewrite !pair_lt_emb. intros [= H]. f_equal.
  rewrite (Qeq_bool_comm (fst b) (fst a)), (Qeq_bool_comm (snd b) (snd a)).
  destruct (Qeq_bool (fst a) (fst b)); cbn [negb] in *.
  - destruct (Qeq_bool (snd a) (snd b)); cbn [negb] in *; [reflexivity|].
    apply Qltb_lt in H. apply Qltb_ge. lra.
  - apply Qltb_lt in H. apply Qltb_ge. lra.
Qed.

(** The key of the second sort, [lambda x: x[1]]. *)
Lemma by_video_lt_total (x y : value * value) :
  numeric x -> numeric y -> exists b, v_lt (snd x) (snd y) = Ok b.
Proof. intros [a ->] [b ->]. cbn. eauto. Qed.

Lemma by_video_lt_asym (x y : value * value) :
  numeric x -> numeric y ->
  v_lt (snd x) (snd y) = Ok true -> v_lt (snd y) (snd x) = Ok false.
Proof.
  intros [a ->] [b ->]. cbn. intros [= H]. f_equal.
  apply Qltb_lt in H. apply Qltb_ge. lra.
Qed.

Lemma not_after_pair_lt (x y : Q * Q) :
  not_after pair_lt (emb x) (emb y) -> fst x <= fst y.
Proof.
  unfold not_after. rewrite pair_lt_emb. intros [= H].
  destruct (Qeq_bool (fst y) (fst x)) eqn:E; cbn [negb] in H.
  - apply Qeq_bool_iff in E. lra.
  - apply Qltb_ge in H. exact H.
Qed.

Lemma not_after_by_video (x y : Q * Q) :
  not_after (fun p q => v_lt (snd p) (snd q)) (emb x) (emb y) ->
  snd x <= snd y.
Proof. unfold not_after. cbn. intros [= H]. apply Qltb_ge in H. exact H. Qed.

Lemma Sorted_map_inv {A B : Type} (f : A -> B) (R : A -> A -> Prop)
      (R' : B -> B -> Prop) (l : list A) :
  (forall x y, R' (f x) (f y) -> R x y) ->
  Sorted R' (map f l) -> Sorted R l.
Proof.
  intros HR. induction l as [|x l IH]; intros Hs; [constructor|].
  cbn in Hs. inversion Hs as [|? ? Hs' Hhd]; subst.
  constructor; [auto|].
  destruct l as [|y l]; constructor.
  cbn in Hhd. inversion Hhd; subst. auto.
Qed.

Lemma read_entries_numeric (anchors : list (Q * Q)) :
  read_entries (map entry_of anchors) = Ok (map emb anchors).
Proof.
  induction anchors as [|ab l IH]; [reflexivity|].
  cbn [map read_entries entry_of data_timestamp video_time].
  rewrite IH. reflexivity.
Qed.

(** Loading a table of numbers succeeds: both projections hold the anchors,
    one ordered by telemetry time and one by video time. *)
Lemma new_numeric (anchors : list (Q * Q)) :
  exists ts tsv,
    new (numeric_source anchors) = loaded ts tsv /\
    Permutation anchors ts /\ Permutation anchors tsv /\
    Sorted by_data ts /\ Sorted by_video_time tsv.
Proof.
  destruct (sorted_ok pair_lt numeric pair_lt_total pair_lt_asym
              (map emb anchors) (numeric_emb anchors))
    as (l1 & Hl1 & Hp1 & Hs1 & HP1).
  destruct (sorted_ok (fun x y => v_lt (snd x) (snd y)) numeric
              by_video_lt_total by_video_lt_asym l1 HP1)
    as (l2 & Hl2 & Hp2 & Hs2 & HP2).
  destruct (Permutation_map_inv emb _ (Permutation_sym Hp1))
    as (ts & -> & Hpts).
  destruct (Permutation_map_inv emb _ (Permutation_sym Hp2))
    as (tsv & -> & Hptsv).
  exists ts, tsv.
  split; [| repeat split].
  - unfold new, numeric_source, load_mapping.
    rewrite read_entries_numeric. cbn [bind]. rewrite Hl1, Hl2. reflexivity.
  - exact Hpts.
  - exact (Permutation_trans Hpts Hptsv).
  - apply (Sorted_map_inv emb _ _ _ not_after_pair_lt Hs1).
  - apply (Sorted_map_inv emb _ _ _ not_after_by_video Hs2).
Qed.

Lemma sorted_nth_rel {A : Type} (R : A -> A -> Prop) (l : list A) :
  (forall x, R x x) -> (forall x y z, R x y -> R y z -> R x z) ->
  Sorted R l ->
  forall i j y z, (i <= j)%nat ->
    nth_error l i = Some y -> nth_error l j = Some z -> R y z.
Proof.
  intros Hrefl Htrans Hs.
  apply Sorted_StronglySorted in Hs; [| exact Htrans].
  induction Hs as [|h l Hs IH Hall]; intros i j y z Hij Hi Hj.
  - destruct i; discriminate.
  - destruct i as [|i], j as [|j]; simpl in *; try lia.
    + injection Hi as <-; injection Hj as <-; apply Hrefl.
    + injection Hi as <-. rewrite Forall_forall in Hall.
      apply Hall. eapply nth_error_In; eauto.
    + apply (IH i j); auto; lia.
Qed.

Lemma by_data_nth (ts : list (Q * Q)) :
  Sorted by_data ts ->
  forall i j y z, (i <= j)%nat ->
    nth_error ts i = Some y -> nth_error ts j = Some z -> fst y <= fst z.
Proof.
  intros Hs. apply (sorted_nth_rel by_data ts); auto.
  - intros x. apply Qle_refl.
  - intros x y z. apply Qle_trans.
Qed.

Lemma by_data_down_closed (ts : list (Q * Q)) (t : Q) :
  Sorted by_data ts -> down_closed (fun p => Qltb (fst p) t) ts.
Proof.
  intros Hs i j y z Hij Hi Hj Hz.
  pose proof (by_data_nth ts Hs i j y z Hij Hi Hj).
  apply Qltb_lt in Hz. apply Qltb_lt. lra.
Qed.

(** The insertion point of a query among the keys of a sorted table. *)
Lemma bisect_left_keys (ts : list (Q * Q)) (t : Q) :
  Sorted by_data ts ->
  exists k, (k <= length ts)%nat /\
    (forall i p, (i < k)%nat -> nth_error ts i = Some p -> fst p < t) /\
    (forall i p, (k <= i)%nat -> nth_error ts i = Some p -> t <= fst p) /\
    bisect_left v_lt (map fst (map emb ts)) (VNum t) = Ok k.
Proof.
  intros Hs.
  pose proof (by_data_down_closed ts t Hs) as Hdc.
  set (p := fun q : Q * Q => Qltb (fst q) t) in *.
  exists (partition_point p ts).
  pose proof (partition_point_le p ts) as Hle.
  assert (Hlo : forall i q, (i < partition_point p ts)%nat ->
                  nth_error ts i = Some q -> fst q < t).
  { intros i q Hi Hq. apply Qltb_lt.
    exact (partition_point_below p ts Hdc i q Hi Hq). }
  assert (Hhi : forall i q, (partition_point p ts <= i)%nat ->
                  nth_error ts i = Some q -> t <= fst q).
  { intros i q Hi Hq. apply Qltb_ge.
    exact (partition_point_above p ts Hdc i q Hi Hq). }
  repeat split; auto.
  unfold bisect_left. rewrite !length_map.
  apply bisect_loop_partition; try lia.
  - intros i am Hi Hnth. rewrite map_map, nth_error_map in Hnth.
    destruct (nth_error ts i) as [q|] eqn:Hq; [| discriminate].
    injection Hnth as <-. cbn. f_equal. apply Qltb_lt. eauto.
  - intros i am Hi Hnth. rewrite map_map, nth_error_map in Hnth.
    destruct (nth_error ts i) as [q|] eqn:Hq; [| discriminate].
    injection Hnth as <-. cbn. f_equal. apply Qltb_ge. eauto.
  - rewrite !length_map. lia.
Qed.

Lemma nth_error_last {A : Type} (l : list A) (x d : A) :
  nth_error (x :: l) (length l) = Some (last (x :: l) d).
Proof.
  revert x. induction l as [|y l IH]; intros x; [reflexivity|].
  cbn [length nth_error]. rewrite (IH y). reflexivity.
Qed.

Lemma last_item_map {A : Type} (f : A -> value) (l : list A) (p : A) :
  nth_error l (length l - 1) = Some p ->
  last_item (map f l) = Ok (f p).
Proof.
  destruct l as [|x l]; [cbn; discriminate|].
  cbn [length]. rewrite Nat.sub_succ, Nat.sub_0_r. intros H.
  cbn [map last_item]. f_equal.
  pose proof (nth_error_last (map f l) (f x) (f x)) as Hl.
  rewrite length_map in Hl.
  change (f x :: map f l) with (map f (x :: l)) in Hl at 1.
  rewrite nth_error_map, H in Hl. cbn [option_map] in Hl. congruence.
Qed.

Lemma item_map {A B : Type} (f : A -> B) (l : list A) (i : nat) (p : A) :
  nth_error l i = Some p -> item (map f l) i = Ok (f p).
Proof. intros H. unfold item. rewrite nth_error_map, H. reflexivity. Qed.

(** What the forward query answers on a table of numbers sorted by its
    keys, in terms of the insertion point [k] of the query. *)
Lemma data_to_video_time_sorted (ts : list (Q * Q)) (rv : option by_video)
      (t : Q) :
  ts <> [] -> Sorted by_data ts ->
  exists k r,
    (forall i p, (i < k)%nat -> nth_error ts i = Some p -> fst p < t) /\
    (forall i p, (k <= i)%nat -> nth_error ts i = Some p -> t <= fst p) /\
    data_to_video_time
      (MapperState (map emb ts) (map fst (map emb ts))
                   (map snd (map emb ts)) rv) t = Ok (Some (VNum r)) /\
    ((k = 0%nat /\ exists p, nth_error ts 0 = Some p /\ r = snd p) \/
     (k = length ts /\
      exists p, nth_error ts (length ts - 1) = Some p /\ r = snd p) \/
     ((0 < k < length ts)%nat /\
      exists p0 p1,
        nth_error ts (k - 1) = Some p0 /\ nth_error ts k = Some p1 /\
        ((fst p1 == t /\ r = snd p1) \/
         (t < fst p1 /\ r = interpolate p0 p1 t)))).
Proof.
  intros Hne Hs.
  assert (Hlen : (0 < length ts)%nat)
    by (destruct ts; [congruence | cbn; lia]).
  unfold data_to_video_time.
  cbn [timestamps data_timestamps video_times].
  destruct (map emb ts) as [|e es] eqn:E;
    [destruct ts; [congruence | discriminate]|].
  rewrite <- E. clear e es E.
  destruct (bisect_left_keys ts t Hs) as (k & Hk & Hlo & Hhi & Hb).
  rewrite Hb. cbn [bind]. rewrite !length_map.
  destruct (Nat.eqb_spec k 0) as [->|Hk0].
  - destruct (nth_error ts 0) as [p|] eqn:Hp;
      [| apply nth_error_None in Hp; lia].
    exists 0%nat, (snd p). repeat split; auto.
    + rewrite map_map. rewrite (item_map _ ts 0 p Hp). reflexivity.
    + left. eauto.
  - destruct (Nat.leb_spec (length ts) k) as [Hge|Hlt].
    + destruct (nth_error ts (length ts - 1)) as [p|] eqn:Hp;
        [| apply nth_error_None in Hp; lia].
      exists k, (snd p). repeat split; auto.
      * rewrite map_map. rewrite (last_item_map _ ts p Hp). reflexivity.
      * right; left. split; [lia | eauto].
    + destruct (nth_error ts (k - 1)) as [p0|] eqn:Hp0;
        [| apply nth_error_None in Hp0; lia].
      destruct (nth_error ts k) as [p1|] eqn:Hp1;
        [| apply nth_error_None in Hp1; lia].
      rewrite (item_map emb ts _ p0 Hp0), (item_map emb ts _ p1 Hp1).
      cbn [bind emb v_eq].
      assert (H0 : fst p0 < t) by (apply (Hlo (k - 1)%nat); [lia | assumption]).
      assert (H1 : t <= fst p1) by (apply (Hhi k); [lia | assumption]).
      rewrite (Qeq_bool_false (fst p0) t) by lra.
      destruct (Qeq_bool (fst p1) t) eqn:E1.
      * apply Qeq_bool_iff in E1.
        exists k, (snd p1). repeat split; auto.
        right; right. split; [lia|]. exists p0, p1. auto.
      * apply Qeq_bool_neq in E1.
        rewrite (Qeq_bool_false (fst p1) (fst p0)) by lra.
        cbn [v_sub v_div bind].
        unfold div. rewrite (Qeq_bool_false (fst p1 - fst p0) 0) by lra.
        cbn [bind v_sub v_mul v_add].
        exists k, (interpolate p0 p1 t). repeat split; auto.
        right; right. split; [lia|]. exists p0, p1.
        repeat split; auto. right. split; [lra | reflexivity].
Qed.

Lemma interpolate_ratio (t0 t1 t : Q) :
  t0 < t -> t < t1 -> 0 < (t - t0) / (t1 - t0) < 1.
Proof.
  intros H0 H1. split.
  - apply Qlt_shift_div_l; lra.
  - apply Qlt_shift_div_r; lra.
Qed.

Lemma interpolate_between (p0 p1 : Q * Q) (t : Q) :
  fst p0 < t -> t < fst p1 ->
  Qmin (snd p0) (snd p1) <= interpolate p0 p1 t <= Qmax (snd p0) (snd p1) /\
  (~ snd p0 == snd p1 ->
   Qmin (snd p0) (snd p1) < interpolate p0 p1 t < Qmax (snd p0) (snd p1)).
Proof.
  intros H0 H1. unfold interpolate.
  pose proof (interpolate_ratio (fst p0) (fst p1) t H0 H1) as [Hr0 Hr1].
  set (ratio := (t - fst p0) / (fst p1 - fst p0)) in *.
  destruct (Qlt_le_dec (snd p1) (snd p0)) as [Hlt|Hle].
  - rewrite (Q.min_r (snd p0) (snd p1)), (Q.max_l (snd p0) (snd p1)) by lra.
    split; [| intros _]; split; nra.
  - rewrite (Q.min_l (snd p0) (snd p1)), (Q.max_r (snd p0) (snd p1)) by lra.
    split; [split; nra|]. intros Hne.
    assert (snd p0 < snd p1).
    { destruct (Qlt_le_dec (snd p0) (snd p1)); auto.
      exfalso. apply Hne. lra. }
    split; nra.
Qed.

Lemma in_snd (ts : list (Q * Q)) (p : Q * Q) :
  In p ts -> In (snd p) (map snd ts).
Proof. apply in_map. Qed.

Lemma within_one (ts : list (Q * Q)) (p : Q * Q) :
  In p ts -> within (map snd ts) (snd p).
Proof.
  intros Hp. exists (snd p), (snd p).
  repeat split; auto using in_snd; lra.
Qed.

Lemma within_two (ts : list (Q * Q)) (p0 p1 : Q * Q) (r : Q) :
  In p0 ts -> In p1 ts ->
  Qmin (snd p0) (snd p1) <= r <= Qmax (snd p0) (snd p1) ->
  within (map snd ts) r.
Proof.
  intros H0 H1 Hr.
  destruct (Qlt_le_dec (snd p1) (snd p0)) as [Hlt|Hle].
  - rewrite (Q.min_r (snd p0) (snd p1)), (Q.max_l (snd p0) (snd p1)) in Hr by lra.
    exists (snd p1), (snd p0). auto using in_snd.
  - rewrite (Q.min_l (snd p0) (snd p1)), (Q.max_r (snd p0) (snd p1)) in Hr by lra.
    exists (snd p0), (snd p1). auto using in_snd.
Qed.

(** The forward query on a sorted table of numbers, stated on the members
    of the table. *)
Lemma forward_query (ts : list (Q * Q)) (rv : option by_video) (t : Q) :
  ts <> [] -> Sorted by_data ts ->
  exists r,
    data_to_video_time
      (MapperState (map emb ts) (map fst (map emb ts))
                   (map snd (map emb ts)) rv) t = Ok (Some (VNum r)) /\
    within (map snd ts) r /\
    query_answer ts t r /\
    (forall p, In p ts -> fst p == t ->
       exists p', In p' ts /\ fst p' == t /\ r = snd p').
Proof.
  intros Hne Hs.
  destruct (data_to_video_time_sorted ts rv t Hne Hs)
    as (k & r & Hlo & Hhi & Hq & Hshape).
  pose proof (by_data_nth ts Hs) as Hord.
  assert (Hlen : (0 < length ts)%nat)
    by (destruct ts; [congruence | cbn; lia]).
  exists r. split; [exact Hq|].
  destruct Hshape as [(-> & p & Hp & ->) | [(-> & p & Hp & ->) |
                      (Hk & p0 & p1 & Hp0 & Hp1 & Hbranch)]].
  - (* at or before the first anchor *)
    pose proof (nth_error_In _ _ Hp) as Hin.
    pose proof (Hhi 0%nat p (Nat.le_refl 0) Hp) as Htp.
    split; [apply within_one; assumption|]. split; [repeat split|].
    + intros _. exists p. repeat split; auto.
      intros q Hq'. destruct (In_nth_error _ _ Hq') as [j Hj].
      apply (Hord 0%nat j p q); auto; lia.
    + intros Hall. specialize (Hall p Hin). lra.
    + intros (q & Hq' & Hqt) _. destruct (In_nth_error _ _ Hq') as [j Hj].
      pose proof (Hhi j q (Nat.le_0_l j) Hj). lra.
    + intros q Hq' Hqt. exists p. repeat split; auto.
      destruct (In_nth_error _ _ Hq') as [j Hj].
      pose proof (Hord 0%nat j p q (Nat.le_0_l j) Hp Hj). lra.
  - (* after the last anchor *)
    pose proof (nth_error_In _ _ Hp) as Hin.
    assert (Hpt : fst p < t) by (apply (Hlo (length ts - 1)%nat); [lia | assumption]).
    split; [apply within_one; assumption|]. split; [repeat split|].
    + intros Hall. specialize (Hall p Hin). lra.
    + intros _. exists p. repeat split; auto.
      intros q Hq'. destruct (In_nth_error _ _ Hq') as [j Hj].
      assert (j < length ts)%nat by (apply nth_error_Some; congruence).
      apply (Hord j (length ts - 1)%nat q p); auto; lia.
    + intros _ (q & Hq' & Hqt). destruct (In_nth_error _ _ Hq') as [j Hj].
      assert (j < length ts)%nat by (apply nth_error_Some; congruence).
      pose proof (Hlo j q H Hj). lra.
    + intros q Hq' Hqt. destruct (In_nth_error _ _ Hq') as [j Hj].
      assert (j < length ts)%nat by (apply nth_error_Some; congruence).
      pose proof (Hlo j q H Hj). lra.
  - (* between two anchors *)
    pose proof (nth_error_In _ _ Hp0) as Hin0.
    pose proof (nth_error_In _ _ Hp1) as Hin1.
    assert (H0 : fst p0 < t) by (apply (Hlo (k - 1)%nat); [lia | assumption]).
    assert (H1 : t <= fst p1) by (apply (Hhi k); [lia | assumption]).
    assert (Hgap : forall q, In q ts -> fst q <= fst p0 \/ fst p1 <= fst q).
    { intros q Hq'. destruct (In_nth_error _ _ Hq') as [j Hj].
      destruct (Nat.lt_ge_cases j k) as [Hjk|Hjk].
      - left. apply (Hord j (k - 1)%nat q p0); auto; lia.
      - right. apply (Hord k j p1 q); auto. }
    assert (Hfine :
      (fst p1 == t /\ r = snd p1) \/
      (t < fst p1 /\ r = interpolate p0 p1 t /\
       Qmin (snd p0) (snd p1) <= r <= Qmax (snd p0) (snd p1) /\
       (~ snd p0 == snd p1 ->
        Qmin (snd p0) (snd p1) < r < Qmax (snd p0) (snd p1)))).
    { destruct Hbranch as [[He ->] | [Hlt ->]]; [left; auto|].
      right. destruct (interpolate_between p0 p1 t H0 Hlt) as [Hb1 Hb2].
      auto. }
    split; [| split; [repeat split|]].
    + destruct Hfine as [[_ ->] | (_ & _ & Hb & _)].
      * apply within_one; assumption.
      * apply (within_two ts p0 p1); assumption.
    + intros Hall. specialize (Hall p0 Hin0). lra.
    + intros Hall. specialize (Hall p1 Hin1). lra.
    + intros _ _. exists p0, p1. repeat split; auto.
    + intros q Hq' Hqt. exists p1.
      destruct (Hgap q Hq') as [Hq0|Hq1]; [lra|].
      destruct Hfine as [[He ->] | (Hlt & _)]; [auto | lra].
Qed.

Lemma swap_keys (tsv : list (Q * Q)) :
  map fst (map emb (map swapQ tsv)) = map snd (map emb tsv).
Proof. rewrite !map_map. apply map_ext. intros [a b]. reflexivity. Qed.

Lemma swap_values (tsv : list (Q * Q)) :
  map snd (map emb (map swapQ tsv)) = map fst (map emb tsv).
Proof. rewrite !map_map. apply map_ext. intros [a b]. reflexivity. Qed.

(** The reverse query is the forward query on the table read the other
    way round. *)
Lemma video_to_data_time_swap (ts tsv : list (Q * Q)) (t : Q) :
  ts <> [] -> tsv <> [] ->
  video_to_data_time (loaded ts tsv) t =
  data_to_video_time
    (MapperState (map emb (map swapQ tsv))
                 (map fst (map emb (map swapQ tsv)))
                 (map snd (map emb (map swapQ tsv))) None) t.
Proof.
  intros Hts Htsv.
  unfold video_to_data_time, data_to_video_time, loaded.
  cbn [timestamps data_timestamps video_times reverse
       timestamps_by_video video_times_sorted data_timestamps_by_video].
  rewrite swap_keys, swap_values.
  destruct (map emb ts) as [|e1 es1] eqn:E1;
    [destruct ts; [congruence | discriminate]|].
  destruct (map emb (map swapQ tsv)) as [|e2 es2] eqn:E2;
    [destruct tsv; [congruence | discriminate]|].
  rewrite <- E2. clear E1 E2 e1 es1 e2 es2.
  destruct (bisect_left v_lt (map snd (map emb tsv)) (VNum t)) as [idx|e];
    [| reflexivity].
  cbn [bind]. rewrite !length_map.
  destruct (idx =? 0)%nat; [reflexivity|].
  destruct (length tsv <=? idx)%nat; [reflexivity|].
  unfold item. rewrite !nth_error_map.
  destruct (nth_error tsv (idx - 1)) as [[d0 v0]|]; [| reflexivity].
  destruct (nth_error tsv idx) as [[d1 v1]|]; reflexivity.
Qed.

Lemma swap_sorted (tsv : list (Q * Q)) :
  Sorted by_video_time tsv -> Sorted by_data (map swapQ tsv).
Proof.
  induction 1 as [|x l Hs IH Hhd]; cbn; constructor; auto.
  destruct Hhd; cbn; constructor. exact H.
Qed.

Lemma in_swap (l : list (Q * Q)) (p : Q * Q) :
  In p (map swapQ l) <-> In (swapQ p) l.
Proof.
  rewrite in_map_iff. split.
  - intros ([a b] & <- & H). exact H.
  - intros H. exists (swapQ p). destruct p; auto.
Qed.

Lemma within_perm (l l' : list Q) (r : Q) :
  (forall x, In x l -> In x l') -> within l r -> within l' r.
Proof.
  intros H (lo & hi & Hlo & Hhi & Hr). exists lo, hi. auto.
Qed.

Lemma query_answer_perm (l l' : list (Q * Q)) (t r : Q) :
  (forall p, In p l <-> In p l') ->
  query_answer l t r -> query_answer l' t r.
Proof.
  intros H (Hbefore & Hafter & Hinside). repeat split.
  - intros Hall.
    destruct Hbefore as (p & Hp & Hr & Hmin).
    { intros p Hp. apply Hall, H, Hp. }
    exists p. repeat split; auto.
    + apply H, Hp.
    + intros q Hq. apply Hmin, H, Hq.
  - intros Hall.
    destruct Hafter as (p & Hp & Hr & Hmax).
    { intros p Hp. apply Hall, H, Hp. }
    exists p. repeat split; auto.
    + apply H, Hp.
    + intros q Hq. apply Hmax, H, Hq.
  - intros (q0 & Hq0 & Hlt) (q1 & Hq1 & Hge).
    destruct Hinside as (p0 & p1 & Hp0 & Hp1 & H0 & H1 & Hgap & Hfine).
    { exists q0. split; [apply H, Hq0 | exact Hlt]. }
    { exists q1. split; [apply H, Hq1 | exact Hge]. }
    exists p0, p1. repeat split; auto.
    + apply H, Hp0.
    + apply H, Hp1.
    + intros q Hq. apply Hgap, H, Hq.
Qed.

Lemma perm_in_iff {A : Type} (l l' : list A) :
  Permutation l l' -> forall p, In p l <-> In p l'.
Proof.
  intros HP p. split; apply Permutation_in; [| symmetry]; exact HP.
Qed.

Lemma perm_nonempty {A : Type} (l l' : list A) :
  Permutation l l' -> l <> [] -> l' <> [].
Proof.
  intros HP Hne ->. apply Permutation_sym, Permutation_nil in HP.
  contradiction.
Qed.

(** The two queries on a mapper loaded from a table of numbers. *)
Lemma loaded_queries (anchors : list (Q * Q)) (t : Q) :
  anchors <> [] ->
  is_available (new (numeric_source anchors)) = true /\
  (exists r,
     data_to_video_time (new (numeric_source anchors)) t
       = Ok (Some (VNum r)) /\
     within (map snd anchors) r /\
     query_answer anchors t r /\
     (forall p, In p anchors -> fst p == t ->
        exists p', In p' anchors /\ fst p' == t /\ r = snd p')) /\
  (exists r,
     video_to_data_time (new (numeric_source anchors)) t
       = Ok (Some (VNum r)) /\
     within (map fst anchors) r /\
     query_answer (map swapQ anchors) t r /\
     (forall p, In p anchors -> snd p == t ->
        exists p', In p' anchors /\ snd p' == t /\ r = fst p')).
Proof.
  intros Hne.
  destruct (new_numeric anchors) as (ts & tsv & -> & Hp1 & Hp2 & Hs1 & Hs2).
  pose proof (perm_nonempty _ _ Hp1 Hne) as Hts.
  pose proof (perm_nonempty _ _ Hp2 Hne) as Htsv.
  pose proof (perm_in_iff _ _ Hp1) as Hin1.
  pose proof (perm_in_iff _ _ Hp2) as Hin2.
  split; [| split].
  - unfold is_available, loaded; cbn [timestamps]. rewrite length_map.
    destruct ts; [congruence | reflexivity].
  - destruct (forward_query ts
                (Some (ByVideo (map emb tsv) (map snd (map emb tsv))
                               (map fst (map emb tsv)))) t Hts Hs1)
      as (r & Hq & Hw & Ha & He).
    exists r. split; [exact Hq|]. split; [| split].
    + apply (within_perm (map snd ts)); auto.
      intros x Hx. apply in_map_iff in Hx. destruct Hx as (p & <- & Hp).
      apply in_map, Hin1, Hp.
    + apply (query_answer_perm ts); auto. intros p. symmetry. apply Hin1.
    + intros p Hp Hpt. destruct (He p (proj1 (Hin1 p) Hp) Hpt) as (p' & Hp' & H1 & H2).
      exists p'. split; [apply Hin1, Hp' | auto].
  - rewrite (video_to_data_time_swap ts tsv t Hts Htsv).
    assert (Hsw : map swapQ tsv <> [])
      by (destruct tsv; [congruence | discriminate]).
    destruct (forward_query (map swapQ tsv) None t Hsw (swap_sorted tsv Hs2))
      as (r & Hq & Hw & Ha & He).
    exists r. split; [exact Hq|]. split; [| split].
    + apply (within_perm (map snd (map swapQ tsv))); auto.
      intros x Hx. apply in_map_iff in Hx. destruct Hx as (p & <- & Hp).
      apply in_swap in Hp. apply Hin2 in Hp.
      apply in_map_iff. exists (swapQ p). split; [destruct p; reflexivity | exact Hp].
    + apply (query_answer_perm (map swapQ tsv)); auto.
      intros p. rewrite !in_swap. symmetry. apply Hin2.
    + intros p Hp Hpt.
      destruct (He (swapQ p)) as (p' & Hp' & H1 & H2).
      * apply in_swap. destruct p. apply Hin2, Hp.
      * destruct p; exact Hpt.
      * exists (swapQ p'). split; [| split].
        -- apply Hin2, in_swap, Hp'.
        -- destruct p'; exact H1.
        -- destruct p'; exact H2.
Qed.

(** The answers of both queries on a mapper loaded from a table of numbers,
    as far as they involve no arithmetic. *)
Lemma loaded_anchored (anchors : list (Q * Q)) (t : Q) :
  anchors <> [] ->
  is_available (new (numeric_source anchors)) = true /\
  (exists r,
     data_to_video_time (new (numeric_source anchors)) t
       = Ok (Some (VNum r)) /\
     anchored_answer anchors t r) /\
  (exists r,
     video_to_data_time (new (numeric_source anchors)) t
       = Ok (Some (VNum r)) /\
     anchored_answer (map swapQ anchors) t r).
Proof.
  intros Hne.
  destruct (loaded_queries anchors t Hne)
    as (Hav & (r1 & Hq1 & _ & (Hb1 & Ha1 & _) & Hh1)
            & (r2 & Hq2 & _ & (Hb2 & Ha2 & _) & Hh2)).
  split; [exact Hav|]. split.
  - exists r1. split; [exact Hq1|]. split; [exact Hb1|]. split; [exact Ha1|].
    intros (p & Hp & Hpt). exact (Hh1 p Hp Hpt).
  - exists r2. split; [exact Hq2|]. split; [exact Hb2|]. split; [exact Ha2|].
    intros (p & Hp & Hpt). apply in_swap in Hp.
    destruct (Hh2 (swapQ p) Hp) as (p' & Hp' & Hk & Hr).
    + destruct p; exact Hpt.
    + exists (swapQ p'). split; [apply in_swap; destruct p'; exact Hp'|].
      split; [exact Hk | exact Hr].
Qed.





(** C6 (as amended).  For an anchor [(a, b)] of a table of numbers: if
    every anchor with telemetry time [a] has video time [b], the forward
    query at [a] answers [b]; if every anchor with video time [b] has
    telemetry time [a], the reverse query at [b] answers [a].  The answer
    is the stored number, no arithmetic is done on it. *)
Theorem anchor_round_trip (anchors : list (Q * Q)) (a b : Q) :
  In (a, b) anchors ->
  ((forall a' b', In (a', b') anchors -> a' == a -> b' == b) ->
   exists r,
     data_to_video_time (new (numeric_source anchors)) a
       = Ok (Some (VNum r)) /\ r == b /\ In r (map snd anchors)) /\
  ((forall a' b', In (a', b') anchors -> b' == b -> a' == a) ->
   exists r,
     video_to_data_time (new (numeric_source anchors)) b
       = Ok (Some (VNum r)) /\ r == a /\ In r (map fst anchors)).
Proof.
  intros Hin.
  assert (Hne : anchors <> []) by (intros ->; contradiction).
  split; intros Huniq.
  - destruct (loaded_queries anchors a Hne)
      as (_ & (r & Hq & _ & _ & He) & _).
    destruct (He (a, b) Hin (Qeq_refl a)) as ([a' b'] & Hp' & Ha' & ->).
    exists b'. split; [exact Hq|]. split.
    + apply (Huniq a' b' Hp' Ha').
    + apply (in_map snd _ _ Hp').
  - destruct (loaded_queries anchors b Hne)
      as (_ & _ & (r & Hq & _ & _ & He)).
    destruct (He (a, b) Hin (Qeq_refl b)) as ([a' b'] & Hp' & Hb' & ->).
    exists a'. split; [exact Hq|]. split.
    + apply (Huniq a' b' Hp' Hb').
    + apply (in_map fst _ _ Hp').
Qed.

Lemma anchor_round_trip_witness :
  (exists r,
     data_to_video_time (new (numeric_source [(1, 10); (2, 20)])) 1
       = Ok (Some (VNum r)) /\ r == 10) /\
  (exists r,
     video_to_data_time (new (numeric_source [(1, 10); (2, 20)])) 10
       = Ok (Some (VNum r)) /\ r == 1).
Proof.
  destruct (anchor_round_trip [(1, 10); (2, 20)] 1 10) as [Hf Hr].
  - left. reflexivity.
  - split.
    + destruct Hf as (r & Hq & Hr' & _).
      * intros a' b' Hin' Heq.
        destruct Hin' as [E|[E|[]]]; injection E as <- <-.
        -- reflexivity.
        -- vm_compute in Heq. discriminate.
      * exists r. auto.
    + destruct Hr as (r & Hq & Hr' & _).
      * intros a' b' Hin' Heq.
        destruct Hin' as [E|[E|[]]]; injection E as <- <-.
        -- reflexivity.
        -- vm_compute in Heq. discriminate.
      * exists r. auto.
Defined.

(** C6 fails as stated: when two anchors share a telemetry time (or a
    video time) the query answers one of them only.  With anchors
    [(1, 10)] and [(1, 20)] the forward query at 1 answers 10, not 20;
    with anchors [(1, 10)] and [(2, 10)] the reverse query at 10 answers
    1, not 2. *)
Lemma anchor_round_trip_shared_key :
  In (1, 20) [(1, 10); (1, 20)] /\
  data_to_video_time (new (numeric_source [(1, 10); (1, 20)])) 1
    = Ok (Some (VNum 10)) /\
  ~ 10 == 20 /\
  In (2, 10) [(1, 10); (2, 10)] /\
  video_to_data_time (new (numeric_source [(1, 10); (2, 10)])) 10
    = Ok (Some (VNum 1)) /\
  ~ 1 == 2.
Proof.
  repeat split.
  - right; left; reflexivity.
  - intros H; vm_compute in H; discriminate.
  - right; left; reflexivity.
  - intros H; vm_compute in H; discriminate.
Qed.

End MapperFacts.

(* ================================================================== *)
(** * The sample store: frames and columns *)
(* ================================================================== *)

Module StoreFacts.
Import DataProcessor PyFacts DataProcessorFacts.

(** What [get_data_at_index] builds from the row at an index inside the
    store, provided [from_quat] accepts both quaternions. *)
Lemma get_data_at_index_valid (dl : data_list) (i ns : Z) (r : row) :
  (0 <= i < get_data_count dl)%Z ->
  nth_error dl (Z.to_nat i) = Some (ns, r) ->
  valid_row r ->
  exists f,
    get_data_at_index dl i = Ok (Some f) /\
    index f = i /\ timestamp_ns f = ns /\
    timestamp_seconds f = total_seconds ns /\
    VLAT f = lat r /\ VLON f = lon r /\ VALT f = alt r.
Proof.
  intros Hi Hnth [Hv Hh].
  rewrite (get_data_at_index_in_range dl i ns r Hi Hnth).
  rewrite (RotationFacts.from_quat_ok _ Hh), (RotationFacts.from_quat_ok _ Hv).
  cbn [bind].
  rewrite RotationFacts.mul_unit
    by (apply RotationFacts.norm_scale_norm; assumption).
  cbn [bind]. eexists. split; [reflexivity|]. cbn. repeat split.
Qed.

Lemma nth_error_in_store (dl : data_list) (i : Z) :
  (0 <= i < get_data_count dl)%Z ->
  exists ns r, nth_error dl (Z.to_nat i) = Some (ns, r) /\ In (ns, r) dl.
Proof.
  unfold get_data_count. intros Hi.
  destruct (nth_error dl (Z.to_nat i)) as [[ns r]|] eqn:E.
  - exists ns, r. split; [reflexivity|]. eapply nth_error_In; eauto.
  - apply nth_error_None in E. lia.
Qed.

Lemma level_store_valid (stamps : list Z) : valid_store (store_of stamps).
Proof.
  intros ns r Hin. unfold store_of in Hin. apply in_map_iff in Hin.
  destruct Hin as (x & [= _ <-] & _). exact level_row_norms.
Qed.




(** A frame comes from a row of the store. *)
Lemma frame_origin (dl : data_list) (i : Z) (f : frame) :
  get_data_at_index dl i = Ok (Some f) ->
  (0 <= i < get_data_count dl)%Z /\
  exists ns r helmet_corrected vehicle_world helmet_world,
    nth_error dl (Z.to_nat i) = Some (ns, r) /\
    Rotation.from_quat (helmet_quat r) = Ok helmet_corrected /\
    Rotation.from_quat (vehicle_quat r) = Ok vehicle_world /\
    Rotation.mul vehicle_world helmet_corrected = Ok helmet_world /\
    f = {| index := i;
           timestamp_seconds := total_seconds ns;
           timestamp_ns := ns;
           VQ := vehicle_world;
           HQ := helmet_world;
           VLAT := lat r; VLON := lon r; VALT := alt r;
           VVN := north r; VVE := east r; VVD := down r;
           VINS := match mode r with Some m => m | None => 0%Z end;
           GSPEED := sqrt (north r ^ 2 + east r ^ 2 + down r ^ 2)%R |}.
Proof.
  unfold get_data_at_index.
  destruct (Z.ltb_spec i 0); [discriminate|].
  destruct (Z.leb_spec (get_data_count dl) i); [discriminate|].
  cbn [orb].
  destruct (nth_error dl (Z.to_nat i)) as [[ns r]|] eqn:Hn; [| discriminate].
  destruct (Rotation.from_quat (helmet_quat r)) as [hc|] eqn:Hh;
    [| discriminate].
  destruct (Rotation.from_quat (vehicle_quat r)) as [vw|] eqn:Hv;
    [| discriminate].
  cbn [bind].
  destruct (Rotation.mul vw hc) as [hw|] eqn:Hm; [| discriminate].
  cbn [bind]. intros [= <-].
  split; [lia|]. exists ns, r, hc, vw, hw. repeat split; auto.
Qed.

Lemma level_frame (i : Z) :
  (0 <= i < get_data_count level_store)%Z ->
  exists f, get_data_at_index level_store i = Ok (Some f) /\ index f = i.
Proof.
  intros Hi.
  destruct (nth_error_in_store level_store i Hi) as (ns & r & Hnth & HIn).
  destruct (get_data_at_index_valid level_store i ns r Hi Hnth
              (level_store_valid _ ns r HIn)) as (f & Hf & Hidx & _).
  exists f. auto.
Qed.

(** X7.  The three lists of [get_all_path_data] have one entry per sample; at
    the position of an index they hold the latitude, longitude and altitude of
    the frame [get_data_at_index] returns for that index. *)
Theorem path_columns_agree (dl : data_list) :
  length (lats (get_all_path_data dl)) = length dl /\
  length (lons (get_all_path_data dl)) = length dl /\
  length (alts (get_all_path_data dl)) = length dl /\
  forall i f,
    get_data_at_index dl i = Ok (Some f) ->
    nth_error (lats (get_all_path_data dl)) (Z.to_nat i) = Some (VLAT f) /\
    nth_error (lons (get_all_path_data dl)) (Z.to_nat i) = Some (VLON f) /\
    nth_error (alts (get_all_path_data dl)) (Z.to_nat i) = Some (VALT f).
Proof.
  unfold get_all_path_data; cbn [lats lons alts].
  rewrite !length_map.
  split; [reflexivity|]. split; [reflexivity|]. split; [reflexivity|].
  intros i f Hf.
  destruct (frame_origin dl i f Hf)
    as (_ & ns & r & hc & vw & hw & Hnth & _ & _ & _ & ->).
  rewrite !nth_error_map, Hnth. repeat split.
Qed.

Lemma path_columns_agree_witness :
  exists f,
    get_data_at_index level_store 2 = Ok (Some f) /\
    nth_error (lats (get_all_path_data level_store)) 2 = Some (VLAT f).
Proof.
  destruct (level_frame 2) as (f & Hf & _);
    [unfold get_data_count; simpl; lia|].
  exists f. split; [exact Hf|].
  destruct (path_columns_agree level_store) as (_ & _ & _ & H).
  exact (proj1 (H 2%Z f Hf)).
Defined.

End StoreFacts.

(* ================================================================== *)
(** * The timestamp index: nearest sample *)
(* ================================================================== *)

Module IndexFacts.
Import DataProcessor PyFacts DataProcessorFacts StoreFacts.

(** The search on an ascending store answers a nearest sample. *)
Lemma nearest_from_ns (dl : data_list) (t : Z) :
  dl <> [] ->
  Sorted Z.le (timestamp_ns_list_of dl) ->
  exists r x,
    find_index_from_ns dl t = Ok (Some r) /\
    nth_error (timestamp_ns_list_of dl) r = Some x /\
    forall j y, nth_error (timestamp_ns_list_of dl) j = Some y ->
                (Z.abs (x - t) <= Z.abs (y - t))%Z.
Proof.
  intros Hne Hs.
  set (ts := timestamp_ns_list_of dl) in *.
  assert (Hlen : 0 < length ts).
  { unfold ts, timestamp_ns_list_of. rewrite length_map.
    destruct dl; [congruence | simpl; lia]. }
  destruct (insertion_point_exists ts t Hs) as (k & Hk & Hlo & Hhi & Hb).
  pose proof (sorted_nth_le ts Hs) as Hord.
  rewrite (find_index_from_insertion_point dl t k Hne Hb).
  cbv zeta. fold ts.
  destruct (Nat.eqb_spec k 0) as [->|Hk0].
  - destruct (nth_error ts 0) as [x|] eqn:Hx;
      [| apply nth_error_None in Hx; lia].
    exists 0, x. repeat split; auto.
    intros j y Hy.
    pose proof (Hhi 0 x (Nat.le_refl 0) Hx).
    pose proof (Hord 0 j x y (Nat.le_0_l j) Hx Hy). lia.
  - destruct (Nat.leb_spec (length ts) k) as [Hge|Hlt].
    + destruct (nth_error ts (length ts - 1)) as [x|] eqn:Hx;
        [| apply nth_error_None in Hx; lia].
      exists (length ts - 1), x. repeat split; auto.
      intros j y Hy.
      assert (Hj : j < length ts) by (apply nth_error_Some; congruence).
      assert (x < t)%Z by (apply (Hlo (length ts - 1) x); [lia | assumption]).
      assert (y <= x)%Z by (apply (Hord j (length ts - 1) y x); auto; lia).
      lia.
    + destruct (nth_error ts (k - 1)) as [p|] eqn:Hp;
        [| apply nth_error_None in Hp; lia].
      destruct (nth_error ts k) as [n|] eqn:Hn;
        [| apply nth_error_None in Hn; lia].
      assert (Hpt : (p < t)%Z) by (apply (Hlo (k - 1) p); [lia | assumption]).
      assert (Hnt : (t <= n)%Z) by (apply (Hhi k n); [lia | assumption]).
      assert (Hall : forall j y, nth_error ts j = Some y ->
                (t - p <= Z.abs (y - t) /\ p < t \/
                 n - t <= Z.abs (y - t))%Z).
      { intros j y Hy. destruct (Nat.lt_ge_cases j k) as [Hjk|Hjk].
        - left. assert (y <= p)%Z by (apply (Hord j (k - 1) y p); auto; lia).
          lia.
        - right. assert (n <= y)%Z by (apply (Hord k j n y); auto). lia. }
      unfold abs_diff.
      destruct (Z.ltb_spec (Z.abs (p - t)) (Z.abs (n - t))).
      * exists (k - 1), p. repeat split; auto.
        intros j y Hy. destruct (Hall j y Hy); lia.
      * exists k, n. repeat split; auto.
        intros j y Hy. destruct (Hall j y Hy); lia.
Qed.


(** X1.  On a non-empty store whose timestamps ascend, a target that the
    conversion turns into a number of nanoseconds is answered with an index
    whose timestamp is at least as close to that number as the timestamp of
    every other sample. *)
Theorem find_index_nearest (to_timedelta : Q -> result Z)
        (dl : data_list) (seconds : Q) (t : Z) :
  dl <> [] ->
  Sorted Z.le (timestamp_ns_list_of dl) ->
  to_timedelta seconds = Ok t ->
  exists r x,
    find_index_for_timestamp to_timedelta dl seconds = Ok (Some r) /\
    nth_error (timestamp_ns_list_of dl) r = Some x /\
    forall j y, nth_error (timestamp_ns_list_of dl) j = Some y ->
                (Z.abs (x - t) <= Z.abs (y - t))%Z.
Proof.
  intros Hne Hs Ht.
  rewrite (find_index_converted to_timedelta dl seconds t Hne Ht).
  exact (nearest_from_ns dl t Hne Hs).
Qed.

Lemma find_index_nearest_witness :
  exists r x,
    find_index_for_timestamp (fun s => Ok (Qfloor (s * 1000000000)%Q))
      (store_of [0; 1000000000; 3000000000]%Z) (5 # 4)%Q = Ok (Some r) /\
    nth_error [0; 1000000000; 3000000000]%Z r = Some x /\
    (Z.abs (x - 1250000000) <= Z.abs (3000000000 - 1250000000))%Z.
Proof.
  destruct (find_index_nearest (fun s => Ok (Qfloor (s * 1000000000)%Q))
              (store_of [0; 1000000000; 3000000000]%Z) (5 # 4)%Q
              1250000000%Z)
    as (r & x & Hr & Hx & Hall).
  - discriminate.
  - cbn [store_of timestamp_ns_list_of map fst]. repeat constructor; lia.
  - reflexivity.
  - exists r, x. split; [exact Hr|]. split; [exact Hx|].
    apply (Hall 2). reflexivity.
Defined.

(** The search for a value outside the recorded range. *)
Lemma clamps_from_ns (dl : data_list) (t first last : Z) :
  Sorted Z.le (timestamp_ns_list_of dl) ->
  nth_error (timestamp_ns_list_of dl) 0 = Some first ->
  nth_error (timestamp_ns_list_of dl) (length dl - 1) = Some last ->
  ((t <= first)%Z -> find_index_from_ns dl t = Ok (Some 0)) /\
  ((last < t)%Z -> find_index_from_ns dl t = Ok (Some (length dl - 1))).
Proof.
  intros Hs Hfirst Hlast.
  pose proof (stamps_nonempty dl 0 first Hfirst) as Hne.
  set (ts := timestamp_ns_list_of dl) in *.
  assert (Hlts : length ts = length dl) by apply length_map.
  destruct (insertion_point_exists ts t Hs) as (k & Hk & Hlo & Hhi & Hb).
  rewrite (find_index_from_insertion_point dl t k Hne Hb).
  cbv zeta. fold ts. split; intros Ht.
  - destruct (Nat.eqb_spec k 0) as [|Hk0]; [reflexivity|].
    assert (first < t)%Z by (apply (Hlo 0 first); [lia | assumption]). lia.
  - assert (Hkl : k = length ts).
    { destruct (Nat.eq_dec k (length ts)) as [|Hneq]; auto.
      assert (t <= last)%Z by (apply (Hhi (length dl - 1) last); [lia | assumption]).
      lia. }
    assert (0 < length ts).
    { destruct ts; [destruct dl; [congruence | discriminate] | simpl; lia]. }
    destruct (Nat.eqb_spec k 0); [lia|].
    destruct (Nat.leb_spec (length ts) k); [| lia].
    rewrite Hlts. reflexivity.
Qed.


(** X2.  On a store whose timestamps ascend, a target that the conversion
    turns into at most the first timestamp is answered with index 0, and a
    target that it turns into more than the last timestamp with the last
    index. *)
Theorem find_index_clamps (to_timedelta : Q -> result Z)
        (dl : data_list) (seconds : Q) (t first last : Z) :
  Sorted Z.le (timestamp_ns_list_of dl) ->
  nth_error (timestamp_ns_list_of dl) 0 = Some first ->
  nth_error (timestamp_ns_list_of dl) (length dl - 1) = Some last ->
  to_timedelta seconds = Ok t ->
  ((t <= first)%Z ->
   find_index_for_timestamp to_timedelta dl seconds = Ok (Some 0)) /\
  ((last < t)%Z ->
   find_index_for_timestamp to_timedelta dl seconds
     = Ok (Some (length dl - 1))).
Proof.
  intros Hs Hfirst Hlast Ht.
  rewrite (find_index_converted to_timedelta dl seconds t
             (stamps_nonempty dl 0 first Hfirst) Ht).
  exact (clamps_from_ns dl t first last Hs Hfirst Hlast).
Qed.

Lemma find_index_clamps_witness :
  find_index_for_timestamp (fun s => Ok (Qfloor (s * 1000000000)%Q))
    (store_of [10000000000; 20000000000; 30000000000]%Z) 5%Q = Ok (Some 0) /\
  find_index_for_timestamp (fun s => Ok (Qfloor (s * 1000000000)%Q))
    (store_of [10000000000; 20000000000; 30000000000]%Z) 99%Q = Ok (Some 2).
Proof.
  destruct (find_index_clamps (fun s => Ok (Qfloor (s * 1000000000)%Q))
              (store_of [10000000000; 20000000000; 30000000000]%Z) 5%Q
              5000000000%Z 10000000000%Z 30000000000%Z)
    as [Hlow _];
    [cbn [store_of timestamp_ns_list_of map fst]; repeat constructor; lia
    | reflexivity | reflexivity | reflexivity |].
  destruct (find_index_clamps (fun s => Ok (Qfloor (s * 1000000000)%Q))
              (store_of [10000000000; 20000000000; 30000000000]%Z) 99%Q
              99000000000%Z 10000000000%Z 30000000000%Z)
    as [_ Hhigh];
    [cbn [store_of timestamp_ns_list_of map fst]; repeat constructor; lia
    | reflexivity | reflexivity | reflexivity |].
  split; [apply Hlow | apply Hhigh]; lia.
Defined.

(** The index the lookup answers lies inside the store, ascending or not. *)
Lemma find_index_some_in_range (dl : data_list) (t : Z) :
  dl <> [] ->
  exists i, find_index_from_ns dl t = Ok (Some i) /\ i < length dl.
Proof.
  intros Hne.
  set (ts := timestamp_ns_list_of dl).
  assert (Hlts : length ts = length dl) by apply length_map.
  assert (Hlen : 0 < length ts).
  { rewrite Hlts. destruct dl; [congruence | simpl; lia]. }
  destruct (bisect_loop_range int_lt ts t
              (fun am _ => ex_intro _ (am <? t)%Z eq_refl)
              (length ts) 0 (length ts)) as (k & Hk & Hrange); try lia.
  fold (bisect_left int_lt ts t) in Hk.
  rewrite (find_index_from_insertion_point dl t k Hne Hk).
  cbv zeta. fold ts.
  destruct (Nat.eqb_spec k 0); [exists 0; split; [reflexivity | lia]|].
  destruct (Nat.leb_spec (length ts) k);
    [exists (length ts - 1); split; [reflexivity | lia]|].
  destruct (nth_error ts (k - 1)) as [p|] eqn:Hp;
    [| apply nth_error_None in Hp; lia].
  destruct (nth_error ts k) as [n'|] eqn:Hn;
    [| apply nth_error_None in Hn; lia].
  destruct (abs_diff p t <? abs_diff n' t)%Z;
    eexists; (split; [reflexivity | lia]).
Qed.

(** What the search finds can be fetched. *)
Lemma found_from_ns (dl : data_list) (t : Z) :
  dl <> [] -> valid_store dl ->
  exists i f,
    find_index_from_ns dl t = Ok (Some i) /\
    get_data_at_index dl (Z.of_nat i) = Ok (Some f) /\
    index f = Z.of_nat i /\
    nth_error (timestamp_ns_list_of dl) i = Some (timestamp_ns f).
Proof.
  intros Hne Hvalid.
  destruct (find_index_some_in_range dl t Hne) as (i & Hi & Hlt).
  assert (Hrange : (0 <= Z.of_nat i < get_data_count dl)%Z)
    by (unfold get_data_count; lia).
  destruct (nth_error_in_store dl _ Hrange) as (ns & r & Hnth & HIn).
  destruct (get_data_at_index_valid dl _ ns r Hrange Hnth (Hvalid ns r HIn))
    as (f & Hf & Hidx & Hns & _).
  exists i, f. repeat split; auto.
  rewrite Nat2Z.id in Hnth.
  unfold timestamp_ns_list_of. rewrite nth_error_map, Hnth, Hns. reflexivity.
Qed.


(** X3.  On a non-empty store whose rows all hold usable quaternions, for a
    target that the conversion accepts, the index the lookup answers
    (timestamps ascending or not) can be fetched: [get_data_at_index]
    returns a frame that carries this index and the timestamp stored
    there. *)
Theorem found_index_has_data (to_timedelta : Q -> result Z)
        (dl : data_list) (seconds : Q) (t : Z) :
  dl <> [] -> valid_store dl ->
  to_timedelta seconds = Ok t ->
  exists i f,
    find_index_for_timestamp to_timedelta dl seconds = Ok (Some i) /\
    get_data_at_index dl (Z.of_nat i) = Ok (Some f) /\
    index f = Z.of_nat i /\
    nth_error (timestamp_ns_list_of dl) i = Some (timestamp_ns f).
Proof.
  intros Hne Hvalid Ht.
  rewrite (find_index_converted to_timedelta dl seconds t Hne Ht).
  exact (found_from_ns dl t Hne Hvalid).
Qed.

Lemma found_index_has_data_witness :
  exists i f,
    find_index_for_timestamp (fun s => Ok (Qfloor (s * 1000000000)%Q)) level_store 1%Q = Ok (Some i) /\
    get_data_at_index level_store (Z.of_nat i) = Ok (Some f).
Proof.
  destruct (found_index_has_data (fun s => Ok (Qfloor (s * 1000000000)%Q)) level_store 1%Q 1000000000%Z)
    as (i & f & Hi & Hf & _).
  - discriminate.
  - apply level_store_valid.
  - reflexivity.
  - exists i, f. auto.
Defined.

End IndexFacts.

(* ================================================================== *)
(** * The playback loop *)
(* ================================================================== *)

Module LoopFacts.
Import DataProcessor App PyFacts DataProcessorFacts AppFacts StoreFacts.
Local Open Scope Q_scope.

Lemma div_pos (a b : Q) : 0 < a -> 0 < b -> 0 < a / b.
Proof. intros Ha Hb. apply Qlt_shift_div_l; lra. Qed.

(** The pacing block at a positive speed: it does not raise and the sleep
    time is positive. *)
Lemma pacing_positive (last : option Q) (cur speed : Q) :
  0 < speed ->
  exists s,
    pacing last cur speed = Ok (s, Some cur) /\
    0 < s /\ s <= Qmax 0.1 (0.01 / speed).
Proof.
  intros Hs.
  assert (Hnz : ~ speed == 0) by lra.
  assert (H1 : 0 < 0.01 / speed) by (apply div_pos; lra).
  assert (H2 : 0 < 0.001 / speed) by (apply div_pos; lra).
  assert (H3 : 0.001 / speed <= 0.01 / speed).
  { unfold Qdiv. apply Qmult_le_compat_r; [lra|].
    apply Qlt_le_weak, Qinv_lt_0_compat, Hs. }
  pose proof (Q.le_max_l 0.1 (0.01 / speed)) as Hm1.
  pose proof (Q.le_max_r 0.1 (0.01 / speed)) as Hm2.
  destruct last as [last|].
  - rewrite (pacing_some last cur speed Hnz). eexists. split; [reflexivity|].
    destruct (Qlt_le_dec (cur - last) 0); [split; lra|].
    destruct (Qlt_le_dec 10 (cur - last)); [split; lra|].
    destruct (Qeq_bool (cur - last) 0); [split; lra|].
    pose proof (clamp_bounds ((cur - last) / speed)). split; lra.
  - rewrite (pacing_none cur speed Hnz). eexists. split; [reflexivity|].
    split; lra.
Qed.

(** [time.sleep] accepts a length that is not negative and whose
    nanoseconds fit 64 bits. *)
Lemma time_sleep_accepts (s : Q) :
  0 <= s -> (Qceiling (s * 1000000000) < 2 ^ 63)%Z -> time_sleep s = Ok tt.
Proof.
  intros Hs Hfit. unfold time_sleep. cbv zeta.
  destruct (Qlt_le_dec (s * 1000000000) 0) as [Hneg|Hpos]; [lra|].
  assert (Hc : (0 <= Qceiling (s * 1000000000))%Z).
  { rewrite Zle_Qle.
    apply Qle_trans with (s * 1000000000); [exact Hpos | apply Qle_ceiling]. }
  destruct (Z.ltb_spec (Qceiling (s * 1000000000)) (- 2 ^ 63)); [lia|].
  destruct (Z.leb_spec (2 ^ 63) (Qceiling (s * 1000000000))); [lia|].
  cbn [orb]. destruct (Qlt_le_dec s 0); [lra | reflexivity].
Qed.

Lemma time_sleep_accepted (s : Q) :
  0 <= s -> time_sleep s = Ok tt ->
  (Qceiling (s * 1000000000) < 2 ^ 63)%Z.
Proof.
  intros Hs. unfold time_sleep. cbv zeta.
  destruct (Qlt_le_dec (s * 1000000000) 0) as [Hneg|Hpos]; [lra|].
  destruct (Z.leb_spec (2 ^ 63) (Qceiling (s * 1000000000))); [| auto].
  rewrite orb_true_r. discriminate.
Qed.

(** What [time.sleep] accepts it accepts for every shorter length. *)
Lemma time_sleep_shorter (s s' : Q) :
  0 <= s -> s <= s' -> time_sleep s' = Ok tt -> time_sleep s = Ok tt.
Proof.
  intros Hs Hle Hok. apply time_sleep_accepts; [exact Hs|].
  assert (Hfit : (Qceiling (s' * 1000000000) < 2 ^ 63)%Z)
    by (apply time_sleep_accepted; [lra | exact Hok]).
  assert (Hmono : (Qceiling (s * 1000000000) <= Qceiling (s' * 1000000000))%Z)
    by (apply Qceiling_resp_le; lra).
  lia.
Qed.

Lemma time_sleep_tenth : time_sleep 0.1 = Ok tt.
Proof. apply time_sleep_accepts; [lra | reflexivity]. Qed.

(** A positive length is never refused as negative. *)
Lemma time_sleep_positive (s : Q) (e : exn) :
  0 < s -> time_sleep s = Raise e -> e = OverflowError.
Proof.
  intros Hs. unfold time_sleep. cbv zeta.
  destruct (_ || _)%bool; [congruence|].
  destruct (Qlt_le_dec s 0); [lra | discriminate].
Qed.

(** The lengths the loop sleeps at a given speed are accepted when the
    default delay is. *)
Lemma time_sleep_bounded (s d : Q) :
  0 < s -> s <= Qmax 0.1 d -> time_sleep d = Ok tt -> time_sleep s = Ok tt.
Proof.
  intros Hs Hle Hd.
  destruct (Q.max_spec 0.1 d) as [[Hlt Hmax]|[Hge Hmax]]; rewrite Hmax in Hle.
  - apply (time_sleep_shorter s d); [lra | exact Hle | exact Hd].
  - apply (time_sleep_shorter s 0.1); [lra | exact Hle | apply time_sleep_tenth].
Qed.

Lemma from_quat_raises (q : Rotation.quat) (e : exn) :
  Rotation.from_quat q = Raise e -> e = ValueError.
Proof.
  unfold Rotation.from_quat.
  destruct (Req_EM_T (Rotation.norm q) 0); [congruence | discriminate].
Qed.

(** [get_data_at_index] raises nothing but the [ValueError] of a zero
    quaternion. *)
Lemma get_data_at_index_raises (dl : data_list) (i : Z) (e : exn) :
  get_data_at_index dl i = Raise e -> e = ValueError.
Proof.
  unfold get_data_at_index.
  destruct (Z.ltb_spec i 0); [discriminate|].
  destruct (Z.leb_spec (get_data_count dl) i); [discriminate|].
  cbn [orb].
  destruct (nth_error dl (Z.to_nat i)) as [[ns r]|] eqn:Hn.
  - destruct (Rotation.from_quat (helmet_quat r)) as [hc|e1] eqn:H1;
      cbn [bind]; [| intros [= <-]; exact (from_quat_raises _ _ H1)].
    destruct (Rotation.from_quat (vehicle_quat r)) as [vw|e2] eqn:H2;
      cbn [bind]; [| intros [= <-]; exact (from_quat_raises _ _ H2)].
    unfold Rotation.mul.
    destruct (Rotation.from_quat (Rotation.compose_quat vw hc)) as [hw|e3] eqn:H3;
      cbn [bind]; [discriminate | intros [= <-]; exact (from_quat_raises _ _ H3)].
  - apply nth_error_None in Hn. unfold get_data_count in *. lia.
Qed.

(** One iteration at a positive speed: what it can raise and how long it
    sleeps. *)
Lemma tick_sleep_bounds (processor : option data_list) (udp_socket : bool)
      (g : globals) (l : locals) :
  0 < playback_speed g ->
  (forall e, tick processor udp_socket g l = Raise e -> e = ValueError) /\
  (forall emitted s g' l',
     tick processor udp_socket g l = Ok (Continue emitted s g' l') ->
     0 < s /\ s <= Qmax 0.1 (0.01 / playback_speed g) /\
     playback_speed g' = playback_speed g).
Proof.
  intros Hs.
  assert (Hnz : ~ playback_speed g == 0) by lra.
  assert (Hd : 0 < 0.01 / playback_speed g) by (apply div_pos; lra).
  pose proof (Q.le_max_l 0.1 (0.01 / playback_speed g)) as Hm1.
  pose proof (Q.le_max_r 0.1 (0.01 / playback_speed g)) as Hm2.
  unfold tick.
  destruct (playback_active g); cbn [negb].
  2:{ split; [discriminate|]. intros ev s g' l' [= <- <- <- <-].
      repeat split; auto; lra. }
  destruct processor as [dl|]; [| split; discriminate].
  destruct (get_data_count dl <=? playback_index g)%Z; [split; discriminate|].
  destruct (get_data_at_index dl (playback_index g)) as [[d|]|e0] eqn:Hget;
    cbn [bind].
  - destruct (pacing_positive (last_timestamp l) (timestamp_seconds d)
                (playback_speed g) Hs) as (s0 & Hp & Hpos & Hle).
    rewrite Hp. cbn [bind fst snd]. split; [discriminate|].
    intros ev s g' l' [= <- <- <- <-]. repeat split; auto.
  - rewrite (div_ok _ _ Hnz). cbn [bind]. split; [discriminate|].
    intros ev s g' l' [= <- <- <- <-].
    repeat split; auto; lra.
  - split; [| discriminate]. intros e [= <-].
    exact (get_data_at_index_raises _ _ _ Hget).
Qed.

(** X8.  At a positive playback speed the lookup and pacing of one loop
    iteration raise nothing but the [ValueError] of an unusable quaternion;
    when the iteration goes on, the time it sleeps is positive and at most
    [max(0.1, 0.01 / speed)]; [time.sleep] accepts it whenever it accepts
    the default delay [0.01 / speed], and refuses it, if at all, with
    [OverflowError]; the speed is what it was. *)
Theorem tick_positive_speed (processor : option data_list) (udp_socket : bool)
        (g : globals) (l : locals) :
  0 < playback_speed g ->
  (forall e, tick processor udp_socket g l = Raise e -> e = ValueError) /\
  (forall emitted s g' l',
     tick processor udp_socket g l = Ok (Continue emitted s g' l') ->
     0 < s /\ s <= Qmax 0.1 (0.01 / playback_speed g) /\
     (time_sleep (0.01 / playback_speed g) = Ok tt -> time_sleep s = Ok tt) /\
     (forall e, time_sleep s = Raise e -> e = OverflowError) /\
     playback_speed g' = playback_speed g).
Proof.
  intros Hs.
  destruct (tick_sleep_bounds processor udp_socket g l Hs) as [Hraise Hgo].
  split; [exact Hraise|].
  intros emitted s g' l' Ht.
  destruct (Hgo emitted s g' l' Ht) as (Hpos & Hle & Hspeed).
  split; [exact Hpos|]. split; [exact Hle|].
  split; [intros Hd; exact (time_sleep_bounded s _ Hpos Hle Hd)|].
  split; [intros e; apply time_sleep_positive; exact Hpos | exact Hspeed].
Qed.

Lemma tick_positive_speed_witness :
  exists emitted s g' l',
    tick (Some level_store) false (Globals true 0 1) initial_locals
      = Ok (Continue emitted s g' l') /\ 0 < s /\ time_sleep s = Ok tt.
Proof.
  destruct (level_frame 0) as (f & Hf & _);
    [unfold get_data_count; simpl; lia|].
  assert (Hrange : (playback_index (Globals true 0 1)
                    < get_data_count level_store)%Z)
    by (unfold get_data_count; simpl; lia).
  pose proof (tick_emit level_store false (Globals true 0 1) initial_locals f
                eq_refl Hrange Hf) as Ht.
  cbn [last_timestamp initial_locals playback_speed] in Ht.
  rewrite (pacing_none (timestamp_seconds f) 1) in Ht
    by (intros H; vm_compute in H; discriminate).
  cbn [bind fst snd] in Ht.
  do 4 eexists. split; [exact Ht|].
  destruct (tick_positive_speed (Some level_store) false (Globals true 0 1)
              initial_locals) as [_ Hc]; [reflexivity|].
  destruct (Hc _ _ _ _ Ht) as (Hpos & _ & Hacc & _).
  split; [exact Hpos|]. apply Hacc.
  apply time_sleep_accepts; [| reflexivity].
  cbn [playback_speed]. apply Qlt_le_weak, div_pos; reflexivity.
Defined.


Lemma div_by_zero (a b : Q) : b == 0 -> div a b = Raise ZeroDivisionError.
Proof.
  intros Hb. unfold div. rewrite (proj2 (Qeq_bool_iff b 0) Hb). reflexivity.
Qed.

Lemma pacing_zero_speed (last : option Q) (cur speed : Q) :
  speed == 0 -> pacing last cur speed = Raise ZeroDivisionError.
Proof.
  intros Hs. unfold pacing. destruct last as [last|].
  - destruct (Qlt_le_dec (cur - last) 0);
      [rewrite div_by_zero by assumption; reflexivity|].
    destruct (Qlt_le_dec 10 (cur - last));
      [rewrite div_by_zero by assumption; reflexivity|].
    destruct (Qeq_bool (cur - last) 0);
      rewrite div_by_zero by assumption; reflexivity.
  - rewrite div_by_zero by assumption. reflexivity.
Qed.

(** An iteration whose cursor is negative: no sample, the default delay. *)
Lemma tick_skip (dl : data_list) (udp_socket : bool) (g : globals) (l : locals) :
  playback_active g = true ->
  (playback_index g < 0)%Z ->
  tick (Some dl) udp_socket g l =
    (sleep_time <- div 0.01 (playback_speed g) ;;
     Ok (Continue [] sleep_time
           (Globals true (playback_index g + 1) (playback_speed g)) l))%py.
Proof.
  intros Ha Hi. unfold tick. rewrite Ha. cbn [negb].
  assert (0 <= get_data_count dl)%Z by (unfold get_data_count; lia).
  destruct (Z.leb_spec (get_data_count dl) (playback_index g)); [lia|].
  unfold get_data_at_index.
  destruct (Z.ltb_spec (playback_index g) 0); [| lia].
  reflexivity.
Qed.

(** X9.  With a stored speed of zero, which [set_speed] accepts, an active
    iteration whose cursor is before the end of a store with usable
    quaternions raises [ZeroDivisionError] instead of sending the sample. *)
Theorem tick_zero_speed (dl : data_list) (udp_socket : bool)
        (g : globals) (l : locals) :
  valid_store dl ->
  playback_active g = true ->
  (playback_index g < get_data_count dl)%Z ->
  playback_speed g == 0 ->
  tick (Some dl) udp_socket g l = Raise ZeroDivisionError.
Proof.
  intros Hvalid Ha Hi Hs.
  destruct (Z.lt_ge_cases (playback_index g) 0) as [Hneg|Hpos].
  - rewrite (tick_skip dl udp_socket g l Ha Hneg).
    rewrite div_by_zero by assumption. reflexivity.
  - assert (Hrange : (0 <= playback_index g < get_data_count dl)%Z) by lia.
    destruct (nth_error_in_store dl _ Hrange) as (ns & r & Hnth & HIn).
    destruct (get_data_at_index_valid dl _ ns r Hrange Hnth (Hvalid ns r HIn))
      as (f & Hf & _).
    rewrite (tick_emit dl udp_socket g l f Ha Hi Hf).
    rewrite pacing_zero_speed by assumption. reflexivity.
Qed.

Lemma tick_zero_speed_witness :
  tick (Some level_store) false
       (handle_set_speed (Some 0) (Globals true 0 2)) initial_locals
    = Raise ZeroDivisionError.
Proof.
  apply tick_zero_speed.
  - apply level_store_valid.
  - reflexivity.
  - unfold get_data_count; simpl; lia.
  - reflexivity.
Defined.

(** ** Running the loop to its end *)

Lemma zrange_nil (a b : Z) : (b <= a)%Z -> zrange a b = [].
Proof.
  intros H. unfold zrange. replace (Z.to_nat (b - a)) with 0%nat by lia.
  reflexivity.
Qed.

Lemma zrange_cons (a b : Z) :
  (a < b)%Z -> zrange a b = a :: zrange (a + 1) b.
Proof.
  intros H. unfold zrange.
  replace (Z.to_nat (b - a)) with (S (Z.to_nat (b - (a + 1)))) by lia.
  cbn [seq map]. f_equal; [lia|].
  rewrite <- seq_shift, map_map. apply map_ext. intros k. lia.
Qed.





(** ** A loop with nothing to do *)

(** X23.  While playback is paused the loop sends nothing, changes nothing and
    does not end, however many iterations it makes; an active loop without a
    processor ends in its first iteration, having sent nothing. *)
Theorem loop_without_work (fuel : nat) (processor : option data_list)
        (udp_socket : bool) (g : globals) (l : locals) :
  (playback_active g = false ->
   playback_loop fuel processor udp_socket g l = Ok (Run [] g l false)) /\
  (playback_active g = true -> processor = None -> (0 < fuel)%nat ->
   playback_loop fuel processor udp_socket g l = Ok (Run [] g l true)).
Proof.
  split.
  - intros Hp. induction fuel as [|fuel IH]; [reflexivity|].
    cbn [playback_loop]. unfold tick. rewrite Hp. cbn [negb bind].
    rewrite time_sleep_tenth. cbn [bind]. rewrite IH. reflexivity.
  - intros Ha -> Hf. destruct fuel as [|fuel]; [lia|].
    cbn [playback_loop]. unfold tick. rewrite Ha. reflexivity.
Qed.

Lemma loop_without_work_witness :
  playback_loop 7 (Some level_store) true
                (handle_pause_playback (Globals true 2 1)) initial_locals
    = Ok (Run [] (Globals false 2 1) initial_locals false).
Proof.
  destruct (loop_without_work 7 (Some level_store) true
              (handle_pause_playback (Globals true 2 1)) initial_locals)
    as [H _].
  apply H. reflexivity.
Defined.

End LoopFacts.

(* ================================================================== *)
(** * The HTTP routes *)
(* ================================================================== *)

Module RouteFacts.
Import DataProcessor App PyFacts DataProcessorFacts AppFacts StoreFacts
       IndexFacts LoopFacts.
Local Open Scope Q_scope.

(** ** [get_path_data] *)

(** Inside the store [get_data_at_index] answers a frame or raises. *)
Lemma in_range_not_none (dl : data_list) (i : Z) :
  (0 <= i < get_data_count dl)%Z -> get_data_at_index dl i <> Ok None.
Proof.
  intros Hi. unfold get_data_at_index.
  destruct (Z.ltb_spec i 0); [lia|].
  destruct (Z.leb_spec (get_data_count dl) i); [lia|].
  cbn [orb].
  destruct (nth_error dl (Z.to_nat i)) as [[ns r]|]; [| discriminate].
  destruct (Rotation.from_quat (helmet_quat r)); [| discriminate].
  destruct (Rotation.from_quat (vehicle_quat r)); [| discriminate].
  cbn [bind]. destruct (Rotation.mul _ _); discriminate.
Qed.

Lemma collect_zrange (dl : data_list) (b : Z) :
  valid_store dl -> (b <= get_data_count dl)%Z ->
  forall n a, Z.to_nat (b - a) = n ->
    exists path,
      collect_path dl (zrange a b) = Ok path /\
      map point_index path = zrange (Z.max a 0) b /\
      Forall (fun p => exists f,
                get_data_at_index dl (point_index p) = Ok (Some f) /\
                point_of p f) path.
Proof.
  intros Hvalid Hb. induction n as [|n IH]; intros a Hn.
  - rewrite !zrange_nil by lia. exists []. repeat split; constructor.
  - rewrite (zrange_cons a b) by lia. cbn [collect_path].
    destruct (IH (a + 1)%Z) as (path & Hpath & Hidx & Hall); [lia|].
    rewrite Hpath.
    destruct (Z.lt_ge_cases a 0) as [Hneg|Hpos].
    + assert (Hnone : get_data_at_index dl a = Ok None).
      { unfold get_data_at_index.
        destruct (Z.ltb_spec a 0); [reflexivity | lia]. }
      rewrite Hnone. cbn [bind]. exists path. repeat split; auto.
      rewrite Hidx. f_equal. lia.
    + assert (Hrange : (0 <= a < get_data_count dl)%Z) by lia.
      destruct (nth_error_in_store dl a Hrange) as (ns & r & Hnth & HIn).
      destruct (get_data_at_index_valid dl a ns r Hrange Hnth (Hvalid ns r HIn))
        as (f & Hf & Hfi & _ & _ & Hlat & Hlon & Halt).
      rewrite Hf. cbn [bind]. eexists. split; [reflexivity|]. split.
      * cbn [map point_index]. rewrite Hidx.
        rewrite (zrange_cons (Z.max a 0) b) by lia.
        f_equal; [lia | f_equal; lia].
      * constructor; [| exact Hall].
        exists f. cbn [point_index]. split; [exact Hf|].
        unfold point_of; cbn. auto.
Qed.

(** X11.  On a store with usable quaternions [get_path_data] answers the
    points of the indices from [max(start_index, 0)] to [min(end_index,
    start_index + 10000, N - 1)], in order and at most 10001 of them, each
    with the position of the frame at its index; the [end_index] it reports is
    that upper bound. *)
Theorem get_path_data_points (dl : data_list) (start_index end_index : Z) :
  valid_store dl ->
  let capped := Z.min end_index (start_index + 10000) in
  exists path,
    get_path_data (Some dl) start_index end_index
      = Ok (PathOk path start_index
                   (Z.min capped (get_data_count dl - 1))) /\
    map point_index path
      = zrange (Z.max start_index 0)
               (Z.min (capped + 1) (get_data_count dl)) /\
    (Z.of_nat (length path) <= 10001)%Z /\
    Forall (fun p => exists f,
              get_data_at_index dl (point_index p) = Ok (Some f) /\
              point_of p f) path.
Proof.
  intros Hvalid capped. unfold get_path_data.
  assert (Hcap : (if (10000 <? end_index - start_index)%Z
                  then (start_index + 10000)%Z else end_index) = capped).
  { unfold capped. destruct (Z.ltb_spec 10000 (end_index - start_index)); lia. }
  cbv zeta. rewrite Hcap.
  destruct (collect_zrange dl (Z.min (capped + 1) (get_data_count dl)) Hvalid
              (Z.le_min_r _ _) _ start_index eq_refl)
    as (path & Hpath & Hidx & Hall).
  rewrite Hpath. cbn [bind]. exists path. repeat split; auto.
  rewrite <- (length_map point_index), Hidx.
  unfold zrange. rewrite length_map, length_seq. unfold capped. lia.
Qed.

Lemma get_path_data_points_witness :
  exists path,
    get_path_data (Some level_store) 2 20000 = Ok (PathOk path 2 3) /\
    map point_index path = [2; 3]%Z.
Proof.
  destruct (get_path_data_points level_store 2 20000 (level_store_valid _))
    as (path & Hp & Hidx & _).
  exists path. split; [exact Hp | exact Hidx].
Defined.


(** ** [get_frame] *)

Lemma floats_nth_le (ts : list Q) :
  Sorted Qle ts ->
  forall i j y z, (i <= j)%nat ->
    nth_error ts i = Some y -> nth_error ts j = Some z -> y <= z.
Proof.
  intros Hs. apply (MapperFacts.sorted_nth_rel Qle ts); auto.
  - intros x. apply Qle_refl.
  - intros x y z. apply Qle_trans.
Qed.

(** The insertion point of a timestamp among ascending frame timestamps. *)
Lemma bisect_left_floats (ts : list Q) (t : Q) :
  Sorted Qle ts ->
  exists k, (k <= length ts)%nat /\
    (forall i y, (i < k)%nat -> nth_error ts i = Some y -> y < t) /\
    (forall i y, (k <= i)%nat -> nth_error ts i = Some y -> t <= y) /\
    bisect_left float_lt ts t = Ok k.
Proof.
  intros Hs.
  set (p := fun y : Q => Mapper.Qltb y t).
  assert (Hdc : down_closed p ts).
  { intros i j y z Hij Hi Hj Hz.
    pose proof (floats_nth_le ts Hs i j y z Hij Hi Hj).
    apply MapperFacts.Qltb_lt in Hz. apply MapperFacts.Qltb_lt. lra. }
  exists (partition_point p ts).
  pose proof (partition_point_le p ts) as Hle.
  assert (Hlo : forall i y, (i < partition_point p ts)%nat ->
                  nth_error ts i = Some y -> y < t).
  { intros i y Hi Hy. apply MapperFacts.Qltb_lt.
    exact (partition_point_below p ts Hdc i y Hi Hy). }
  assert (Hhi : forall i y, (partition_point p ts <= i)%nat ->
                  nth_error ts i = Some y -> t <= y).
  { intros i y Hi Hy. apply MapperFacts.Qltb_ge.
    exact (partition_point_above p ts Hdc i y Hi Hy). }
  repeat split; auto.
  unfold bisect_left. apply bisect_loop_partition; try lia.
  - intros i am Hi Hnth. unfold float_lt. f_equal.
    apply MapperFacts.Qltb_lt. eauto.
  - intros i am Hi Hnth. unfold float_lt. f_equal.
    apply MapperFacts.Qltb_ge. eauto.
Qed.

(** The search of [get_frame] on ascending timestamps, however the two
    differences round: the frame it picks is the last one older than the
    request or the first one that is not. *)
Lemma nearest_frame_sorted (fsub : Q -> Q -> Q) (ts : list Q) (t : Q) :
  ts <> [] -> Sorted Qle ts ->
  exists i x,
    nearest_frame fsub ts t = Ok i /\ nth_error ts i = Some x /\
    ((x < t /\
      forall j y, nth_error ts j = Some y -> (i < j)%nat -> t <= y) \/
     (t <= x /\
      forall j y, nth_error ts j = Some y -> (j < i)%nat -> y < t)) /\
    ((forall a b, b < a -> 0 < fsub a b) ->
     (forall a b, a == b -> fsub a b == 0) ->
     (exists j y, nth_error ts j = Some y /\ y == t) -> x == t).
Proof.
  intros Hne Hs.
  assert (Hlen : (0 < length ts)%nat)
    by (destruct ts; [congruence | simpl; lia]).
  destruct (bisect_left_floats ts t Hs) as (k & Hk & Hlo & Hhi & Hb).
  unfold nearest_frame. rewrite Hb. cbn [bind].
  assert (Hhit : forall x, nth_error ts k = Some x ->
            (exists j y, nth_error ts j = Some y /\ y == t) -> x == t).
  { intros x Hx (j & y & Hy & Heq).
    pose proof (Hhi k x (Nat.le_refl k) Hx) as Hge.
    destruct (Nat.lt_ge_cases j k) as [Hjk|Hjk].
    - pose proof (Hlo j y Hjk Hy). lra.
    - pose proof (floats_nth_le ts Hs k j x y Hjk Hx Hy). lra. }
  destruct (Nat.eqb_spec k 0) as [->|Hk0].
  - destruct (nth_error ts 0) as [x|] eqn:Hx;
      [| apply nth_error_None in Hx; lia].
    exists 0%nat, x. split; [reflexivity|]. split; [exact Hx|]. split.
    + right. split; [apply (Hhi 0%nat x); [lia | exact Hx]|].
      intros j y _ Hj. lia.
    + intros _ _. apply Hhit. reflexivity.
  - destruct (Nat.eqb_spec k (length ts)) as [Hkl|Hkl].
    + destruct (nth_error ts (length ts - 1)) as [x|] eqn:Hx;
        [| apply nth_error_None in Hx; lia].
      assert (Hxt : x < t)
        by (apply (Hlo (length ts - 1)%nat x); [lia | exact Hx]).
      exists (length ts - 1)%nat, x.
      split; [reflexivity|]. split; [exact Hx|]. split.
      * left. split; [exact Hxt|]. intros j y Hy Hj.
        assert (j < length ts)%nat by (apply nth_error_Some; congruence). lia.
      * intros _ _ (j & y & Hy & Heq).
        assert (Hj : (j < length ts)%nat) by (apply nth_error_Some; congruence).
        pose proof (Hlo j y ltac:(lia) Hy). lra.
    + destruct (nth_error ts (k - 1)) as [p|] eqn:Hp;
        [| apply nth_error_None in Hp; lia].
      destruct (nth_error ts k) as [n|] eqn:Hn;
        [| apply nth_error_None in Hn; lia].
      unfold Mapper.item. rewrite Hp, Hn. cbn [bind].
      assert (Hpt : p < t) by (apply (Hlo (k - 1)%nat p); [lia | assumption]).
      assert (Hnt : t <= n) by (apply (Hhi k n); [lia | assumption]).
      destruct (Qle_bool (fsub t p) (fsub n t)) eqn:Hcmp.
      * exists (k - 1)%nat, p.
        split; [reflexivity|]. split; [exact Hp|]. split.
        -- left. split; [exact Hpt|]. intros j y Hy Hj.
           apply (Hhi j y); [lia | exact Hy].
        -- intros Hsign Hzero Hex. exfalso.
           pose proof (Hhit n eq_refl Hex) as Hnt'.
           apply Qle_bool_iff in Hcmp.
           pose proof (Hsign t p Hpt). pose proof (Hzero n t Hnt'). lra.
      * exists k, n.
        split; [reflexivity|]. split; [exact Hn|]. split.
        -- right. split; [exact Hnt|]. intros j y Hy Hj.
           apply (Hlo j y); [exact Hj | exact Hy].
        -- intros _ _. apply Hhit. reflexivity.
Qed.

(** X12.  With frames listed in ascending timestamp order, [get_frame] picks
    the last frame older than the requested timestamp or the first frame
    that is not, however the two rounded differences compare; when a frame
    has exactly the requested timestamp (and a rounded difference is zero
    for equal floats and positive for a larger minuend), a frame with that
    timestamp is picked.  The file is sent if it exists, and the answer is
    not-found otherwise. *)
Theorem get_frame_adjacent (fsub : Q -> Q -> Q)
        (frames_info : list (Q * string))
        (frame_exists : string -> bool) (t : Q) :
  frames_info <> [] ->
  Sorted Qle (map fst frames_info) ->
  exists i ts_i fname,
    nth_error frames_info i = Some (ts_i, fname) /\
    get_frame fsub frames_info frame_exists t
      = Ok (if frame_exists fname then SendFrame fname else FrameNotFound) /\
    ((ts_i < t /\
      forall j tj fj, nth_error frames_info j = Some (tj, fj) ->
                      (i < j)%nat -> t <= tj) \/
     (t <= ts_i /\
      forall j tj fj, nth_error frames_info j = Some (tj, fj) ->
                      (j < i)%nat -> tj < t)) /\
    ((forall a b, b < a -> 0 < fsub a b) ->
     (forall a b, a == b -> fsub a b == 0) ->
     (exists j tj fj, nth_error frames_info j = Some (tj, fj) /\ tj == t) ->
     ts_i == t).
Proof.
  intros Hne Hs.
  assert (Hne' : map fst frames_info <> [])
    by (destruct frames_info; [congruence | discriminate]).
  destruct (nearest_frame_sorted fsub (map fst frames_info) t Hne' Hs)
    as (i & x & Hnear & Hx & Hadj & Hhit).
  rewrite nth_error_map in Hx.
  destruct (nth_error frames_info i) as [[ts_i fname]|] eqn:Hi;
    [| discriminate].
  cbn in Hx. injection Hx as <-.
  assert (Hfst : forall j tj fj, nth_error frames_info j = Some (tj, fj) ->
            nth_error (map fst frames_info) j = Some tj)
    by (intros j tj fj Hj; rewrite nth_error_map, Hj; reflexivity).
  exists i, ts_i, fname. split; [exact Hi|]. split; [| split].
  - unfold get_frame. destruct frames_info as [|fi rest] eqn:E; [congruence|].
    rewrite <- E in *. cbv zeta. rewrite Hnear. cbn [bind].
    unfold Mapper.item. rewrite nth_error_map, Hi.
    cbn [option_map snd bind]. destruct (frame_exists fname); reflexivity.
  - destruct Hadj as [[Hlt Hafter]|[Hge Hbefore]].
    + left. split; [exact Hlt|]. intros j tj fj Hj.
      apply (Hafter j tj). exact (Hfst j tj fj Hj).
    + right. split; [exact Hge|]. intros j tj fj Hj.
      apply (Hbefore j tj). exact (Hfst j tj fj Hj).
  - intros Hsign Hzero (j & tj & fj & Hj & Heq).
    apply (Hhit Hsign Hzero). exists j, tj. split; [| exact Heq].
    exact (Hfst j tj fj Hj).
Qed.

Lemma get_frame_adjacent_witness :
  exists i ts_i fname,
    nth_error [(0, "a.jpg"%string); (10, "b.jpg"%string)] i
      = Some (ts_i, fname) /\
    get_frame Qminus [(0, "a.jpg"%string); (10, "b.jpg"%string)]
              (fun _ => true) 10
      = Ok (SendFrame fname) /\
    ts_i == 10.
Proof.
  destruct (get_frame_adjacent Qminus
              [(0, "a.jpg"%string); (10, "b.jpg"%string)]
              (fun _ => true) 10)
    as (i & ts_i & fname & Hi & Hg & _ & Hhit).
  - discriminate.
  - cbn [map fst]. repeat constructor; lra.
  - exists i, ts_i, fname. split; [exact Hi|]. split; [exact Hg|].
    apply Hhit.
    + intros a b Hab. lra.
    + intros a b Hab. lra.
    + exists 1%nat, 10, "b.jpg"%string. split; reflexivity.
Defined.


(** ** The time conversion routes *)

(** X13.  Without a mapper, or with a mapper that is not available, both
    routes answer by the offset: [get_video_time] answers
    [max(0, t - offset)], which is never negative and is zero for a
    timestamp that is not after the offset, and [get_data_timestamp]
    answers [t + offset]. *)
Theorem offset_fallback (m : option Mapper.mapper) (offset t : Q) :
  (forall mp, m = Some mp -> Mapper.is_available mp = false) ->
  exists v,
    get_video_time m offset t = Ok (ByOffset v) /\
    v = max2 0 (t - offset) /\ 0 <= v /\
    (t <= offset -> v == 0) /\
    get_data_timestamp m offset t = Ok (ByOffset (t + offset)).
Proof.
  intros Hm.
  assert (Hv : get_video_time m offset t = Ok (ByOffset (max2 0 (t - offset)))).
  { unfold get_video_time. destruct m as [mp|]; [| reflexivity].
    rewrite (Hm mp eq_refl). reflexivity. }
  assert (Hd : get_data_timestamp m offset t = Ok (ByOffset (t + offset))).
  { unfold get_data_timestamp. destruct m as [mp|]; [| reflexivity].
    rewrite (Hm mp eq_refl). reflexivity. }
  exists (max2 0 (t - offset)).
  split; [exact Hv|]. split; [reflexivity|].
  destruct (max2_spec 0 (t - offset)) as [[H ->]|[H ->]].
  - split; [lra|]. split; [intros; lra | exact Hd].
  - split; [lra|]. split; [intros; lra | exact Hd].
Qed.

Lemma offset_fallback_witness :
  exists v,
    get_video_time (Some (Mapper.new Mapper.NotJson)) 100 40 = Ok (ByOffset v) /\
    v == 0.
Proof.
  destruct (offset_fallback (Some (Mapper.new Mapper.NotJson)) 100 40)
    as (v & Hv & _ & _ & Hz & _).
  - intros mp [= <-]. reflexivity.
  - exists v. split; [exact Hv|]. apply Hz. lra.
Defined.

(** X14.  With a mapper loaded from a non-empty table of numbers,
    [get_video_time] and [get_data_timestamp] answer from the table, without
    the offset and without raising: a number, which is the value of an
    anchor with the smallest key for a query at or before the keys, of an
    anchor with the largest key for a query after the keys, and of an
    anchor with that key for a query on a key. *)
Theorem mapped_times (anchors : list (Q * Q)) (offset t : Q) :
  anchors <> [] ->
  let m := Some (Mapper.new (Mapper.numeric_source anchors)) in
  (exists r, get_video_time m offset t = Ok (Mapped (Mapper.VNum r)) /\
             Mapper.anchored_answer anchors t r) /\
  (exists r, get_data_timestamp m offset t = Ok (Mapped (Mapper.VNum r)) /\
             Mapper.anchored_answer (map Mapper.swapQ anchors) t r).
Proof.
  intros Hne m.
  destruct (MapperFacts.loaded_anchored anchors t Hne)
    as (Hav & (r1 & Hq1 & Hw1) & (r2 & Hq2 & Hw2)).
  split.
  - exists r1. split; [| exact Hw1].
    unfold get_video_time, m. rewrite Hav, Hq1. reflexivity.
  - exists r2. split; [| exact Hw2].
    unfold get_data_timestamp, m. rewrite Hav, Hq2. reflexivity.
Qed.

Lemma mapped_times_witness :
  exists r,
    get_video_time (Some (Mapper.new (Mapper.numeric_source [(0, 100); (10, 200)])))
                   50 10
      = Ok (Mapped (Mapper.VNum r)) /\
    r = 200.
Proof.
  destruct (mapped_times [(0, 100); (10, 200)] 50 10)
    as [(r & Hr & (_ & _ & Hhit)) _].
  - discriminate.
  - exists r. split; [exact Hr|].
    destruct Hhit as (p & Hp & Hk & ->).
    + exists (10, 200). split; [right; left; reflexivity | reflexivity].
    + destruct Hp as [<-|[<-|[]]]; [| reflexivity].
      exfalso. cbn in Hk. revert Hk. apply Qlt_not_eq. reflexivity.
Defined.

(** ** [jump_to_timestamp] *)

Lemma timestamp_ids (k : Z) (v : Q) :
  dict_get k TIMESTAMPS = Some v -> (0 <= k <= 12)%Z.
Proof.
  unfold TIMESTAMPS. cbn [dict_get].
  repeat match goal with
         | |- context [(k =? ?c)%Z] => destruct (Z.eqb_spec k c); [lia|]
         end.
  discriminate.
Qed.

Lemma timestamp_ids_present (k : Z) :
  (0 <= k <= 12)%Z -> exists v, dict_get k TIMESTAMPS = Some v.
Proof.
  intros Hk.
  assert (Hcases : (k = 0 \/ k = 1 \/ k = 2 \/ k = 3 \/ k = 4 \/ k = 5 \/ k = 6
                    \/ k = 7 \/ k = 8 \/ k = 9 \/ k = 10 \/ k = 11 \/ k = 12)%Z)
    by lia.
  repeat (destruct Hcases as [->|Hcases]; [eexists; reflexivity|]).
  subst. eexists; reflexivity.
Qed.

Lemma find_index_some_bound (dl : data_list) (t : Z) (i : nat) :
  find_index_from_ns dl t = Ok (Some i) -> (i < length dl)%nat.
Proof.
  intros H.
  destruct dl as [|h dl'] eqn:E; [discriminate|]. rewrite <- E in *.
  destruct (find_index_some_in_range dl t) as (i' & Hi' & Hlt);
    [subst; discriminate|].
  congruence.
Qed.

(** On a store with samples the lookup converts the target first. *)
Lemma find_index_seconds_nonempty (to_timedelta_ns : Q -> result Z)
      (dl : data_list) (t : Q) :
  dl <> [] ->
  find_index_seconds to_timedelta_ns dl t
    = (target_ns <- to_timedelta_ns t ;; find_index_from_ns dl target_ns).
Proof. destruct dl; [congruence | reflexivity]. Qed.

(** X15.  [jump_to_timestamp] rejects every id outside 0..12; every answer
    other than a jump leaves the playback state as it was; a jump puts the
    cursor on an index inside the store, pauses playback (the next loop
    iteration idles) and keeps the speed; with an id in 0..12, a store with
    samples and a target that converts, the jump is made. *)
Theorem jump_to_timestamp_effect (to_timedelta_ns : Q -> result Z)
        (processor : option data_list) (timestamp_id : Z) (g : globals) :
  (~ (0 <= timestamp_id <= 12)%Z ->
   jump_to_timestamp to_timedelta_ns processor timestamp_id g
     = Ok (InvalidTimestampId, g)) /\
  (forall resp g',
     jump_to_timestamp to_timedelta_ns processor timestamp_id g = Ok (resp, g') ->
     match resp with
     | Jumped i target_time =>
         (0 <= timestamp_id <= 12)%Z /\
         dict_get timestamp_id TIMESTAMPS = Some target_time /\
         (exists dl, processor = Some dl /\ (i < length dl)%nat) /\
         g' = Globals false (Z.of_nat i) (playback_speed g) /\
         forall udp_socket l,
           tick processor udp_socket g' l = Ok (Continue [] 0.1 g' l)
     | _ => g' = g
     end) /\
  (forall dl ns,
     (0 <= timestamp_id <= 12)%Z -> processor = Some dl -> dl <> [] ->
     (forall v, dict_get timestamp_id TIMESTAMPS = Some v ->
                to_timedelta_ns v = Ok ns) ->
     exists i target_time,
       jump_to_timestamp to_timedelta_ns processor timestamp_id g
         = Ok (Jumped i target_time,
               Globals false (Z.of_nat i) (playback_speed g))).
Proof.
  unfold jump_to_timestamp. split; [| split].
  3:{ intros dl ns Hid -> Hne Hconv.
      destruct (timestamp_ids_present timestamp_id Hid) as [v Hv].
      rewrite Hv. unfold find_index_seconds, find_index_for_timestamp.
      destruct dl as [|h dl'] eqn:E; [congruence|]. rewrite <- E in *.
      rewrite (Hconv v Hv). cbn [bind].
      destruct (find_index_some_in_range dl ns Hne) as (i & Hi & _).
      rewrite Hi. cbn [bind]. exists i, v. reflexivity. }
  - intros Hid.
    destruct (dict_get timestamp_id TIMESTAMPS) as [v|] eqn:E; [| reflexivity].
    apply timestamp_ids in E. contradiction.
  - intros resp g'.
    destruct (dict_get timestamp_id TIMESTAMPS) as [v|] eqn:E;
      [| intros [= <- <-]; reflexivity].
    destruct processor as [dl|]; [| intros [= <- <-]; reflexivity].
    unfold find_index_seconds, find_index_for_timestamp.
    destruct dl as [|h dl'] eqn:Edl; [intros [= <- <-]; reflexivity|].
    rewrite <- Edl in *.
    destruct (to_timedelta_ns v) as [ns|e]; cbn [bind]; [| discriminate].
    destruct (find_index_from_ns dl ns) as [[i|]|e] eqn:Hfind;
      cbn [bind]; [| intros [= <- <-]; reflexivity | discriminate].
    intros [= <- <-].
    split; [exact (timestamp_ids _ _ E)|]. split; [reflexivity|].
    split.
    { exists dl. split; [reflexivity|].
      exact (find_index_some_bound _ _ _ Hfind). }
    split; [reflexivity|]. intros udp_socket l. reflexivity.
Qed.

Lemma jump_to_timestamp_effect_witness :
  exists i target_time,
    jump_to_timestamp (fun q => Ok (Qfloor (q * 1000000000)))
                      (Some level_store) 0 (Globals true 1 2)
      = Ok (Jumped i target_time, Globals false (Z.of_nat i) 2).
Proof.
  destruct (jump_to_timestamp_effect (fun q => Ok (Qfloor (q * 1000000000)))
              (Some level_store) 0 (Globals true 1 2)) as (_ & _ & Hok).
  apply (Hok level_store 2643000000000%Z).
  - lia.
  - reflexivity.
  - discriminate.
  - intros v [= <-]. reflexivity.
Defined.

(** ** [get_data_for_video_time] *)

(** X16.  [get_data_for_video_time] never answers "Data not found"; on a store
    with samples it never answers "No data found for timestamp"; a successful
    answer carries the frame [get_data_at_index] returns for the answered
    index, which lies inside the store, and the video time of the path, or
    else of the query. *)
Theorem data_for_video_time_answers (to_timedelta_ns : Q -> result Z)
        (m : option Mapper.mapper) (offset : Q)
        (processor : option data_list)
        (path_video_time query_video_time : option Q) :
  let resp := get_data_for_video_time to_timedelta_ns m offset processor
                                      path_video_time query_video_time in
  resp <> DataNotFound /\
  (forall dl, processor = Some dl -> dl <> [] -> resp <> NoDataForTimestamp) /\
  (forall d i video_time data_timestamp,
     resp = DataOk d i video_time data_timestamp ->
     exists dl,
       processor = Some dl /\ (i < length dl)%nat /\
       get_data_at_index dl (Z.of_nat i) = Ok (Some d) /\
       index d = Z.of_nat i /\
       (path_video_time = Some video_time \/
        path_video_time = None /\ query_video_time = Some video_time)).
Proof.
  intros resp. subst resp.
  unfold get_data_for_video_time, data_for_video_time_body.
  set (vt := match path_video_time with
             | Some v => Some v
             | None => query_video_time
             end).
  assert (Hvt : forall v, vt = Some v ->
            path_video_time = Some v \/
            path_video_time = None /\ query_video_time = Some v).
  { intros v. unfold vt. destruct path_video_time; intros H; [left | right]; auto. }
  destruct vt as [video_time|];
    [| repeat split; try discriminate; intros; discriminate].
  specialize (Hvt video_time eq_refl).
  destruct processor as [dl|];
    [| repeat split; try discriminate; intros; discriminate].
  match goal with
  | |- context [bind ?mapped _] =>
      destruct mapped as [mapped_value|e0]; cbn [bind];
      [| repeat split; try discriminate; intros; discriminate]
  end.
  match goal with
  | |- context [bind ?dt _] =>
      destruct dt as [data_timestamp|e1]; cbn [bind];
      [| repeat split; try discriminate; intros; discriminate]
  end.
  unfold find_index_seconds, find_index_for_timestamp.
  destruct dl as [|h dl'] eqn:E.
  { cbn [bind]. split; [discriminate|]. split; [| intros; discriminate].
    intros dl0 [= <-] Hne. congruence. }
  rewrite <- E in *.
  destruct (to_timedelta_ns data_timestamp) as [ns|e2]; cbn [bind];
    [| repeat split; try discriminate; intros; discriminate].
  destruct (find_index_from_ns dl ns) as [[i|]|e3] eqn:Hfind; cbn [bind].
  - pose proof (find_index_some_bound dl ns i Hfind) as Hi.
    assert (Hrange : (0 <= Z.of_nat i < get_data_count dl)%Z)
      by (unfold get_data_count; lia).
    destruct (get_data_at_index dl (Z.of_nat i)) as [[d|]|e4] eqn:Hget;
      cbn [bind].
    + split; [discriminate|]. split; [intros; discriminate|].
      intros d' i' vt' dt' [= <- <- <- <-].
      exists dl. split; [reflexivity|]. split; [exact Hi|].
      split; [exact Hget|]. split; [| exact Hvt].
      destruct (frame_origin dl _ d Hget) as (_ & ? & ? & ? & ? & ? & _ & _ & _ & _ & ->).
      reflexivity.
    + exfalso. exact (in_range_not_none dl _ Hrange Hget).
    + repeat split; try discriminate; intros; discriminate.
  - split; [discriminate|]. split; [| intros; discriminate].
    intros dl1 [= <-] Hne _.
    destruct (find_index_some_in_range dl ns Hne) as (i & Hi & _). congruence.
  - repeat split; try discriminate; intros; discriminate.
Qed.

Lemma data_for_video_time_answers_witness :
  exists d,
    get_data_for_video_time (fun q => Ok (Qfloor (q * 1000000000))) None 0
                            (Some level_store) (Some 0.02) None
      = DataOk d 1 0.02 (0.02 + 0) /\
    index d = 1%Z.
Proof.
  destruct (level_frame 1) as (f & Hf & _);
    [unfold get_data_count; simpl; lia|].
  assert (Hresp : get_data_for_video_time
                    (fun q => Ok (Qfloor (q * 1000000000))) None 0
                    (Some level_store) (Some 0.02) None
                  = DataOk f 1 0.02 (0.02 + 0)).
  { unfold get_data_for_video_time, data_for_video_time_body.
    cbn [bind].
    rewrite (find_index_seconds_nonempty _ level_store _)
      by (unfold level_store, store_of; discriminate).
    cbn [bind].
    assert (Hfind : find_index_from_ns level_store
                      (Qfloor ((0.02 + 0) * 1000000000))
                    = Ok (Some 1%nat)) by reflexivity.
    rewrite Hfind. cbn [bind]. change (Z.of_nat 1) with 1%Z.
    rewrite Hf. reflexivity. }
  exists f. split; [exact Hresp|].
  destruct (data_for_video_time_answers
              (fun q => Ok (Qfloor (q * 1000000000))) None 0
              (Some level_store) (Some 0.02) None) as (_ & _ & H).
  destruct (H f 1%nat 0.02 (0.02 + 0) Hresp) as (dl & _ & _ & _ & Hidx & _).
  exact Hidx.
Defined.

End RouteFacts.

(* ================================================================== *)
(** * The timeline mapper: loading and monotone tables *)
(* ================================================================== *)

Module MapperMoreFacts.
Import Mapper PyFacts MapperFacts.
Local Open Scope Q_scope.

(** ** Sources that do not load *)

Lemma read_entries_missing_key (mapping : list entry) :
  (exists e, In e mapping /\
             (data_timestamp e = None \/ video_time e = None)) ->
  read_entries mapping = Raise KeyError.
Proof.
  induction mapping as [|e0 rest IH]; intros (e & Hin & Hmiss).
  - contradiction.
  - cbn [read_entries].
    destruct (data_timestamp e0) as [d|] eqn:Hd; [| reflexivity].
    destruct (video_time e0) as [v|] eqn:Hv; [| reflexivity].
    destruct Hin as [<-|Hin].
    + destruct Hmiss; congruence.
    + rewrite IH by (exists e; auto). reflexivity.
Qed.

(** X17.  A mapper built from no file, from a file that cannot be read or is
    not JSON, from an empty array, or from an array with an entry that lacks
    [data_timestamp] or [video_time] is not available: its table is empty and
    both queries return [None]. *)
Theorem unloadable_source_unavailable (src : source) (t : Q) :
  src = NoFile \/ src = Unreadable \/ src = NotJson \/ src = Json [] \/
  (exists mapping e,
     src = Json mapping /\ In e mapping /\
     (data_timestamp e = None \/ video_time e = None)) ->
  is_available (new src) = false /\
  timestamps (new src) = [] /\
  data_to_video_time (new src) t = Ok None /\
  video_to_data_time (new src) t = Ok None.
Proof.
  intros [->|[->|[->|[->|(mapping & e & -> & Hin & Hmiss)]]]];
    try (repeat split; reflexivity).
  unfold new, load_mapping.
  rewrite read_entries_missing_key by (exists e; auto).
  repeat split.
Qed.

Lemma unloadable_source_unavailable_witness :
  is_available
    (new (Json [Entry (Some (VNum 1)) (Some (VNum 2));
                Entry (Some (VNum 3)) None])) = false.
Proof.
  destruct (unloadable_source_unavailable
              (Json [Entry (Some (VNum 1)) (Some (VNum 2));
                     Entry (Some (VNum 3)) None]) 0) as [H _].
  - do 4 right. eexists _, (Entry (Some (VNum 3)) None).
    split; [reflexivity|]. split; [right; left; reflexivity | right; reflexivity].
  - exact H.
Defined.

(** ** What a successful load leaves *)

Section SortedPermutation.
Context {A : Type}.
Variable lt : A -> A -> result bool.

Lemma insert_permutation (x : A) (l l' : list A) :
  insert lt x l = Ok l' -> Permutation (x :: l) l'.
Proof.
  revert l'. induction l as [|y l IH]; intros l'; cbn [insert].
  - intros [= <-]. reflexivity.
  - destruct (lt x y) as [[|]|]; cbn [bind]; try discriminate.
    + intros [= <-]. reflexivity.
    + destruct (insert lt x l) as [r|]; cbn [bind]; [| discriminate].
      intros [= <-]. rewrite perm_swap. constructor. apply IH. reflexivity.
Qed.

Lemma sorted_from_permutation (l acc l' : list A) :
  fold_left (fun a x => a' <- a ;; insert lt x a') l (Ok acc) = Ok l' ->
  Permutation (acc ++ l) l'.
Proof.
  revert acc. induction l as [|x l IH]; intros acc; cbn [fold_left bind].
  - intros [= <-]. rewrite app_nil_r. reflexivity.
  - destruct (insert lt x acc) as [a1|e] eqn:Hins.
    + intros H. rewrite <- (IH a1 H).
      rewrite <- (insert_permutation x acc a1 Hins).
      rewrite <- Permutation_middle. reflexivity.
    + intros H. exfalso. clear -H.
      induction l as [|y l IHl]; cbn [fold_left bind] in H;
        [discriminate | auto].
Qed.

Lemma sorted_permutation (l l' : list A) :
  sorted lt l = Ok l' -> Permutation l l'.
Proof. intros H. exact (sorted_from_permutation l [] l' H). Qed.
End SortedPermutation.

Lemma read_entries_length (mapping : list entry) (pairs : list (value * value)) :
  read_entries mapping = Ok pairs -> length pairs = length mapping.
Proof.
  revert pairs. induction mapping as [|e rest IH]; intros pairs; cbn [read_entries].
  - intros [= <-]. reflexivity.
  - destruct (data_timestamp e); [| discriminate].
    destruct (video_time e); [| discriminate].
    destruct (read_entries rest) as [r|]; cbn [bind]; [| discriminate].
    intros [= <-]. cbn [length]. f_equal. apply IH. reflexivity.
Qed.

(** X18.  When [load_mapping] returns [True], the table holds one pair per
    entry of the file, [data_timestamps] and [video_times] are its two
    columns, the table by video time is a permutation of it with its own two
    columns, and the mapper is available exactly when the file had an entry.
    *)
Theorem load_success_projections (src : source) (self self' : mapper) :
  load_mapping src self = (self', true) ->
  exists mapping rv,
    src = Json mapping /\
    length (timestamps self') = length mapping /\
    data_timestamps self' = map fst (timestamps self') /\
    video_times self' = map snd (timestamps self') /\
    reverse self' = Some rv /\
    Permutation (timestamps self') (timestamps_by_video rv) /\
    video_times_sorted rv = map snd (timestamps_by_video rv) /\
    data_timestamps_by_video rv = map fst (timestamps_by_video rv) /\
    (is_available self' = true <-> mapping <> []).
Proof.
  unfold load_mapping.
  destruct src as [| | |mapping]; try discriminate.
  destruct (read_entries mapping) as [pairs|] eqn:Hread; cbn [bind];
    [| discriminate].
  destruct (sorted pair_lt pairs) as [ts|] eqn:Hts; [| discriminate].
  destruct (sorted (fun x y => v_lt (snd x) (snd y)) ts) as [tsv|] eqn:Htsv;
    [| discriminate].
  intros [= <-].
  pose proof (sorted_permutation _ _ _ Hts) as Hp1.
  pose proof (sorted_permutation _ _ _ Htsv) as Hp2.
  pose proof (read_entries_length _ _ Hread) as Hlen.
  apply Permutation_length in Hp1.
  eexists mapping, _. cbn [timestamps data_timestamps video_times reverse
                           timestamps_by_video video_times_sorted
                           data_timestamps_by_video].
  split; [reflexivity|]. split; [congruence|].
  split; [reflexivity|]. split; [reflexivity|]. split; [reflexivity|].
  split; [exact Hp2|]. split; [reflexivity|]. split; [reflexivity|].
  unfold is_available; cbn [timestamps].
  assert (Hl : length ts = length mapping) by congruence.
  split.
  - intros H ->. cbn in Hl. rewrite Hl in H. discriminate.
  - intros H. destruct mapping; [congruence|]. rewrite Hl. reflexivity.
Qed.

Lemma load_success_projections_witness :
  exists rv,
    reverse (new (numeric_source [(2, 5); (1, 9)])) = Some rv /\
    Permutation (timestamps (new (numeric_source [(2, 5); (1, 9)])))
                (timestamps_by_video rv).
Proof.
  destruct (load_success_projections (numeric_source [(2, 5); (1, 9)])
              (MapperState [] [] [] None)
              (new (numeric_source [(2, 5); (1, 9)])))
    as (mapping & rv & _ & _ & _ & _ & Hrv & Hp & _).
  - reflexivity.
  - exists rv. split; [exact Hrv | exact Hp].
Defined.

(** X19.  A mapping file whose entries all hold numbers always loads: the
    table is the anchors in ascending order of telemetry time, and the table
    by video time the same anchors in ascending order of video time. *)
Theorem numeric_table_loads (anchors : list (Q * Q)) :
  exists ts tsv,
    load_mapping (numeric_source anchors) (MapperState [] [] [] None)
      = (loaded ts tsv, true) /\
    Permutation anchors ts /\ Permutation anchors tsv /\
    Sorted by_data ts /\ Sorted by_video_time tsv.
Proof.
  destruct (sorted_ok pair_lt numeric pair_lt_total pair_lt_asym
              (map emb anchors) (numeric_emb anchors))
    as (l1 & Hl1 & Hp1 & Hs1 & HP1).
  destruct (sorted_ok (fun x y => v_lt (snd x) (snd y)) numeric
              by_video_lt_total by_video_lt_asym l1 HP1)
    as (l2 & Hl2 & Hp2 & Hs2 & HP2).
  destruct (Permutation_map_inv emb _ (Permutation_sym Hp1))
    as (ts & -> & Hpts).
  destruct (Permutation_map_inv emb _ (Permutation_sym Hp2))
    as (tsv & -> & Hptsv).
  exists ts, tsv. split; [| repeat split].
  - unfold numeric_source, load_mapping.
    rewrite read_entries_numeric. cbn [bind]. rewrite Hl1, Hl2. reflexivity.
  - exact Hpts.
  - exact (Permutation_trans Hpts Hptsv).
  - apply (Sorted_map_inv emb _ _ _ not_after_pair_lt Hs1).
  - apply (Sorted_map_inv emb _ _ _ not_after_by_video Hs2).
Qed.


End MapperMoreFacts.

(* ================================================================== *)
(** * The deployment check *)
(* ================================================================== *)

Module VerifySetupFacts.
Import VerifySetup.

Lemma fold_and (A : Type) (f : A -> bool) (l : list A) (b : bool) :
  fold_left (fun acc x => andb acc (f x)) l b = true <->
  b = true /\ forall x, In x l -> f x = true.
Proof.
  revert b. induction l as [|y l IH]; intros b; cbn [fold_left].
  - split; [intros ->; split; [reflexivity | contradiction] | tauto].
  - rewrite IH. split.
    + intros [Hb Hall]. apply andb_true_iff in Hb. destruct Hb as [Hb Hy].
      split; [exact Hb|]. intros x [<-|Hx]; auto.
    + intros [Hb Hall]. split.
      * rewrite Hb. cbn. apply Hall. left; reflexivity.
      * intros x Hx. apply Hall. right; exact Hx.
Qed.

Lemma fold_guard (A : Type) (f : A -> bool) (l : list A) (b : bool) :
  fold_left (fun acc x => if f x then acc else false) l b = true <->
  b = true /\ forall x, In x l -> f x = true.
Proof.
  revert b. induction l as [|y l IH]; intros b; cbn [fold_left].
  - split; [intros ->; split; [reflexivity | contradiction] | tauto].
  - rewrite IH. split.
    + intros [Hb Hall]. destruct (f y) eqn:Hy; [| discriminate].
      split; [exact Hb|]. intros x [<-|Hx]; auto.
    + intros [Hb Hall]. split.
      * rewrite (Hall y) by (left; reflexivity). exact Hb.
      * intros x Hx. apply Hall. right; exact Hx.
Qed.

Lemma main_cases (file_exists importable : string -> bool) :
  main file_exists importable = 0%Z \/ main file_exists importable = 1%Z.
Proof.
  unfold main. cbv zeta.
  match goal with |- context [if ?b then _ else _] => destruct b end; auto.
Qed.

Lemma main_zero_iff (file_exists importable : string -> bool) :
  main file_exists importable = 0%Z <->
  (forall path, In path required_files -> file_exists path = true) /\
  (forall pkg, In pkg packages -> importable (snd pkg) = true).
Proof.
  unfold main, check_file. cbv zeta.
  match goal with
  | |- (if ?b then _ else _) = _ <-> _ =>
      assert (Hb : b = true <->
                (forall path, In path required_files -> file_exists path = true) /\
                (forall pkg, In pkg packages -> importable (snd pkg) = true));
      [| destruct b; rewrite <- Hb; split; congruence]
  end.
  rewrite (fold_guard _ (fun pkg : string * string => importable (snd pkg))).
  rewrite fold_and. tauto.
Qed.

(** X22.  The exit code of the deployment check is 0 or 1; it is 0 exactly
    when the nine required files exist and the seven packages import (an
    import either succeeds or raises [ImportError]); files other than the
    required ones do not change it. *)
Theorem main_exit_code (file_exists importable : string -> bool) :
  (main file_exists importable = 0%Z \/ main file_exists importable = 1%Z) /\
  (main file_exists importable = 0%Z <->
   (forall path, In path required_files -> file_exists path = true) /\
   (forall pkg, In pkg packages -> importable (snd pkg) = true)) /\
  (forall other_files,
     (forall path, In path required_files ->
                   other_files path = file_exists path) ->
     main other_files importable = main file_exists importable).
Proof.
  split; [apply main_cases|]. split; [apply main_zero_iff|].
  intros other Hsame.
  assert (Hiff : main other importable = 0%Z <->
                 main file_exists importable = 0%Z).
  { rewrite !main_zero_iff. split; intros [Hf Hp]; (split; [| exact Hp]);
      intros path Hin; [rewrite <- Hsame | rewrite Hsame]; auto. }
  destruct (main_cases other importable) as [H1|H1];
    destruct (main_cases file_exists importable) as [H2|H2];
    rewrite H1, H2 in *; try reflexivity.
  - destruct Hiff as [Hi _]. specialize (Hi eq_refl). discriminate.
  - destruct Hiff as [_ Hi]. specialize (Hi eq_refl). discriminate.
Qed.

Lemma main_exit_code_witness :
  main (fun _ => true) (fun _ => true) = 0%Z /\
  main (fun path => negb (String.eqb path "merged_data.csv")) (fun _ => true)
    = 1%Z.
Proof.
  split.
  - destruct (main_exit_code (fun _ => true) (fun _ => true)) as (_ & Hz & _).
    apply Hz. split; intros; reflexivity.
  - destruct (main_exit_code
                (fun path => negb (String.eqb path "merged_data.csv"))
                (fun _ => true)) as ([H0|H1] & Hz & _); [| exact H1].
    exfalso. apply Hz in H0. destruct H0 as [Hf _].
    specialize (Hf "merged_data.csv"%string (or_introl eq_refl)).
    discriminate.
Defined.

End VerifySetupFacts.

(* ================================================================== *)
(** * The choice of the mapping file *)
(* ================================================================== *)

Module SelectionFacts.
Import Mapper App PyFacts MapperFacts.
Local Open Scope Q_scope.

(** X24.  The mapper chosen at start-up: there is none exactly when none of
    the four files exists; a file in the webdisplay directory hides the one of
    the same name in the project root; an available YouTube mapper is kept
    whatever the original mapping holds; otherwise the original mapping file,
    when there is one, replaces it, available or not; and the chosen mapper is
    usable exactly when one of the two is. *)
Theorem select_mapper_precedence
        (youtube_webdisplay youtube_root : option source)
        (original_webdisplay original_root : option source) :
  let youtube := choose_file youtube_webdisplay youtube_root in
  let original := choose_file original_webdisplay original_root in
  let selected := select_mapper youtube_webdisplay youtube_root
                                original_webdisplay original_root in
  (selected = None <->
   youtube_webdisplay = None /\ youtube_root = None /\
   original_webdisplay = None /\ original_root = None) /\
  (forall f other, youtube_webdisplay = Some f ->
     select_mapper youtube_webdisplay other original_webdisplay original_root
       = selected) /\
  (forall f other, original_webdisplay = Some f ->
     select_mapper youtube_webdisplay youtube_root original_webdisplay other
       = selected) /\
  (forall f, youtube = Some f -> is_available (new f) = true ->
     selected = Some (new f)) /\
  (forall f, unusable (option_map new youtube) = true -> original = Some f ->
     selected = Some (new f)) /\
  (original = None -> selected = option_map new youtube) /\
  (unusable selected = false <->
   unusable (option_map new youtube) = false \/
   unusable (option_map new original) = false).
Proof.
  intros youtube original selected.
  subst youtube original selected. unfold select_mapper.
  split; [| split; [| split; [| split; [| split; [| split]]]]].
  - destruct youtube_webdisplay as [yw|], youtube_root as [yr|],
      original_webdisplay as [ow|], original_root as [or_|];
      cbn [choose_file unusable];
      try destruct (is_available (new yw));
      try destruct (is_available (new yr));
      cbn [negb]; split;
      try discriminate; try (intros (? & ? & ? & ?); discriminate); auto.
  - intros f other ->. reflexivity.
  - intros f other ->. reflexivity.
  - intros f -> Hav. cbn [unusable]. rewrite Hav. reflexivity.
  - intros f Hun ->.
    destruct (choose_file youtube_webdisplay youtube_root) as [y|];
      cbn [option_map] in Hun; rewrite Hun; reflexivity.
  - intros ->.
    destruct (choose_file youtube_webdisplay youtube_root) as [y|];
      cbn [option_map unusable]; [| reflexivity].
    destruct (negb (is_available (new y))); reflexivity.
  - destruct (choose_file youtube_webdisplay youtube_root) as [y|];
      destruct (choose_file original_webdisplay original_root) as [o|];
      cbn [option_map unusable];
      try destruct (is_available (new y)) eqn:Hy; cbn [negb unusable];
      try rewrite Hy; cbn [negb];
      try destruct (is_available (new o)) eqn:Ho; cbn [negb];
      split; auto; try (intros [H|H]; congruence); try congruence;
      try (intros _; right; reflexivity); try (intros _; left; reflexivity).
Qed.

Lemma select_mapper_precedence_witness :
  select_mapper (Some mixed_source) None
                (Some (numeric_source [(0, 100); (10, 200)])) None
    = Some (new mixed_source).
Proof.
  destruct (select_mapper_precedence (Some mixed_source) None
              (Some (numeric_source [(0, 100); (10, 200)])) None)
    as (_ & _ & _ & H & _).
  apply H; reflexivity.
Defined.

End SelectionFacts.

(* ================================================================== *)
(** * The static file route *)
(* ================================================================== *)

Module StaticFacts.
Import App.
Local Open Scope Z_scope.

(** The inner [try] never lets a [PermissionError] through. *)
Lemma directory_check_no_permission_error (fs : frontend) (path : string) :
  directory_check fs path <> Failed PermissionError.
Proof.
  unfold directory_check, and_then.
  destruct (resolve_file fs path) as [rf|[c| | | |]]; try discriminate.
  destruct (resolve_frontend fs) as [rd|[c| | | |]]; try discriminate.
  destruct (negb _); discriminate.
Qed.

Lemma directory_check_outside (fs : frontend) (path rf rd : string) :
  resolve_file fs path = Done rf -> resolve_frontend fs = Done rd ->
  (if case_insensitive fs
   then String.prefix (lower fs rd) (lower fs rf)
   else String.prefix rd rf) = false ->
  directory_check fs path = Failed (HTTPException 403).
Proof.
  intros Hf Hd Hout. unfold directory_check, and_then.
  rewrite Hf, Hd, Hout. reflexivity.
Qed.

(** X25.  [serve_static_files] aborts with 403 or 404 only; a path under
    [api/] or [godot/], a path that contains [..], and a path that resolves
    outside the frontend directory are all answered 404 (the 403 raised for
    the last two is caught and replaced); 403 is answered only after a
    [PermissionError] of the existence test, the file test or the sending; a
    file is sent only for a path without [..] that passed the directory check,
    exists and is a file. *)
Theorem static_answers (fs : frontend) (path : string) :
  (forall code, serve_static_files fs path = Abort code ->
                code = 403 \/ code = 404) /\
  (String.prefix "api/" path = true \/ String.prefix "godot/" path = true \/
   contains ".." path = true ->
   serve_static_files fs path = Abort 404) /\
  (forall rf rd,
     resolve_file fs path = Done rf -> resolve_frontend fs = Done rd ->
     (if case_insensitive fs
      then String.prefix (lower fs rd) (lower fs rf)
      else String.prefix rd rf) = false ->
     serve_static_files fs path = Abort 404) /\
  (serve_static_files fs path = Abort 403 ->
   path_exists fs path = Failed PermissionError \/
   path_is_file fs path = Failed PermissionError \/
   send_from_directory fs path = Failed PermissionError) /\
  (forall p, serve_static_files fs path = SendFile p ->
     p = path /\ contains ".." path = false /\
     String.prefix "api/" path = false /\
     String.prefix "godot/" path = false /\
     directory_check fs path = Done tt /\
     path_exists fs path = Done true /\ path_is_file fs path = Done true /\
     send_from_directory fs path = Done tt).
Proof.
  pose proof (directory_check_no_permission_error fs path) as Hdc.
  unfold serve_static_files, static_body, and_then.
  split; [| split; [| split; [| split]]].
  - intros code.
    destruct (String.prefix "api/" path || String.prefix "godot/" path)%bool;
      [intros [= <-]; auto|].
    destruct (contains ".." path); [intros [= <-]; auto|].
    destruct (directory_check fs path) as [[]|[c| | | |]];
      try (intros [= <-]; auto).
    destruct (path_exists fs path) as [[|]|[c| | | |]];
      try (intros [= <-]; auto).
    destruct (path_is_file fs path) as [[|]|[c| | | |]];
      try (intros [= <-]; auto).
    destruct (send_from_directory fs path) as [[]|[c| | | |]];
      try (intros [= <-]; auto); discriminate.
  - intros [H|[H|H]].
    + rewrite H. reflexivity.
    + rewrite H, orb_true_r. reflexivity.
    + destruct (String.prefix "api/" path || String.prefix "godot/" path)%bool;
        [reflexivity|]. rewrite H. reflexivity.
  - intros rf rd Hf Hd Hout.
    destruct (String.prefix "api/" path || String.prefix "godot/" path)%bool;
      [reflexivity|].
    destruct (contains ".." path); [reflexivity|].
    rewrite (directory_check_outside fs path rf rd Hf Hd Hout). reflexivity.
  - destruct (String.prefix "api/" path || String.prefix "godot/" path)%bool;
      [discriminate|].
    destruct (contains ".." path); [discriminate|].
    destruct (directory_check fs path) as [[]|[c| | | |]];
      try discriminate; [| congruence].
    destruct (path_exists fs path) as [[|]|[c| | | |]];
      try discriminate; auto.
    destruct (path_is_file fs path) as [[|]|[c| | | |]];
      try discriminate; auto.
    destruct (send_from_directory fs path) as [[]|[c| | | |]];
      try discriminate; auto.
  - intros p.
    destruct (String.prefix "api/" path) eqn:Hapi; [discriminate|].
    destruct (String.prefix "godot/" path) eqn:Hgodot; [discriminate|].
    cbn [orb].
    destruct (contains ".." path); [discriminate|].
    destruct (directory_check fs path) as [[]|[c| | | |]];
      try discriminate.
    destruct (path_exists fs path) as [[|]|[c| | | |]];
      try discriminate.
    destruct (path_is_file fs path) as [[|]|[c| | | |]];
      try discriminate.
    destruct (send_from_directory fs path) as [[]|[c| | | |]];
      try discriminate.
    intros [= <-]. repeat split; reflexivity.
Qed.

Lemma static_answers_witness :
  serve_static_files
    (Frontend (fun _ => Done "/etc/passwd"%string) (Done "/srv/frontend"%string)
              (fun _ => Done true) (fun _ => Done true) (fun _ => Done tt)
              false (fun s => s))
    "css/../../../etc/passwd" = Abort 404.
Proof.
  destruct (static_answers
              (Frontend (fun _ => Done "/etc/passwd"%string)
                        (Done "/srv/frontend"%string)
                        (fun _ => Done true) (fun _ => Done true)
                        (fun _ => Done tt) false (fun s => s))
              "css/../../../etc/passwd") as (_ & H & _).
  apply H. right; right. reflexivity.
Defined.

End StaticFacts.

(* ================================================================== *)
(** * Attitude angles *)
(* ================================================================== *)

Module AttitudeFacts.
Import DataProcessor PyFacts DataProcessorFacts StoreFacts LoopFacts.

Section Angles.
Variable as_euler : Rotation.quat -> R * R * R.

(** What the loop has appended when it ends: one angle per row, taken from
    the rotation [from_quat] makes of the row's vehicle quaternion. *)
Lemma attitude_loop_ok (rows : data_list) :
  forall ys ps rs a,
    attitude_loop as_euler rows ys ps rs = Ok a ->
    exists vs,
      Forall2 (fun ir v => Rotation.from_quat (vehicle_quat (snd ir)) = Ok v)
              rows vs /\
      yaws a = ys ++ map (fun v => degrees (snd (as_euler v))) vs /\
      pitches a = ps ++ map (fun v => degrees (snd (fst (as_euler v)))) vs /\
      rolls a = rs ++ map (fun v => degrees (fst (fst (as_euler v)))) vs.
Proof.
  induction rows as [|[ns r] rows IH]; intros ys ps rs a; cbn [attitude_loop].
  - intros [= <-]. exists []. cbn. rewrite !app_nil_r. repeat split. constructor.
  - destruct (Rotation.from_quat (vehicle_quat r)) as [v|e] eqn:Hv;
      cbn [bind]; [| discriminate].
    intros H. destruct (IH _ _ _ _ H) as (vs & Hall & Hy & Hp & Hr).
    exists (v :: vs). split; [constructor; [exact Hv | exact Hall]|].
    cbn [map]. rewrite Hy, Hp, Hr, <- !app_assoc. repeat split.
Qed.

Lemma attitude_loop_total (rows : data_list) :
  (forall ns r, In (ns, r) rows -> Rotation.norm (vehicle_quat r) <> 0%R) ->
  forall ys ps rs, exists a, attitude_loop as_euler rows ys ps rs = Ok a.
Proof.
  induction rows as [|[ns r] rows IH]; intros Hall ys ps rs; cbn [attitude_loop].
  - eexists; reflexivity.
  - rewrite (RotationFacts.from_quat_ok _ (Hall ns r (or_introl eq_refl))).
    cbn [bind]. apply IH. intros ns' r' Hin. apply (Hall ns' r'). right; exact Hin.
Qed.

Lemma attitude_loop_raises (rows : data_list) :
  forall ys ps rs e,
    attitude_loop as_euler rows ys ps rs = Raise e ->
    e = ValueError /\
    exists ns r, In (ns, r) rows /\ Rotation.norm (vehicle_quat r) = 0%R.
Proof.
  induction rows as [|[ns r] rows IH]; intros ys ps rs e; cbn [attitude_loop].
  - discriminate.
  - unfold Rotation.from_quat.
    destruct (Req_EM_T (Rotation.norm (vehicle_quat r)) 0) as [Hz|Hnz];
      cbn [bind].
    + intros [= <-]. split; [reflexivity|]. exists ns, r. split; [left; reflexivity | exact Hz].
    + intros H. destruct (IH _ _ _ _ H) as (He & ns' & r' & Hin & Hz).
      split; [exact He|]. exists ns', r'. split; [right; exact Hin | exact Hz].
Qed.

Lemma Forall2_nth {A B : Type} (P : A -> B -> Prop) (l : list A) (l' : list B) :
  Forall2 P l l' ->
  length l = length l' /\
  forall k x, nth_error l k = Some x ->
    exists y, nth_error l' k = Some y /\ P x y.
Proof.
  induction 1 as [|x y l l' Hxy Hall [IHlen IH]].
  - split; [reflexivity|]. intros [|k] x; discriminate.
  - split; [cbn; congruence|]. intros [|k] x0; cbn [nth_error].
    + intros [= <-]. exists y. auto.
    + apply IH.
Qed.

End Angles.

(** A finished extraction has one angle of each kind per sample. *)
Lemma attitude_data_lengths (as_euler : Rotation.quat -> R * R * R)
      (dl : data_list) (a : attitudes) :
  get_all_attitude_data as_euler dl = Ok a ->
  length (yaws a) = length dl /\ length (pitches a) = length dl /\
  length (rolls a) = length dl.
Proof.
  intros Ha.
  destruct (attitude_loop_ok as_euler dl [] [] [] a Ha)
    as (vs & Hall & Hy & Hp & Hr).
  cbn [app] in Hy, Hp, Hr.
  destruct (Forall2_nth _ _ _ Hall) as [Hlen _].
  rewrite Hy, Hp, Hr, !length_map. auto.
Qed.

(** X26.  When [get_all_attitude_data] returns, its three lists have one angle
    per sample, and at the position of an index they hold the roll, pitch and
    yaw, in degrees, of the vehicle rotation the frame of that index reports;
    it returns exactly when no row has a zero vehicle quaternion, and raises
    [ValueError] otherwise. *)
Theorem attitude_data_per_sample (as_euler : Rotation.quat -> R * R * R)
        (dl : data_list) :
  (forall a, get_all_attitude_data as_euler dl = Ok a ->
     length (yaws a) = length dl /\ length (pitches a) = length dl /\
     length (rolls a) = length dl /\
     forall i f, get_data_at_index dl i = Ok (Some f) ->
       nth_error (rolls a) (Z.to_nat i)
         = Some (degrees (fst (fst (as_euler (VQ f))))) /\
       nth_error (pitches a) (Z.to_nat i)
         = Some (degrees (snd (fst (as_euler (VQ f))))) /\
       nth_error (yaws a) (Z.to_nat i)
         = Some (degrees (snd (as_euler (VQ f))))) /\
  ((forall ns r, In (ns, r) dl -> Rotation.norm (vehicle_quat r) <> 0%R) <->
   exists a, get_all_attitude_data as_euler dl = Ok a) /\
  (forall e, get_all_attitude_data as_euler dl = Raise e -> e = ValueError).
Proof.
  unfold get_all_attitude_data. split; [| split].
  - intros a Ha.
    destruct (attitude_loop_ok as_euler dl [] [] [] a Ha)
      as (vs & Hall & Hy & Hp & Hr).
    cbn [app] in Hy, Hp, Hr.
    destruct (Forall2_nth _ _ _ Hall) as [Hlen Hnth].
    rewrite Hy, Hp, Hr, !length_map.
    split; [auto|]. split; [auto|]. split; [auto|].
    intros i f Hf.
    destruct (frame_origin dl i f Hf)
      as (_ & ns & r & hc & vw & hw & Hrow & _ & Hvw & _ & ->).
    destruct (Hnth _ _ Hrow) as (v & Hv & Hfrom).
    cbn [snd] in Hfrom. rewrite Hvw in Hfrom. injection Hfrom as <-.
    cbn [VQ]. rewrite !nth_error_map, Hv. repeat split.
  - split.
    + intros Hall. apply attitude_loop_total. exact Hall.
    + intros [a Ha] ns r Hin Hz.
      destruct (attitude_loop_ok as_euler dl [] [] [] a Ha) as (vs & Hall & _).
      destruct (In_nth_error _ _ Hin) as [k Hk].
      destruct (Forall2_nth _ _ _ Hall) as [_ Hnth].
      destruct (Hnth _ _ Hk) as (v & _ & Hfrom). cbn [snd] in Hfrom.
      unfold Rotation.from_quat in Hfrom.
      destruct (Req_EM_T (Rotation.norm (vehicle_quat r)) 0);
        [discriminate | contradiction].
  - intros e He. exact (proj1 (attitude_loop_raises as_euler dl [] [] [] e He)).
Qed.

Lemma attitude_data_per_sample_witness :
  exists a,
    get_all_attitude_data (fun _ => (0, 0, 0)%R) level_store = Ok a /\
    length (yaws a) = 4%nat.
Proof.
  destruct (attitude_data_per_sample (fun _ => (0, 0, 0)%R) level_store)
    as (Hshape & [Hok _] & _).
  destruct Hok as [a Ha].
  - intros ns r Hin. exact (proj1 (level_store_valid _ ns r Hin)).
  - exists a. split; [exact Ha|].
    exact (proj1 (Hshape a Ha)).
Defined.

End AttitudeFacts.

(* ================================================================== *)
(** * The initialisation route *)
(* ================================================================== *)

Module InitFacts.
Import DataProcessor App PyFacts DataProcessorFacts AppFacts StoreFacts
       IndexFacts LoopFacts RouteFacts AttitudeFacts.

Lemma fold_min_spec (l : list R) :
  forall x,
    (fold_left Rmin l x <= x)%R /\
    (forall y, In y l -> (fold_left Rmin l x <= y)%R) /\
    In (fold_left Rmin l x) (x :: l).
Proof.
  induction l as [|z l IH]; intros x; cbn [fold_left].
  - split; [Lra.lra|]. split; [contradiction | left; reflexivity].
  - destruct (IH (Rmin x z)) as (Hle & Hall & Hin).
    pose proof (Rmin_l x z). pose proof (Rmin_r x z).
    split; [Lra.lra|]. split.
    + intros y [<-|Hy]; [Lra.lra | auto].
    + destruct Hin as [Heq|Hin]; [| right; right; exact Hin].
      rewrite <- Heq. unfold Rmin. destruct (Rle_dec x z);
        [left | right; left]; reflexivity.
Qed.

Lemma fold_max_spec (l : list R) :
  forall x,
    (x <= fold_left Rmax l x)%R /\
    (forall y, In y l -> (y <= fold_left Rmax l x)%R) /\
    In (fold_left Rmax l x) (x :: l).
Proof.
  induction l as [|z l IH]; intros x; cbn [fold_left].
  - split; [Lra.lra|]. split; [contradiction | left; reflexivity].
  - destruct (IH (Rmax x z)) as (Hle & Hall & Hin).
    pose proof (Rmax_l x z). pose proof (Rmax_r x z).
    split; [Lra.lra|]. split.
    + intros y [<-|Hy]; [Lra.lra | auto].
    + destruct Hin as [Heq|Hin]; [| right; right; exact Hin].
      rewrite <- Heq. unfold Rmax. destruct (Rle_dec x z);
        [right; left | left]; reflexivity.
Qed.

(** [min] and [max] of a non-empty list bound its elements and are among
    them. *)
Lemma list_min_spec (l : list R) :
  l <> [] ->
  exists m, list_min l = Ok m /\ In m l /\ forall y, In y l -> (m <= y)%R.
Proof.
  destruct l as [|x l]; [congruence|]. intros _.
  destruct (fold_min_spec l x) as (Hle & Hall & Hin).
  eexists. split; [reflexivity|]. split; [exact Hin|].
  intros y [<-|Hy]; auto.
Qed.

Lemma list_max_spec (l : list R) :
  l <> [] ->
  exists m, list_max l = Ok m /\ In m l /\ forall y, In y l -> (y <= m)%R.
Proof.
  destruct l as [|x l]; [congruence|]. intros _.
  destruct (fold_max_spec l x) as (Hle & Hall & Hin).
  eexists. split; [reflexivity|]. split; [exact Hin|].
  intros y [<-|Hy]; auto.
Qed.

(** The points of the complete path, read off the rows. *)
Lemma enumerate_path_nth (dl : data_list) :
  forall i k,
    nth_error (enumerate_path i (map (fun ir => lat (snd ir)) dl)
                                (map (fun ir => lon (snd ir)) dl)
                                (map (fun ir => alt (snd ir)) dl)) k
    = option_map (fun ir => PathPoint (i + Z.of_nat k) (lat (snd ir))
                                      (lon (snd ir)) (alt (snd ir)))
                 (nth_error dl k).
Proof.
  induction dl as [|[ns r] dl IH]; intros i k.
  - destruct k; reflexivity.
  - cbn [map enumerate_path]. destruct k as [|k]; cbn [nth_error option_map snd].
    + do 2 f_equal. lia.
    + rewrite IH. destruct (nth_error dl k); cbn [option_map]; [| reflexivity].
      do 2 f_equal. lia.
Qed.

Lemma enumerate_path_length (dl : data_list) :
  forall i,
    length (enumerate_path i (map (fun ir => lat (snd ir)) dl)
                             (map (fun ir => lon (snd ir)) dl)
                             (map (fun ir => alt (snd ir)) dl))
    = length dl.
Proof.
  induction dl as [|[ns r] dl IH]; intros i; [reflexivity|].
  cbn [map enumerate_path length]. f_equal. apply IH.
Qed.

Lemma enumerate_path_alts (dl : data_list) :
  forall i,
    map point_alt
        (enumerate_path i (map (fun ir => lat (snd ir)) dl)
                          (map (fun ir => lon (snd ir)) dl)
                          (map (fun ir => alt (snd ir)) dl))
    = map (fun ir => alt (snd ir)) dl.
Proof.
  induction dl as [|[ns r] dl IH]; intros i; [reflexivity|].
  cbn [map enumerate_path point_alt]. f_equal. apply IH.
Qed.

(** The [youtube] entry is there exactly when a video is configured, and
    the anchors it sends are the first 2000 at most of a non-empty table. *)
Lemma youtube_entry_spec (m : option Mapper.mapper) (offset : Q)
      (vid : string) :
  (youtube_entry m offset vid = None <-> vid = EmptyString) /\
  (forall y, youtube_entry m offset vid = Some y ->
     enabled y = true /\ video_id y = vid /\ start_offset y = offset /\
     (has_timestamp_map y = true <-> timestamp_map y <> None) /\
     forall tm, timestamp_map y = Some tm ->
       (0 < length tm <= 2000)%nat /\
       exists mp, m = Some mp /\ tm = firstn 2000 (Mapper.timestamps mp)).
Proof.
  unfold youtube_entry.
  destruct (String.eqb_spec vid EmptyString) as [->|Hv].
  - split; [tauto | discriminate].
  - split; [split; [discriminate | contradiction]|].
    intros y [= <-].
    cbn [enabled video_id start_offset has_timestamp_map timestamp_map negb].
    split; [reflexivity|]. split; [reflexivity|]. split; [reflexivity|].
    destruct m as [mp|].
    + destruct (Mapper.is_available mp) eqn:Hav.
      * split; [split; [discriminate | reflexivity]|].
        intros tm Htm.
        change (Some (firstn 2000 (Mapper.timestamps mp)) = Some tm) in Htm.
        assert (Heq : tm = firstn 2000 (Mapper.timestamps mp)) by congruence.
        split; [| exists mp; auto].
        unfold Mapper.is_available in Hav. apply Nat.ltb_lt in Hav.
        rewrite Heq, length_firstn. lia.
      * split; [split; [discriminate | contradiction]|]. discriminate.
    + split; [split; [discriminate | contradiction]|]. discriminate.
Qed.

Section Body.
Variable to_timedelta_ns : Q -> result Z.
Variable as_euler : Rotation.quat -> R * R * R.
Variable video_timestamp_mapper : option Mapper.mapper.
Variable YOUTUBE_START_OFFSET : Q.
Variable YOUTUBE_VIDEO_ID : string.


(** What the [try] block of [init] has computed when it succeeds. *)
Lemma init_body_inv (dl : data_list) (a : init_answer) :
  init_body to_timedelta_ns as_euler video_timestamp_mapper
            YOUTUBE_START_OFFSET YOUTUBE_VIDEO_ID dl = Ok a ->
  summary_data_count a = get_data_count dl /\
  youtube a = youtube_entry video_timestamp_mapper YOUTUBE_START_OFFSET
                            YOUTUBE_VIDEO_ID /\
  ((dl = [] /\ init_bounds a = None /\ complete_path a = [] /\
    complete_altitudes a = [] /\ takeoff_index a = 0%nat /\
    complete_attitudes a = Attitudes [] [] []) \/
   (dl <> [] /\
    exists lat_lo lat_hi lon_lo lon_hi,
      list_min (lats (get_all_path_data dl)) = Ok lat_lo /\
      list_max (lats (get_all_path_data dl)) = Ok lat_hi /\
      list_min (lons (get_all_path_data dl)) = Ok lon_lo /\
      list_max (lons (get_all_path_data dl)) = Ok lon_hi /\
      init_bounds a = Some (Bounds lat_lo lat_hi lon_lo lon_hi) /\
      complete_path a
        = enumerate_path 0 (lats (get_all_path_data dl))
                           (lons (get_all_path_data dl))
                           (alts (get_all_path_data dl)) /\
      complete_altitudes a = alts (get_all_path_data dl) /\
      get_all_attitude_data as_euler dl = Ok (complete_attitudes a) /\
      exists ns, to_timedelta_ns 2643%Q = Ok ns /\
                 find_index_from_ns dl ns = Ok (Some (takeoff_index a)))).
Proof.
  unfold init_body. cbv zeta.
  destruct dl as [|row0 dl'] eqn:E.
  - cbn. intros [= <-]. cbn. split; [reflexivity|]. split; [reflexivity|].
    left. repeat split.
  - rewrite <- E.
    assert (Hne : dl <> []) by (rewrite E; discriminate).
    assert (Hpos : (0 <? get_data_count dl)%Z = true).
    { rewrite E. unfold get_data_count. cbn [length]. apply Z.ltb_lt. lia. }
    rewrite Hpos.
    destruct (get_data_at_index dl 0) as [first_data|e]; cbn [bind];
      [| discriminate].
    destruct (get_data_at_index dl (get_data_count dl - 1)) as [last_data|e];
      cbn [bind]; [| discriminate].
    change (match dict_get 0 TIMESTAMPS with Some v => v | None => 2643%Q end)
      with 2643%Q.
    rewrite (find_index_seconds_nonempty _ dl _ Hne).
    destruct (to_timedelta_ns 2643) as [ns|e] eqn:Hns; cbn [bind];
      [| discriminate].
    destruct (find_index_some_in_range dl ns Hne) as (i & Hi & Hlt).
    rewrite Hi. cbn [bind].
    destruct (get_all_attitude_data as_euler dl) as [att|e] eqn:Hatt;
      cbn [bind]; [| discriminate].
    destruct (list_min_spec (lats (get_all_path_data dl))) as (lat_lo & Hlalo & _).
    { rewrite E. discriminate. }
    destruct (list_max_spec (lats (get_all_path_data dl))) as (lat_hi & Hlahi & _).
    { rewrite E. discriminate. }
    destruct (list_min_spec (lons (get_all_path_data dl))) as (lon_lo & Hlolo & _).
    { rewrite E. discriminate. }
    destruct (list_max_spec (lons (get_all_path_data dl))) as (lon_hi & Hlohi & _).
    { rewrite E. discriminate. }
    rewrite Hlalo, Hlahi, Hlolo, Hlohi.
    destruct (lats (get_all_path_data dl)) as [|la0 las] eqn:Elats;
      [rewrite E in Elats; discriminate|].
    destruct (lons (get_all_path_data dl)) as [|lo0 los] eqn:Elons;
      [rewrite E in Elons; discriminate|].
    cbn [bind]. intros [= <-].
    cbn [summary_data_count youtube init_bounds complete_path
         complete_altitudes complete_attitudes takeoff_index].
    split; [reflexivity|]. split; [reflexivity|]. right.
    split; [exact Hne|].
    exists lat_lo, lat_hi, lon_lo, lon_hi.
    repeat split; try reflexivity.
    exists ns. split; [reflexivity | exact Hi].
Qed.

(** On a store whose quaternions are all usable the block succeeds as soon
    as the takeoff time converts. *)
Lemma init_body_valid (dl : data_list) :
  valid_store dl ->
  dl = [] \/ (exists ns, to_timedelta_ns 2643%Q = Ok ns) ->
  exists a,
    init_body to_timedelta_ns as_euler video_timestamp_mapper
              YOUTUBE_START_OFFSET YOUTUBE_VIDEO_ID dl = Ok a.
Proof.
  intros Hvalid Hconv. unfold init_body. cbv zeta.
  destruct dl as [|row0 dl'] eqn:E.
  - eexists. reflexivity.
  - rewrite <- E in *.
    assert (Hne : dl <> []) by (rewrite E; discriminate).
    destruct Hconv as [|[ns Hns]]; [contradiction|].
    assert (Hcount : (0 < get_data_count dl)%Z).
    { rewrite E. unfold get_data_count. cbn [length]. lia. }
    rewrite (proj2 (Z.ltb_lt _ _) Hcount).
    assert (Hframe : forall i, (0 <= i < get_data_count dl)%Z ->
              exists f, get_data_at_index dl i = Ok (Some f)).
    { intros i Hi.
      destruct (nth_error_in_store dl i Hi) as (ts & r & Hnth & HIn).
      destruct (get_data_at_index_valid dl i ts r Hi Hnth (Hvalid ts r HIn))
        as (f & Hf & _).
      exists f. exact Hf. }
    destruct (Hframe 0%Z ltac:(lia)) as [f0 ->].
    destruct (Hframe (get_data_count dl - 1)%Z ltac:(lia)) as [f1 ->].
    cbn [bind].
    change (match dict_get 0 TIMESTAMPS with Some v => v | None => 2643%Q end)
      with 2643%Q.
    rewrite (find_index_seconds_nonempty _ dl _ Hne), Hns. cbn [bind].
    destruct (find_index_some_in_range dl ns Hne) as (i & -> & _). cbn [bind].
    destruct (attitude_loop_total as_euler dl
                (fun ts r Hin => proj1 (Hvalid ts r Hin)) [] [] []) as [att Hatt].
    unfold get_all_attitude_data. rewrite Hatt. cbn [bind].
    rewrite E. cbn. eexists. reflexivity.
Qed.

(** What makes the block fail. *)
Lemma init_body_raises (dl : data_list) (e : exn) :
  init_body to_timedelta_ns as_euler video_timestamp_mapper
            YOUTUBE_START_OFFSET YOUTUBE_VIDEO_ID dl = Raise e ->
  dl <> [] /\ (e = ValueError \/ to_timedelta_ns 2643%Q = Raise e).
Proof.
  unfold init_body. cbv zeta.
  destruct dl as [|row0 dl'] eqn:E; [discriminate|].
  rewrite <- E.
  assert (Hne : dl <> []) by (rewrite E; discriminate).
  split; [exact Hne|]. revert H.
  assert (Hpos : (0 <? get_data_count dl)%Z = true).
  { rewrite E. unfold get_data_count. cbn [length]. apply Z.ltb_lt. lia. }
  rewrite Hpos.
  destruct (get_data_at_index dl 0) as [first_data|e0] eqn:H0; cbn [bind];
    [| intros [= <-]; left; exact (get_data_at_index_raises _ _ _ H0)].
  destruct (get_data_at_index dl (get_data_count dl - 1)) as [last_data|e1] eqn:H1;
    cbn [bind];
    [| intros [= <-]; left; exact (get_data_at_index_raises _ _ _ H1)].
  change (match dict_get 0 TIMESTAMPS with Some v => v | None => 2643%Q end)
    with 2643%Q.
  rewrite (find_index_seconds_nonempty _ dl _ Hne).
  destruct (to_timedelta_ns 2643) as [ns|e2] eqn:Hns; cbn [bind];
    [| intros [= <-]; right; reflexivity].
  destruct (find_index_some_in_range dl ns Hne) as (i & -> & _). cbn [bind].
  destruct (get_all_attitude_data as_euler dl) as [att|e3] eqn:Hatt;
    cbn [bind].
  - rewrite E. cbn. discriminate.
  - intros [= <-]. left.
    exact (proj1 (attitude_loop_raises as_euler dl [] [] [] e3 Hatt)).
Qed.
End Body.

(** X27.  A successful [init] has loaded the store and made it the processor;
    its complete path has one point per sample, in order, with the index and
    position of the row; the altitudes are those of the path; bounds are
    missing exactly for an empty store, and otherwise enclose every point of
    the path and are each attained by one; the takeoff index lies inside the
    store (0 for an empty one); the attitude lists have one entry per sample;
    the YouTube entry is missing exactly when no video is configured, and
    sends at most 2000 anchors of a non-empty table. *)
Theorem init_answer_shape (to_timedelta_ns : Q -> result Z)
        (as_euler : Rotation.quat -> R * R * R)
        (video_timestamp_mapper : option Mapper.mapper)
        (YOUTUBE_START_OFFSET : Q) (YOUTUBE_VIDEO_ID : string)
        (load : result data_list) (processor : option data_list)
        (a : init_answer) (processor' : option data_list) :
  init to_timedelta_ns as_euler video_timestamp_mapper YOUTUBE_START_OFFSET
       YOUTUBE_VIDEO_ID load processor = (InitOk a, processor') ->
  exists dl,
    load = Ok dl /\ processor' = Some dl /\
    summary_data_count a = get_data_count dl /\
    length (complete_path a) = length dl /\
    (forall k p, nth_error (complete_path a) k = Some p ->
       exists ns r, nth_error dl k = Some (ns, r) /\
         point_index p = Z.of_nat k /\ point_lat p = lat r /\
         point_lon p = lon r /\ point_alt p = alt r) /\
    complete_altitudes a = map point_alt (complete_path a) /\
    (init_bounds a = None <-> dl = []) /\
    (forall b, init_bounds a = Some b ->
       (forall p, In p (complete_path a) ->
          (min_lat b <= point_lat p <= max_lat b)%R /\
          (min_lon b <= point_lon p <= max_lon b)%R) /\
       (exists p, In p (complete_path a) /\ point_lat p = min_lat b) /\
       (exists p, In p (complete_path a) /\ point_lat p = max_lat b) /\
       (exists p, In p (complete_path a) /\ point_lon p = min_lon b) /\
       (exists p, In p (complete_path a) /\ point_lon p = max_lon b)) /\
    ((takeoff_index a < length dl)%nat \/
     dl = [] /\ takeoff_index a = 0%nat) /\
    length (yaws (complete_attitudes a)) = length dl /\
    length (pitches (complete_attitudes a)) = length dl /\
    length (rolls (complete_attitudes a)) = length dl /\
    (youtube a = None <-> YOUTUBE_VIDEO_ID = EmptyString) /\
    (forall y tm, youtube a = Some y -> timestamp_map y = Some tm ->
       (0 < length tm <= 2000)%nat).
Proof.
  unfold init. destruct load as [dl|e]; [| discriminate].
  destruct (init_body _ _ _ _ _ dl) as [a'|e] eqn:Hbody; [| discriminate].
  intros [= <- <-]. exists dl.
  split; [reflexivity|]. split; [reflexivity|].
  destruct (youtube_entry_spec video_timestamp_mapper YOUTUBE_START_OFFSET
              YOUTUBE_VIDEO_ID) as [Hynone Hysome].
  assert (Hyt : (youtube a' = None <-> YOUTUBE_VIDEO_ID = EmptyString) /\
                (forall y tm, youtube a' = Some y -> timestamp_map y = Some tm ->
                   (0 < length tm <= 2000)%nat)).
  { destruct (init_body_inv _ _ _ _ _ dl a' Hbody) as (_ & -> & _).
    split; [exact Hynone|]. intros y tm Hy Htm.
    destruct (Hysome y Hy) as (_ & _ & _ & _ & Hlen).
    exact (proj1 (Hlen tm Htm)). }
  destruct (init_body_inv _ _ _ _ _ dl a' Hbody)
    as (Hcount & _ & [Hempty | (Hne & lat_lo & lat_hi & lon_lo & lon_hi &
                                 Hlalo & Hlahi & Hlolo & Hlohi & Hb & Hpath &
                                 Halts & Hatt & ns & Hns & Hfind)]).
  - destruct Hempty as (-> & Hb & Hpath & Halts & Htk & Hatt).
    rewrite Hb, Hpath, Halts, Htk, Hatt. cbn.
    split; [exact Hcount|]. split; [reflexivity|].
    split; [intros [|k] p; discriminate|]. split; [reflexivity|].
    split; [tauto|]. split; [discriminate|]. split; [right; auto|].
    split; [reflexivity|]. split; [reflexivity|]. split; [reflexivity|].
    exact Hyt.
  - unfold get_all_path_data in *. cbn [lats lons alts] in *.
    split; [exact Hcount|].
    split; [rewrite Hpath; apply enumerate_path_length|].
    assert (Hnth : forall k p, nth_error (complete_path a') k = Some p ->
              exists ns0 r, nth_error dl k = Some (ns0, r) /\
                p = PathPoint (Z.of_nat k) (lat r) (lon r) (alt r)).
    { intros k p. rewrite Hpath, enumerate_path_nth.
      destruct (nth_error dl k) as [[ns0 r]|]; cbn [option_map snd];
        [| discriminate].
      intros [= <-]. exists ns0, r. split; [reflexivity|]. f_equal. }
    assert (Hrow : forall ns0 r, In (ns0, r) dl ->
              In (PathPoint (Z.of_nat 0 + 0) (lat r) (lon r) (alt r)) [] \/
              exists p, In p (complete_path a') /\ point_lat p = lat r /\
                        point_lon p = lon r).
    { intros ns0 r Hin. right.
      destruct (In_nth_error _ _ Hin) as [k Hk].
      exists (PathPoint (Z.of_nat k) (lat r) (lon r) (alt r)).
      split; [| split; reflexivity].
      apply (nth_error_In _ k). rewrite Hpath, enumerate_path_nth, Hk.
      reflexivity. }
    split.
    { intros k p Hp. destruct (Hnth k p Hp) as (ns0 & r & Hk & ->).
      exists ns0, r. repeat split; auto. }
    split; [rewrite Hpath, Halts; symmetry; apply enumerate_path_alts|].
    split; [rewrite Hb; split; [discriminate | contradiction]|].
    split.
    { intros b. rewrite Hb. intros [= <-]. cbn [min_lat max_lat min_lon max_lon].
      destruct (list_min_spec (map (fun ir => lat (snd ir)) dl))
        as (m1 & Hm1 & Hin1 & Hle1); [destruct dl; [congruence | discriminate]|].
      destruct (list_max_spec (map (fun ir => lat (snd ir)) dl))
        as (m2 & Hm2 & Hin2 & Hle2); [destruct dl; [congruence | discriminate]|].
      destruct (list_min_spec (map (fun ir => lon (snd ir)) dl))
        as (m3 & Hm3 & Hin3 & Hle3); [destruct dl; [congruence | discriminate]|].
      destruct (list_max_spec (map (fun ir => lon (snd ir)) dl))
        as (m4 & Hm4 & Hin4 & Hle4); [destruct dl; [congruence | discriminate]|].
      rewrite Hm1 in Hlalo. rewrite Hm2 in Hlahi.
      rewrite Hm3 in Hlolo. rewrite Hm4 in Hlohi.
      injection Hlalo as <-. injection Hlahi as <-.
      injection Hlolo as <-. injection Hlohi as <-.
      assert (Hattained : forall (g : row -> R) m,
                In m (map (fun ir : Z * row => g (snd ir)) dl) ->
                exists ns0 r, In (ns0, r) dl /\ g r = m).
      { intros g m Hin. apply in_map_iff in Hin.
        destruct Hin as ([ns0 r] & Hg & Hin). exists ns0, r. auto. }
      split.
      { intros p Hp. destruct (In_nth_error _ _ Hp) as [k Hk].
        destruct (Hnth k p Hk) as (ns0 & r & Hrk & ->).
        cbn [point_lat point_lon].
        pose proof (nth_error_In _ _ Hrk) as Hin.
        assert (In (lat r) (map (fun ir : Z * row => lat (snd ir)) dl))
          by (apply (in_map (fun ir : Z * row => lat (snd ir)) _ _ Hin)).
        assert (In (lon r) (map (fun ir : Z * row => lon (snd ir)) dl))
          by (apply (in_map (fun ir : Z * row => lon (snd ir)) _ _ Hin)).
        repeat split; auto. }
      split; [|split; [|split]].
      - destruct (Hattained lat m1 Hin1) as (ns0 & r & Hin & <-).
        destruct (Hrow ns0 r Hin) as [[]|(p & Hp & Hlat & _)]. eauto.
      - destruct (Hattained lat m2 Hin2) as (ns0 & r & Hin & <-).
        destruct (Hrow ns0 r Hin) as [[]|(p & Hp & Hlat & _)]. eauto.
      - destruct (Hattained lon m3 Hin3) as (ns0 & r & Hin & <-).
        destruct (Hrow ns0 r Hin) as [[]|(p & Hp & _ & Hlon)]. eauto.
      - destruct (Hattained lon m4 Hin4) as (ns0 & r & Hin & <-).
        destruct (Hrow ns0 r Hin) as [[]|(p & Hp & _ & Hlon)]. eauto. }
    split; [left; exact (find_index_some_bound _ _ _ Hfind)|].
    destruct (attitude_data_lengths as_euler dl _ Hatt) as (Hy & Hp & Hr).
    split; [exact Hy|]. split; [exact Hp|]. split; [exact Hr|]. exact Hyt.
Qed.

Lemma init_answer_shape_witness :
  exists a,
    init (fun q => Ok (Qfloor (q * 1000000000)%Q)) (fun _ => (0, 0, 0)%R)
         None 0 "" (Ok level_store) None = (InitOk a, Some level_store) /\
    length (complete_path a) = 4%nat /\
    (takeoff_index a < 4)%nat.
Proof.
  destruct (init_body_valid (fun q => Ok (Qfloor (q * 1000000000)%Q))
              (fun _ => (0, 0, 0)%R) None 0 "" level_store
              (level_store_valid _)) as [a Ha].
  { right. eexists. reflexivity. }
  assert (Hinit : init (fun q => Ok (Qfloor (q * 1000000000)%Q))
                       (fun _ => (0, 0, 0)%R) None 0 "" (Ok level_store) None
                  = (InitOk a, Some level_store)).
  { unfold init. rewrite Ha. reflexivity. }
  exists a. split; [exact Hinit|].
  destruct (init_answer_shape _ _ _ _ _ _ _ _ _ Hinit)
    as (dl & Hload & _ & _ & Hlen & _ & _ & _ & _ & Htk & _).
  injection Hload as <-. split; [exact Hlen|].
  destruct Htk as [Htk|[Hnil _]]; [exact Htk | discriminate].
Defined.

(** X28.  When loading the file raises, [init] answers that error and leaves
    the processor as it was; when the file loads and a later step fails, the
    store has samples, the error is a [ValueError] (an unusable quaternion) or
    the one of converting the takeoff time, and the processor is the new store
    all the same; on a store with usable quaternions whose takeoff time
    converts, and on an empty store, [init] succeeds. *)
Theorem init_outcomes (to_timedelta_ns : Q -> result Z)
        (as_euler : Rotation.quat -> R * R * R)
        (video_timestamp_mapper : option Mapper.mapper)
        (YOUTUBE_START_OFFSET : Q) (YOUTUBE_VIDEO_ID : string)
        (load : result data_list) (processor : option data_list) :
  let answer := init to_timedelta_ns as_euler video_timestamp_mapper
                     YOUTUBE_START_OFFSET YOUTUBE_VIDEO_ID load processor in
  (forall e, load = Raise e -> answer = (InitFailed e, processor)) /\
  (forall dl e processor',
     load = Ok dl -> answer = (InitFailed e, processor') ->
     processor' = Some dl /\ dl <> [] /\
     (e = ValueError \/ to_timedelta_ns 2643%Q = Raise e)) /\
  (forall dl,
     load = Ok dl -> valid_store dl ->
     dl = [] \/ (exists ns, to_timedelta_ns 2643%Q = Ok ns) ->
     exists a, answer = (InitOk a, Some dl)).
Proof.
  intros answer. subst answer. unfold init. split; [| split].
  - intros e ->. reflexivity.
  - intros dl e processor' ->.
    destruct (init_body _ _ _ _ _ dl) as [a|e'] eqn:Hbody; [discriminate|].
    intros [= <- <-]. split; [reflexivity|].
    exact (init_body_raises _ _ _ _ _ dl e' Hbody).
  - intros dl -> Hvalid Hconv.
    destruct (init_body_valid to_timedelta_ns as_euler video_timestamp_mapper
                YOUTUBE_START_OFFSET YOUTUBE_VIDEO_ID dl Hvalid Hconv)
      as [a Ha].
    rewrite Ha. exists a. reflexivity.
Qed.

Lemma init_outcomes_witness :
  exists a,
    init (fun q => Ok (Qfloor (q * 1000000000)%Q)) (fun _ => (0, 0, 0)%R)
         None 0 "" (Ok level_store) None = (InitOk a, Some level_store).
Proof.
  destruct (init_outcomes (fun q => Ok (Qfloor (q * 1000000000)%Q))
              (fun _ => (0, 0, 0)%R) None 0 "" (Ok level_store) None)
    as (_ & _ & H).
  apply (H level_store eq_refl (level_store_valid _)).
  right. eexists. reflexivity.
Defined.

End InitFacts.
